(** * Real-estate search engine: scoring policy and front-end state logic

    A shallow embedding of the parts of the repository that carry
    behaviour worth stating:

    - the source-scoring and confidence policy of the back end
      (documented in the README, implemented in [backend/core]);
    - [SearchBar.handleSubmit], the [useSearch] hook with its stream
      reader, [ConfidenceBadge], the widget allow-list of [page.tsx],
      and the arithmetic and the rendering decisions of the other
      components.

    Conventions.  A JavaScript string is the list of its UTF-16 code
    units.  A [number] that the code only stores, compares or hands to
    [Math.round] is embedded as the exact rational [Q] it denotes: every
    finite double is a rational, and these operations are exact on
    doubles.  Where the code computes with numbers, in
    [ScenarioExplorer], [SourceCard] and [FreshnessMeter], they are
    IEEE 754 doubles, embedded with the Standard Library's
    specification of floats at precision 53 (module [F64]): every
    operation rounds to nearest, a division by zero gives an infinity
    or NaN.  The parameters of the back-end policy, which the spec
    states over real numbers, are rationals. *)

From Stdlib Require Import List String Ascii Bool ZArith NArith QArith Qround
  Qminmax Qabs Qpower DecimalString Lia Lqa SpecFloat.
Import ListNotations.

Set Warnings "-register-all".

Local Open Scope Q_scope.

(* ------------------------------------------------------------------ *)
(** ** JavaScript values *)

Module Js.

(** A string, as the sequence of its UTF-16 code units. *)
Definition jsstring := list N.

(** Embedding of an ASCII literal of the source. *)
Fixpoint lit (s : string) : jsstring :=
  match s with
  | EmptyString => []
  | String c r => N_of_ascii c :: lit r
  end.

Definition jsstring_eqb (a b : jsstring) : bool :=
  if list_eq_dec N.eq_dec a b then true else false.

(** Truthiness of a string: only the empty string is falsy. *)
Definition truthy (s : jsstring) : bool :=
  match s with [] => false | _ :: _ => true end.

(** The result of [JSON.parse]. *)
Inductive json : Type :=
| JNull
| JBool (b : bool)
| JNum (n : Q)
| JStr (s : jsstring)
| JArr (items : list json)
| JObj (fields : list (jsstring * json)).

(** Property read [o.k] on a parsed value: only objects carry own
    properties here; with a repeated key [JSON.parse] keeps the last. *)
Fixpoint lookup_last (k : jsstring) (fields : list (jsstring * json))
  : option json :=
  match fields with
  | [] => None
  | (k', v) :: rest =>
      match lookup_last k rest with
      | Some v' => Some v'
      | None => if jsstring_eqb k k' then Some v else None
      end
  end.

Definition get (k : jsstring) (v : json) : option json :=
  match v with
  | JObj fields => lookup_last k fields
  | _ => None
  end.

(** Truthiness of a parsed value: [null], [false], zero and the empty
    string are falsy, every array and object is truthy. *)
Definition truthyValue (v : json) : bool :=
  match v with
  | JNull => false
  | JBool b => b
  | JNum n => negb (Qeq_bool n 0)
  | JStr s => truthy s
  | JArr _ => true
  | JObj _ => true
  end.

End Js.

(* ------------------------------------------------------------------ *)
(** ** Numbers in double precision *)

Module F64.

(** A Number is an IEEE 754 binary64 value: the floats of the Standard
    Library's specification at precision 53 and maximal exponent 1024,
    with one NaN.  A finite value [S754_finite s m e] is [m * 2^e],
    negated when [s] is set. *)
Definition f64 : Type := spec_float.

Definition prec : Z := 53.
Definition emax : Z := 1024.

Definition Infinity : f64 := S754_infinity false.
Definition zero : f64 := S754_zero false.

(** The Number of an integer, rounded to nearest, ties to even. *)
Definition ofZ (z : Z) : f64 := binary_normalize prec emax z 0 false.

Definition add (a b : f64) : f64 := SFadd prec emax a b.
Definition sub (a b : f64) : f64 := SFsub prec emax a b.
Definition mul (a b : f64) : f64 := SFmul prec emax a b.
Definition div (a b : f64) : f64 := SFdiv prec emax a b.

(** [a === b], [a < b] and [a <= b] on Numbers: false when either is
    NaN, and the two zeros are equal. *)
Definition strictEq (a b : f64) : bool := SFeqb a b.
Definition ltb (a b : f64) : bool := SFltb a b.
Definition leb (a b : f64) : bool := SFleb a b.

(** The Number nearest to a rational, ties to even: what a decimal
    literal or a JSON number of that value denotes. *)
Definition ofQ (q : Q) : f64 :=
  match Qnum q with
  | Z0 => zero
  | Zpos n =>
      let '(m, e, l) :=
        SFdiv_core_binary prec emax (Zpos n) 0 (Zpos (Qden q)) 0 in
      binary_round_aux prec emax false m e l
  | Zneg n =>
      let '(m, e, l) :=
        SFdiv_core_binary prec emax (Zpos n) 0 (Zpos (Qden q)) 0 in
      binary_round_aux prec emax true m e l
  end.


(** [Number.isFinite]. *)
Definition isFinite (a : f64) : bool :=
  match a with
  | S754_zero _ | S754_finite _ _ _ => true
  | _ => false
  end.

(** Truthiness of a Number: the zeros and NaN are falsy. *)
Definition truthyNumber (a : f64) : bool :=
  match a with
  | S754_zero _ | S754_nan => false
  | _ => true
  end.

(** [Math.max(a, b)]: NaN when either is, and +0 above -0. *)
Definition max (a b : f64) : f64 :=
  match a, b with
  | S754_nan, _ | _, S754_nan => S754_nan
  | S754_zero sa, S754_zero sb => S754_zero (sa && sb)
  | _, _ => if ltb a b then b else a
  end.

(** The integer [floor(v + 1/2)] and the integer [ceil(v)] of a finite
    value [v = m * 2^e], negated when [s] is set. *)
Definition signed (s : bool) (m : positive) : Z :=
  if s then Zneg m else Zpos m.

Definition roundHalfUp (s : bool) (m : positive) (e : Z) : Z :=
  match e with
  | Zneg k => (2 * signed s m + 2 ^ Zpos k) / 2 ^ (Zpos k + 1)
  | _ => signed s m * 2 ^ e
  end.

Definition ceiling (s : bool) (m : positive) (e : Z) : Z :=
  match e with
  | Zneg k => - ((- signed s m) / 2 ^ Zpos k)
  | _ => signed s m * 2 ^ e
  end.

(** An integer result of [Math.round] or [Math.ceil]; a zero result
    keeps the sign of the argument. *)
Definition integral (s : bool) (n : Z) : f64 :=
  match n with
  | Z0 => S754_zero s
  | _ => ofZ n
  end.

(** [Math.round(a)]. *)
Definition round (a : f64) : f64 :=
  match a with
  | S754_finite s m e => integral s (roundHalfUp s m e)
  | _ => a
  end.

(** [Math.ceil(a)]. *)
Definition ceil (a : f64) : f64 :=
  match a with
  | S754_finite s m e => integral s (ceiling s m e)
  | _ => a
  end.

(** A finite Number above zero. *)
Definition isPositiveFinite (a : f64) : bool :=
  match a with
  | S754_finite false _ _ => true
  | _ => false
  end.



(** A value with the sign bit [s] that is not NaN. *)
Definition signedBy (s : bool) (x : f64) : Prop :=
  match x with
  | S754_zero s' | S754_infinity s' | S754_finite s' _ _ => s' = s
  | S754_nan => False
  end.

(** The exact value [m * 2^e] of a mantissa and an exponent. *)
Definition valueOf (m e : Z) : Q := inject_Z m * 2 ^ e.

(** Where a value [v] lies between [m * 2^e] and [(m + 1) * 2^e], as
    the rounding of the specification records it. *)
Definition located (m e : Z) (l : location) (v : Q) : Prop :=
  match l with
  | loc_Exact => v == valueOf m e
  | loc_Inexact Lt => valueOf m e < v /\ v < valueOf m e + (1 # 2) * 2 ^ e
  | loc_Inexact Eq => v == valueOf m e + (1 # 2) * 2 ^ e
  | loc_Inexact Gt => valueOf m e + (1 # 2) * 2 ^ e < v /\ v < valueOf m e + 2 ^ e
  end.

End F64.

(* ------------------------------------------------------------------ *)
(** ** Source Trust Registry and Source Scorer (back end) *)

Module Scorer.

Inductive Tier : Type := Tier1 | Tier2 | Tier3.

(** Modelled from the spec: the registry's [trustScore] table of
    [backend/core/sources.py], which is not among the sources; the README
    gives it as Tier 1 = 1.0, Tier 2 = 0.7, Tier 3 = 0.5, Unknown = 0.2. *)
Definition trustScoreOf (t : option Tier) : Q :=
  match t with
  | Some Tier1 => 1
  | Some Tier2 => 7 # 10
  | Some Tier3 => 5 # 10
  | None => 2 # 10
  end.

Definition SECONDS_PER_DAY : Z := 86400.

(** Modelled from the spec: the recency table of the scorer in
    [backend/core/sources.py] (absent); age is [now - publishedDate],
    both in seconds; an unknown date scores 0.2. *)
Definition recencyScoreOf (now : Z) (publishedDate : option Z) : Q :=
  match publishedDate with
  | None => 2 # 10
  | Some d =>
      let age := (now - d)%Z in
      if (age <=? 1 * SECONDS_PER_DAY)%Z then 1
      else if (age <=? 7 * SECONDS_PER_DAY)%Z then 8 # 10
      else if (age <=? 30 * SECONDS_PER_DAY)%Z then 6 # 10
      else if (age <=? 365 * SECONDS_PER_DAY)%Z then 4 # 10
      else 2 # 10
  end.

Definition clamp01 (x : Q) : Q := Qmax 0 (Qmin 1 x).

Record RawResult : Type := {
  title : string;
  url : string;
  snippet : string;
  searchRelevance : Q;
  publishedDate : option Z
}.

Record ScoredSource : Type := {
  raw : RawResult;
  domain : string;
  tier : option Tier;
  trustScore : Q;
  relevance : Q;
  recencyScore : Q;
  compositeScore : Q;
  isTrusted : bool
}.

Definition W_TRUST : Q := 4 # 10.
Definition W_RELEVANCE : Q := 4 # 10.
Definition W_RECENCY : Q := 2 # 10.

Definition weightedSum (t r c : Q) : Q :=
  W_TRUST * t + W_RELEVANCE * r + W_RECENCY * c.

Section Score.

(** The registry's domain table and the extraction of the host from a URL
    live in [backend/core/sources.py]; they are parameters here. *)
Variable tierOf : string -> option Tier.
Variable hostOf : string -> string.

(** Modelled from the spec: [score(raw, now)] of the Source Scorer
    ([backend/core/sources.py], absent): trust from the tier of the URL's
    host, recency from the age table, each factor clamped to [0,1], and
    the composite as the fixed 0.4/0.4/0.2 weighted sum. *)
Definition score (r : RawResult) (now : Z) : ScoredSource :=
  let d := hostOf (url r) in
  let t := tierOf d in
  let ts := clamp01 (trustScoreOf t) in
  let rel := clamp01 (searchRelevance r) in
  let rec := clamp01 (recencyScoreOf now (publishedDate r)) in
  {| raw := r;
     domain := d;
     tier := t;
     trustScore := ts;
     relevance := rel;
     recencyScore := rec;
     compositeScore := weightedSum ts rel rec;
     isTrusted := match t with Some _ => true | None => false end |}.

End Score.

End Scorer.

(* ------------------------------------------------------------------ *)
(** ** Confidence Estimator (back end) *)

Module Confidence.

Import Scorer.

Definition sumQ (l : list Q) : Q := fold_right Qplus 0 l.

Definition lengthQ {A} (l : list A) : Q := inject_Z (Z.of_nat (List.length l)).

(** Mean of a list; the empty list has mean 0. *)
Definition mean (l : list Q) : Q :=
  match l with
  | [] => 0
  | _ :: _ => sumQ l / lengthQ l
  end.

Definition trustedFraction (sources : list ScoredSource) : Q :=
  mean (map (fun s => if isTrusted s then 1 else 0) sources).

Definition ZERO_SOURCE_CEILING : Q := 20.

(** The 50/30/20 blend, each sub-term scaled to [0,100]. *)
Definition blend (sources : list ScoredSource) (extractionCoverage : Q) : Q :=
  (5 # 10) * (100 * mean (map compositeScore sources))
  + (3 # 10) * (100 * trustedFraction sources)
  + (2 # 10) * (100 * clamp01 extractionCoverage).

(** Modelled from the spec: [estimate(sources, extractionCoverage)] of the
    Confidence Estimator ([backend/core/pipeline.py], absent): the blend
    above, capped at the fixed ceiling 20 when there is no source. *)
Definition estimate (sources : list ScoredSource) (extractionCoverage : Q) : Q :=
  match sources with
  | [] => Qmin ZERO_SOURCE_CEILING (blend sources extractionCoverage)
  | _ :: _ => blend sources extractionCoverage
  end.

End Confidence.

(* ------------------------------------------------------------------ *)
(** ** SearchBar (components/SearchBar.tsx) *)

Module SearchBar.

Import Js.

(** Code units removed by [String.prototype.trim]: the WhiteSpace and
    LineTerminator productions of ECMAScript. *)
Definition isWhiteSpace (c : N) : bool :=
  ((9 <=? c) && (c <=? 13) || (c =? 32) || (c =? 160) || (c =? 5760)
   || (8192 <=? c) && (c <=? 8202) || (c =? 8232) || (c =? 8233)
   || (c =? 8239) || (c =? 8287) || (c =? 12288) || (c =? 65279))%N.

Fixpoint trimStart (s : jsstring) : jsstring :=
  match s with
  | [] => []
  | c :: r => if isWhiteSpace c then trimStart r else s
  end.

Definition trimEnd (s : jsstring) : jsstring := rev (trimStart (rev s)).

Definition trim (s : jsstring) : jsstring := trimEnd (trimStart s).

Section HandleSubmit.

(** The [onSearch] prop acts on whatever lies behind it (the page passes
    [useSearch().search]); [W] is that world. *)
Variable W : Type.
Variable onSearch : jsstring -> W -> W.

(** [handleSubmit]: [query] is the controlled input's state, [isLoading]
    the prop.  ([e.preventDefault()] only stops the browser's own form
    submission.) *)
Definition handleSubmit (query : jsstring) (isLoading : bool) (w : W) : W :=
  let trimmed := trim query in
  if truthy trimmed && negb isLoading then onSearch trimmed w else w.

End HandleSubmit.

(** The calls made to [onSearch] by one submission, in order. *)
Definition onSearchCalls (query : jsstring) (isLoading : bool) : list jsstring :=
  handleSubmit (list jsstring) (fun q log => log ++ [q]) query isLoading [].

End SearchBar.

(* ------------------------------------------------------------------ *)
(** ** useSearch (hooks/useSearch.ts) *)

Module UseSearch.

Import Js.

Inductive TrustLevel : Type := verified | unverified.

Record SourceResult : Type := {
  title : jsstring;
  url : jsstring;
  content : jsstring;
  score : Q;
  domain : jsstring;
  is_trusted : bool;
  trust_level : TrustLevel;
  recency_score : Q;
  composite_score : Q;
  published_date : option jsstring
}.

Inductive Direction : Type := up | down | flat | unknown.

Record KPIValue : Type := {
  kpi_label : jsstring;
  kpi_value : option jsstring;
  direction : Direction;
  detail : option jsstring
}.

(** Each KPI is optional and nullable; both read as [None]. *)
Record MarketKPIs : Type := {
  median_price : option KPIValue;
  price_per_sqft : option KPIValue;
  active_listings : option KPIValue;
  days_on_market : option KPIValue;
  sale_to_list_ratio : option KPIValue;
  inventory_change : option KPIValue;
  yoy_price_change : option KPIValue;
  median_rent : option KPIValue
}.

Record TrendMetric : Type := {
  trend_label : jsstring;
  current : option Q;
  previous : option Q;
  unit : jsstring;
  change_pct : option Q
}.

Record CompListing : Type := {
  address : option jsstring;
  price : option jsstring;
  sqft : option jsstring;
  beds : option jsstring;
  baths : option jsstring;
  comp_status : option jsstring;
  source_url : option jsstring
}.

(** [error] is declared [string | null]; the branch of [search] for a
    response that is not OK stores a property of the untyped body
    there, so the field holds any parsed value, [None] for [null]. *)
Record SearchState : Type := {
  isLoading : bool;
  answer : jsstring;
  sources : list SourceResult;
  confidenceScore : option Q;
  error : option json;
  isDomainReject : bool;
  rejectReason : jsstring;
  status : jsstring;
  plan : json;
  kpis : option MarketKPIs;
  trends : list TrendMetric;
  comps : list CompListing;
  needsClarification : bool;
  clarificationQuestion : option jsstring;
  originalQuery : option jsstring
}.

Definition INITIAL_STATE : SearchState := {|
  isLoading := false;
  answer := [];
  sources := [];
  confidenceScore := None;
  error := None;
  isDomainReject := false;
  rejectReason := [];
  status := [];
  plan := JNull;
  kpis := None;
  trends := [];
  comps := [];
  needsClarification := false;
  clarificationQuestion := None;
  originalQuery := None
|}.

(** Object spread with one overridden property, [{ ...prev, f: v }]. *)
Definition set_isLoading (v : bool) (p : SearchState) : SearchState :=
  {| isLoading := v; answer := answer p; sources := sources p;
     confidenceScore := confidenceScore p; error := error p;
     isDomainReject := isDomainReject p; rejectReason := rejectReason p;
     status := status p; plan := plan p; kpis := kpis p; trends := trends p;
     comps := comps p; needsClarification := needsClarification p;
     clarificationQuestion := clarificationQuestion p;
     originalQuery := originalQuery p |}.

Definition set_answer (v : jsstring) (p : SearchState) : SearchState :=
  {| isLoading := isLoading p; answer := v; sources := sources p;
     confidenceScore := confidenceScore p; error := error p;
     isDomainReject := isDomainReject p; rejectReason := rejectReason p;
     status := status p; plan := plan p; kpis := kpis p; trends := trends p;
     comps := comps p; needsClarification := needsClarification p;
     clarificationQuestion := clarificationQuestion p;
     originalQuery := originalQuery p |}.

Definition set_sources (v : list SourceResult) (p : SearchState) : SearchState :=
  {| isLoading := isLoading p; answer := answer p; sources := v;
     confidenceScore := confidenceScore p; error := error p;
     isDomainReject := isDomainReject p; rejectReason := rejectReason p;
     status := status p; plan := plan p; kpis := kpis p; trends := trends p;
     comps := comps p; needsClarification := needsClarification p;
     clarificationQuestion := clarificationQuestion p;
     originalQuery := originalQuery p |}.

Definition set_confidenceScore (v : option Q) (p : SearchState) : SearchState :=
  {| isLoading := isLoading p; answer := answer p; sources := sources p;
     confidenceScore := v; error := error p;
     isDomainReject := isDomainReject p; rejectReason := rejectReason p;
     status := status p; plan := plan p; kpis := kpis p; trends := trends p;
     comps := comps p; needsClarification := needsClarification p;
     clarificationQuestion := clarificationQuestion p;
     originalQuery := originalQuery p |}.

Definition set_error (v : option json) (p : SearchState) : SearchState :=
  {| isLoading := isLoading p; answer := answer p; sources := sources p;
     confidenceScore := confidenceScore p; error := v;
     isDomainReject := isDomainReject p; rejectReason := rejectReason p;
     status := status p; plan := plan p; kpis := kpis p; trends := trends p;
     comps := comps p; needsClarification := needsClarification p;
     clarificationQuestion := clarificationQuestion p;
     originalQuery := originalQuery p |}.

Definition set_isDomainReject (v : bool) (p : SearchState) : SearchState :=
  {| isLoading := isLoading p; answer := answer p; sources := sources p;
     confidenceScore := confidenceScore p; error := error p;
     isDomainReject := v; rejectReason := rejectReason p;
     status := status p; plan := plan p; kpis := kpis p; trends := trends p;
     comps := comps p; needsClarification := needsClarification p;
     clarificationQuestion := clarificationQuestion p;
     originalQuery := originalQuery p |}.

Definition set_rejectReason (v : jsstring) (p : SearchState) : SearchState :=
  {| isLoading := isLoading p; answer := answer p; sources := sources p;
     confidenceScore := confidenceScore p; error := error p;
     isDomainReject := isDomainReject p; rejectReason := v;
     status := status p; plan := plan p; kpis := kpis p; trends := trends p;
     comps := comps p; needsClarification := needsClarification p;
     clarificationQuestion := clarificationQuestion p;
     originalQuery := originalQuery p |}.

Definition set_status (v : jsstring) (p : SearchState) : SearchState :=
  {| isLoading := isLoading p; answer := answer p; sources := sources p;
     confidenceScore := confidenceScore p; error := error p;
     isDomainReject := isDomainReject p; rejectReason := rejectReason p;
     status := v; plan := plan p; kpis := kpis p; trends := trends p;
     comps := comps p; needsClarification := needsClarification p;
     clarificationQuestion := clarificationQuestion p;
     originalQuery := originalQuery p |}.

Definition set_plan (v : json) (p : SearchState) : SearchState :=
  {| isLoading := isLoading p; answer := answer p; sources := sources p;
     confidenceScore := confidenceScore p; error := error p;
     isDomainReject := isDomainReject p; rejectReason := rejectReason p;
     status := status p; plan := v; kpis := kpis p; trends := trends p;
     comps := comps p; needsClarification := needsClarification p;
     clarificationQuestion := clarificationQuestion p;
     originalQuery := originalQuery p |}.

Definition set_kpis (v : option MarketKPIs) (p : SearchState) : SearchState :=
  {| isLoading := isLoading p; answer := answer p; sources := sources p;
     confidenceScore := confidenceScore p; error := error p;
     isDomainReject := isDomainReject p; rejectReason := rejectReason p;
     status := status p; plan := plan p; kpis := v; trends := trends p;
     comps := comps p; needsClarification := needsClarification p;
     clarificationQuestion := clarificationQuestion p;
     originalQuery := originalQuery p |}.

Definition set_trends (v : list TrendMetric) (p : SearchState) : SearchState :=
  {| isLoading := isLoading p; answer := answer p; sources := sources p;
     confidenceScore := confidenceScore p; error := error p;
     isDomainReject := isDomainReject p; rejectReason := rejectReason p;
     status := status p; plan := plan p; kpis := kpis p; trends := v;
     comps := comps p; needsClarification := needsClarification p;
     clarificationQuestion := clarificationQuestion p;
     originalQuery := originalQuery p |}.

Definition set_comps (v : list CompListing) (p : SearchState) : SearchState :=
  {| isLoading := isLoading p; answer := answer p; sources := sources p;
     confidenceScore := confidenceScore p; error := error p;
     isDomainReject := isDomainReject p; rejectReason := rejectReason p;
     status := status p; plan := plan p; kpis := kpis p; trends := trends p;
     comps := v; needsClarification := needsClarification p;
     clarificationQuestion := clarificationQuestion p;
     originalQuery := originalQuery p |}.

(** [{ ...prev, needsClarification, clarificationQuestion, originalQuery }]. *)
Definition set_clarification (n : bool) (q o : option jsstring)
  (p : SearchState) : SearchState :=
  {| isLoading := isLoading p; answer := answer p; sources := sources p;
     confidenceScore := confidenceScore p; error := error p;
     isDomainReject := isDomainReject p; rejectReason := rejectReason p;
     status := status p; plan := plan p; kpis := kpis p; trends := trends p;
     comps := comps p; needsClarification := n;
     clarificationQuestion := q; originalQuery := o |}.

(** The events of the stream, with the payload type each [case] asserts
    ([parsed as ...]).  [EvOther] is an event type without a [case]. *)
Inductive SSEEvent : Type :=
| EvStatus (text : jsstring)
| EvPlan (p : json)
| EvAnswerDelta (chunk : jsstring)
| EvSources (l : list SourceResult)
| EvConfidence (n : Q)
| EvKpis (k : MarketKPIs)
| EvTrends (l : list TrendMetric)
| EvComps (l : list CompListing)
| EvClarificationNeeded (question original_query : jsstring)
| EvDomainReject (reason : jsstring)
| EvError (message : jsstring)
| EvOther (eventType : jsstring) (parsed : json).

(** The [switch (eventType)] of [search]: the updater handed to
    [setState] for one event. *)
Definition applyEvent (ev : SSEEvent) (prev : SearchState) : SearchState :=
  match ev with
  | EvStatus text => set_status text prev
  | EvPlan p => set_plan p prev
  | EvAnswerDelta chunk => set_status [] (set_answer (answer prev ++ chunk) prev)
  | EvSources l => set_sources l prev
  | EvConfidence n => set_confidenceScore (Some n) prev
  | EvKpis k => set_kpis (Some k) prev
  | EvTrends l => set_trends l prev
  | EvComps l => set_comps l prev
  | EvClarificationNeeded question original_query =>
      set_isLoading false
        (set_clarification true (Some question) (Some original_query) prev)
  | EvDomainReject reason => set_rejectReason reason (set_isDomainReject true prev)
  | EvError message => set_error (Some (JStr message)) prev
  | EvOther _ _ => prev
  end.

Definition applyEvents (evs : list SSEEvent) (s : SearchState) : SearchState :=
  fold_left (fun acc ev => applyEvent ev acc) evs s.

(** What a rejected [await] throws. *)
Inductive Thrown : Type :=
| AbortError
| ErrorObject (message : jsstring)
| NotAnError.

(** The [catch] block. *)
Definition catchBlock (err : Thrown) (prev : SearchState) : SearchState :=
  match err with
  | AbortError => prev
  | ErrorObject message => set_error (Some (JStr message)) prev
  | NotAnError => set_error (Some (JStr (lit "An unexpected error occurred"))) prev
  end.

(** The [finally] block. *)
Definition finallyBlock (prev : SearchState) : SearchState :=
  set_isLoading false prev.

(** The state [search] installs before it fetches. *)
Definition resetState : SearchState :=
  set_status (lit "Starting search...") (set_isLoading true INITIAL_STATE).

(** The hook: the React state, [abortRef.current], the
    [AbortController]s created so far, each with its [aborted] flag, so
    that [abortRef] and the [controller] captured by a running [search]
    name the same object, and the queries POSTed to [/api/search] so
    far. *)
Record Hook : Type := {
  state : SearchState;
  abortRef : option nat;
  controllers : list bool;
  requests : list jsstring
}.

Definition initialHook : Hook :=
  {| state := INITIAL_STATE; abortRef := None; controllers := [];
     requests := [] |}.

(** [abortRef.current], when set, is one of the controllers created. *)
Definition wellFormed (h : Hook) : Prop :=
  match abortRef h with
  | Some c => (c < List.length (controllers h))%nat
  | None => True
  end.

Fixpoint abort (c : nat) (cs : list bool) {struct cs} : list bool :=
  match cs, c with
  | [], _ => []
  | _ :: r, O => true :: r
  | b :: r, S c' => b :: abort c' r
  end.

Definition abortCurrent (h : Hook) : list bool :=
  match abortRef h with
  | Some c => abort c (controllers h)
  | None => controllers h
  end.

Definition isAborted (c : nat) (h : Hook) : bool := nth c (controllers h) false.

Definition setState (f : SearchState -> SearchState) (h : Hook) : Hook :=
  {| state := f (state h); abortRef := abortRef h;
     controllers := controllers h; requests := requests h |}.

(** [search], up to the first [await]: abort the request in flight, make
    the new controller current, reset the state, call [fetch]. *)
Definition searchBegin (query : jsstring) (h : Hook) : Hook :=
  let cs := abortCurrent h in
  {| state := resetState;
     abortRef := Some (List.length cs);
     controllers := cs ++ [false];
     requests := requests h ++ [query] |}.

(** [cancel]. *)
Definition cancel (h : Hook) : Hook :=
  {| state := set_isLoading false (state h);
     abortRef := None;
     controllers := abortCurrent h;
     requests := requests h |}.

(** One event of the stream reaches the [switch]. *)
Definition deliver (ev : SSEEvent) (h : Hook) : Hook := setState (applyEvent ev) h.

Definition deliverAll (evs : list SSEEvent) (h : Hook) : Hook :=
  fold_left (fun acc ev => deliver ev acc) evs h.

(** The end of the [try]: the reader reports [done] ([None]) or an
    [await] rejects; then [finally]. *)
Definition settle (ending : option Thrown) (h : Hook) : Hook :=
  match ending with
  | None => setState finallyBlock h
  | Some err => setState finallyBlock (setState (catchBlock err) h)
  end.

Definition decimal (n : N) : jsstring := lit (NilEmpty.string_of_uint (N.to_uint n)).

(** How [response.json()] ends on a response that is not OK: it
    resolves with the parsed body, or it rejects, the body not being
    JSON or the request being aborted while the body is read. *)
Inductive BodyRead : Type :=
| JsonResolves (body : json)
| JsonRejects (reason : Thrown).

(** [await response.json().catch(() => ({ detail: "Request failed" }))]:
    whatever the rejection, the [AbortError] included, the fallback
    object takes the place of the body. *)
Definition errOf (read : BodyRead) : json :=
  match read with
  | JsonResolves body => body
  | JsonRejects _ => JObj [(lit "detail", JStr (lit "Request failed"))]
  end.

(** [err.detail || `Error: ${response.status}`], evaluated inside the
    updater.  Reading a property of [null] throws a TypeError ([None]);
    a value without the property gives [undefined], which is falsy; a
    truthy [detail] is kept as it is, whatever its type. *)
Definition errorOf (httpStatus : N) (err : json) : option json :=
  match err with
  | JNull => None
  | _ =>
      match get (lit "detail") err with
      | Some d =>
          if truthyValue d then Some d
          else Some (JStr (lit "Error: " ++ decimal httpStatus))
      | None => Some (JStr (lit "Error: " ++ decimal httpStatus))
      end
  end.

(** What the request comes to. *)
Inductive Outcome : Type :=
| FetchRejects (err : Thrown)
| NotOk (httpStatus : N) (read : BodyRead)
| NoBody
| Streamed (events : list SSEEvent) (ending : option Thrown).

(** [search] after the reset: the rest of the [try] with its [catch] and
    [finally].  React runs an updater while it renders: an updater that
    throws makes the render fail, so that neither its update nor the one
    [finally] queues behind it is applied, and the component tree is
    unmounted; the state is then left as the last render had it. *)
Definition searchRest (o : Outcome) (h : Hook) : Hook :=
  match o with
  | FetchRejects err => settle (Some err) h
  | NotOk httpStatus read =>
      match errorOf httpStatus (errOf read) with
      | Some e =>
          settle None
            (setState (fun prev => set_error (Some e) (set_isLoading false prev)) h)
      | None => h
      end
  | NoBody =>
      settle None
        (setState (fun prev => set_error (Some (JStr (lit "No response stream")))
                                 (set_isLoading false prev)) h)
  | Streamed events ending => settle ending (deliverAll events h)
  end.

(** The render after the request throws: the updater of the branch for
    a response that is not OK reads a property of [null]. *)
Definition renderThrows (o : Outcome) : bool :=
  match o with
  | NotOk httpStatus read =>
      match errorOf httpStatus (errOf read) with
      | Some _ => false
      | None => true
      end
  | _ => false
  end.

(** A whole call of [search] that nothing interleaves with; [o] is what
    the request comes to. *)
Definition search (query : jsstring) (o : Outcome) (h : Hook) : Hook :=
  searchRest o (searchBegin query h).

(** [clarify]. *)
Definition clarify (answer : jsstring) (o : Outcome) (h : Hook) : Hook :=
  search answer o (setState (set_clarification false None None) h).

(** The payloads of the [answer_delta] events of a stream, in order. *)
Fixpoint answerDeltas (evs : list SSEEvent) : list jsstring :=
  match evs with
  | [] => []
  | EvAnswerDelta chunk :: r => chunk :: answerDeltas r
  | _ :: r => answerDeltas r
  end.

(** The fields of the search state. *)
Inductive Field : Type :=
| F_isLoading | F_answer | F_sources | F_confidenceScore | F_error
| F_isDomainReject | F_rejectReason | F_status | F_plan | F_kpis | F_trends
| F_comps | F_needsClarification | F_clarificationQuestion | F_originalQuery.

(** Two states agree on a field. *)
Definition sameField (f : Field) (a b : SearchState) : Prop :=
  match f with
  | F_isLoading => isLoading a = isLoading b
  | F_answer => answer a = answer b
  | F_sources => sources a = sources b
  | F_confidenceScore => confidenceScore a = confidenceScore b
  | F_error => error a = error b
  | F_isDomainReject => isDomainReject a = isDomainReject b
  | F_rejectReason => rejectReason a = rejectReason b
  | F_status => status a = status b
  | F_plan => plan a = plan b
  | F_kpis => kpis a = kpis b
  | F_trends => trends a = trends b
  | F_comps => comps a = comps b
  | F_needsClarification => needsClarification a = needsClarification b
  | F_clarificationQuestion => clarificationQuestion a = clarificationQuestion b
  | F_originalQuery => originalQuery a = originalQuery b
  end.

(** The field named by a data event, and that the state holds its
    payload there. *)
Definition dataField (ev : SSEEvent) : option Field :=
  match ev with
  | EvSources _ => Some F_sources
  | EvConfidence _ => Some F_confidenceScore
  | EvKpis _ => Some F_kpis
  | EvTrends _ => Some F_trends
  | EvComps _ => Some F_comps
  | EvPlan _ => Some F_plan
  | _ => None
  end.

Definition holdsPayload (ev : SSEEvent) (s : SearchState) : Prop :=
  match ev with
  | EvSources l => sources s = l
  | EvConfidence n => confidenceScore s = Some n
  | EvKpis k => kpis s = Some k
  | EvTrends l => trends s = l
  | EvComps l => comps s = l
  | EvPlan p => plan s = p
  | _ => True
  end.

(** The result fields a new search starts from. *)
Definition resultsCleared (s : SearchState) : Prop :=
  answer s = [] /\ sources s = [] /\ confidenceScore s = None /\
  error s = None /\ kpis s = None /\ trends s = [] /\ comps s = [] /\
  plan s = JNull /\ isDomainReject s = false /\ rejectReason s = [].

End UseSearch.

(* ------------------------------------------------------------------ *)
(** ** ConfidenceBadge (components/ConfidenceBadge.tsx) *)

Module ConfidenceBadge.

Import Js.

(** [Math.round] on a finite number: the nearest integer, halves going
    up. *)
Definition round (x : Q) : Z := Qfloor (x + (1 # 2)).

(** [clsx] applied to an object: the keys whose value is truthy, in
    order, separated by spaces. *)
Fixpoint clsx (entries : list (jsstring * bool)) : jsstring :=
  match entries with
  | [] => []
  | (k, true) :: r =>
      match clsx r with
      | [] => k
      | rest => k ++ lit " " ++ rest
      end
  | (_, false) :: r => clsx r
  end.

Definition GREEN : jsstring :=
  lit "bg-green-100 text-green-800 dark:bg-green-900 dark:text-green-200".
Definition YELLOW : jsstring :=
  lit "bg-yellow-100 text-yellow-800 dark:bg-yellow-900 dark:text-yellow-200".
Definition RED : jsstring :=
  lit "bg-red-100 text-red-800 dark:bg-red-900 dark:text-red-200".

Definition colorClass (rounded : Z) : jsstring :=
  clsx [ (GREEN, (70 <=? rounded)%Z);
         (YELLOW, (40 <=? rounded)%Z && (rounded <? 70)%Z);
         (RED, (rounded <? 40)%Z) ].

Definition label (rounded : Z) : jsstring :=
  if (70 <=? rounded)%Z then lit "High"
  else if (40 <=? rounded)%Z then lit "Medium"
  else lit "Low".

(** What the badge shows: [{rounded}/100], the label, and the colour. *)
Record Badge : Type := {
  shown : Z;
  outOf : Z;
  shownLabel : jsstring;
  shownClass : jsstring
}.

Definition ConfidenceBadge (score : Q) : Badge :=
  let rounded := round score in
  {| shown := rounded;
     outOf := 100;
     shownLabel := label rounded;
     shownClass := colorClass rounded |}.

End ConfidenceBadge.

(* ------------------------------------------------------------------ *)
(** ** Home (app/page.tsx): the widgets to render *)

Module Page.

Import Js.

(** [handleSearch], the [onSearch] the page hands to the search bar;
    [net] is what the request for a query comes to. *)
Definition handleSearch (net : jsstring -> UseSearch.Outcome)
  (query : jsstring) (h : UseSearch.Hook) : UseSearch.Hook :=
  UseSearch.search query (net query) h.

Definition allowedWidgets : list jsstring :=
  [ lit "market_snapshot"; lit "trend_chart"; lit "scenario_explorer";
    lit "comps_table"; lit "distribution"; lit "map_view" ].

(** [allowedWidgets.includes(w)]: SameValueZero against six strings, so
    only a string can match. *)
Definition includes (l : list jsstring) (w : json) : bool :=
  match w with
  | JStr s => existsb (jsstring_eqb s) l
  | _ => false
  end.

(** A value of the allow-list: one of the six names, as a string. *)
Definition allowedWidget (w : json) : Prop :=
  exists name, w = JStr name /\ In name allowedWidgets.

(** The value of an expression, or the [TypeError] it throws. *)
Inductive Completion (A : Type) : Type :=
| Returns (a : A)
| ThrowsTypeError.
Arguments Returns {A} a.
Arguments ThrowsTypeError {A}.

(** [plan?.widgets]: [None] is [undefined]. *)
Definition planWidgets (plan : json) : option json :=
  match plan with
  | JNull => None
  | _ => get (lit "widgets") plan
  end.

(** [(plan?.widgets ?? []).filter(w => allowedWidgets.includes(w))];
    only an array has a [filter] to call. *)
Definition widgetsToRender (plan : json) : Completion (list json) :=
  let widgets :=
    match planWidgets plan with
    | None | Some JNull => JArr []
    | Some v => v
    end in
  match widgets with
  | JArr items => Returns (filter (includes allowedWidgets) items)
  | _ => ThrowsTypeError
  end.

End Page.

(* ------------------------------------------------------------------ *)
(** ** ScenarioExplorer (components/ScenarioExplorer.tsx) *)

Module ScenarioExplorer.

Import F64.

Section MonthlyPayment.

(** [Math.pow], whose result the language leaves to the implementation
    (an approximation of the power), is a parameter. *)
Variable pow : f64 -> f64 -> f64.

Definition monthlyPayment (principal annualRatePct termYears : f64) : f64 :=
  let r := div (div annualRatePct (ofZ 100)) (ofZ 12) in
  let n := mul termYears (ofZ 12) in
  if strictEq r zero then div principal n
  else div (mul (mul principal r) (pow (add (ofZ 1) r) n))
           (sub (pow (add (ofZ 1) r) n) (ofZ 1)).

End MonthlyPayment.

End ScenarioExplorer.

(* ------------------------------------------------------------------ *)
(** ** The stream reader of useSearch (hooks/useSearch.ts) *)

Module Sse.

Import Js.

(** [buffer.replace(/\r\n/g, "\n")]. *)
Fixpoint replaceCRLF (s : jsstring) : jsstring :=
  match s with
  | [] => []
  | c :: r =>
      match r with
      | d :: r' =>
          if ((c =? 13) && (d =? 10))%N then 10%N :: replaceCRLF r'
          else c :: replaceCRLF r
      | [] => [c]
      end
  end.

(** Put a code unit in front of the first part. *)
Definition consHead (c : N) (parts : list jsstring) : list jsstring :=
  match parts with
  | p :: ps => (c :: p) :: ps
  | [] => [[c]]
  end.

(** [s.split("\n\n")]: the parts between the successive occurrences of
    a blank line, found from the left. *)
Fixpoint splitBlank (s : jsstring) : list jsstring :=
  match s with
  | [] => [[]]
  | c :: r =>
      match r with
      | d :: r' =>
          if ((c =? 10) && (d =? 10))%N then [] :: splitBlank r'
          else consHead c (splitBlank r)
      | [] => [[c]]
      end
  end.

(** [s.split("\n")]. *)
Fixpoint splitLines (s : jsstring) : list jsstring :=
  match s with
  | [] => [[]]
  | c :: r =>
      if (c =? 10)%N then [] :: splitLines r else consHead c (splitLines r)
  end.

(** [line.startsWith(prefix)]. *)
Fixpoint startsWith (prefix line : jsstring) : bool :=
  match prefix, line with
  | [], _ => true
  | _ :: _, [] => false
  | a :: p, b :: l => (a =? b)%N && startsWith p l
  end.

(** [lines.join("\n")]. *)
Fixpoint joinLines (lines : list jsstring) : jsstring :=
  match lines with
  | [] => []
  | [l] => l
  | l :: rest => l ++ 10%N :: joinLines rest
  end.

(** The body of the loop over the lines of a part: the running
    [eventType] and [dataLines]. *)
Definition parseLine (acc : jsstring * list jsstring) (line : jsstring)
  : jsstring * list jsstring :=
  let (eventType, dataLines) := acc in
  if startsWith (lit "event:") line
  then (SearchBar.trim (skipn 6 line), dataLines)
  else if startsWith (lit "data:") line
  then (eventType, dataLines ++ [SearchBar.trim (skipn 5 line)])
  else acc.

(** One part of the buffer: the event type and the JSON text handed to
    [JSON.parse], or [None] where the loop [continue]s before parsing. *)
Definition parseFrame (part : jsstring) : option (jsstring * jsstring) :=
  if negb (truthy (SearchBar.trim part)) then None
  else
    let (eventType, dataLines) := fold_left parseLine (splitLines part) ([], []) in
    let eventData := joinLines dataLines in
    if negb (truthy eventType) || negb (truthy eventData) then None
    else Some (eventType, eventData).

Fixpoint framesOf (parts : list jsstring) : list (jsstring * jsstring) :=
  match parts with
  | [] => []
  | p :: rest =>
      match parseFrame p with
      | Some f => f :: framesOf rest
      | None => framesOf rest
      end
  end.

(** One turn of the [while] loop for a chunk of decoded text: the new
    [buffer], and the frames that have reached [JSON.parse] so far. *)
Definition readChunk (st : jsstring * list (jsstring * jsstring))
  (chunk : jsstring) : jsstring * list (jsstring * jsstring) :=
  let (buffer, seen) := st in
  let parts := splitBlank (replaceCRLF (buffer ++ chunk)) in
  (last parts [], seen ++ framesOf (removelast parts)).

(** The whole loop, from the empty buffer to [done]. *)
Definition readAll (chunks : list jsstring)
  : jsstring * list (jsstring * jsstring) :=
  fold_left readChunk chunks ([], []).

(** No carriage return is doubled in front of a line feed. *)
Fixpoint noCRCRLF (s : jsstring) : bool :=
  match s with
  | [] => true
  | c :: r =>
      match r with
      | d :: e :: _ =>
          negb ((c =? 13) && (d =? 13) && (e =? 10))%N && noCRCRLF r
      | _ => true
      end
  end.

(** No carriage return stands in front of a line feed. *)
Fixpoint noCRLF (s : jsstring) : bool :=
  match s with
  | [] => true
  | c :: r =>
      match r with
      | d :: _ => negb ((c =? 13) && (d =? 10))%N && noCRLF r
      | [] => true
      end
  end.

(** The format the reader is written for, ["event: <type>\ndata: <json>"]
    and a blank line, with [eol] as the line ending. *)
Definition frameBody (eol : jsstring) (f : jsstring * jsstring) : jsstring :=
  lit "event: " ++ fst f ++ eol ++ lit "data: " ++ snd f.

Definition encodeFrame (eol : jsstring) (f : jsstring * jsstring) : jsstring :=
  frameBody eol f ++ eol ++ eol.

Definition encodeStream (eol : jsstring) (fs : list (jsstring * jsstring))
  : jsstring :=
  List.concat (map (encodeFrame eol) fs).

(** The two line endings of an event stream. *)
Definition lineEnding (eol : jsstring) : Prop :=
  eol = [10%N] \/ eol = [13%N; 10%N].

(** A field that survives the reader unchanged: not empty, on one line,
    and without surrounding white space. *)
Definition plainField (s : jsstring) : Prop :=
  s <> [] /\ SearchBar.trim s = s /\
  forallb (fun c => negb (c =? 10)%N && negb (c =? 13)%N) s = true.

Definition plainFrame (f : jsstring * jsstring) : Prop :=
  plainField (fst f) /\ plainField (snd f).

(** A field written on one line: no line feed and no carriage return. *)
Definition oneLine (s : jsstring) : Prop :=
  forallb (fun c => negb (c =? 10)%N && negb (c =? 13)%N) s = true.

Definition oneLineFrame (f : jsstring * jsstring) : Prop :=
  oneLine (fst f) /\ oneLine (snd f).

(** What is expected of the reader for a frame of one-line fields: both
    fields trimmed, and nothing when a trimmed field is empty. *)
Definition readBack (f : jsstring * jsstring) : option (jsstring * jsstring) :=
  let eventType := SearchBar.trim (fst f) in
  let eventData := SearchBar.trim (snd f) in
  if truthy eventType && truthy eventData then Some (eventType, eventData)
  else None.

Fixpoint readBackAll (fs : list (jsstring * jsstring))
  : list (jsstring * jsstring) :=
  match fs with
  | [] => []
  | f :: rest =>
      match readBack f with
      | Some g => g :: readBackAll rest
      | None => readBackAll rest
      end
  end.

End Sse.

(* ------------------------------------------------------------------ *)
(** ** The form of SearchBar (in components/DomainReject.tsx) *)

Module SearchForm.

Import Js.

(** [disabled={isLoading}] of the input. *)
Definition inputDisabled (isLoading : bool) : bool := isLoading.

(** [disabled={isLoading || !query.trim()}] of the submit button. *)
Definition buttonDisabled (query : jsstring) (isLoading : bool) : bool :=
  isLoading || negb (truthy (SearchBar.trim query)).

End SearchForm.

(* ------------------------------------------------------------------ *)
(** ** ClarificationPrompt (components/ClarificationPrompt.tsx) *)

Module ClarificationPrompt.

Import Js.

Section HandleSubmit.

Variable W : Type.
Variable onSubmit : jsstring -> W -> W.

(** [handleSubmit]; [answer] is the input's state. *)
Definition handleSubmit (answer : jsstring) (w : W) : W :=
  if truthy (SearchBar.trim answer) then onSubmit (SearchBar.trim answer) w
  else w.

End HandleSubmit.

(** The calls made to [onSubmit] by one submission. *)
Definition onSubmitCalls (answer : jsstring) : list jsstring :=
  handleSubmit (list jsstring) (fun a log => log ++ [a]) answer [].

(** [disabled={!answer.trim()}] of the button. *)
Definition buttonDisabled (answer : jsstring) : bool :=
  negb (truthy (SearchBar.trim answer)).

End ClarificationPrompt.

(* ------------------------------------------------------------------ *)
(** ** LoadingState (in components/SourceList.tsx) *)

Module LoadingState.

Import Js.


End LoadingState.

(* ------------------------------------------------------------------ *)
(** ** AnswerCard (in components/WidgetPanel.tsx) *)

Module AnswerCard.

Import Js.

(** What the card shows: the answer text, the badge when there is a
    score, the blinking cursor while loading. *)
Record Card : Type := {
  text : jsstring;
  badge : option ConfidenceBadge.Badge;
  cursor : bool
}.

Definition AnswerCard (answer : jsstring) (confidenceScore : option Q)
  (isLoading : bool) : option Card :=
  if negb (truthy answer) && negb isLoading then None
  else Some {| text := answer;
               badge := option_map ConfidenceBadge.ConfidenceBadge confidenceScore;
               cursor := isLoading |}.

End AnswerCard.

(* ------------------------------------------------------------------ *)
(** ** Runs of the hook *)

Module HookRuns.

Import Js UseSearch.

(** What can happen to the hook, one at a time: a call of [search] up
    to its first [await], an event reaching the [switch], the end of a
    [try], a call of [cancel]. *)
Inductive Step : Type :=
| CallSearch (query : jsstring)
| Deliver (ev : SSEEvent)
| Settle (ending : option Thrown)
| CallCancel.

Definition step (h : Hook) (a : Step) : Hook :=
  match a with
  | CallSearch query => searchBegin query h
  | Deliver ev => deliver ev h
  | Settle ending => settle ending h
  | CallCancel => cancel h
  end.

Definition run (steps : list Step) : Hook := fold_left step steps initialHook.

(** The payload of the last [confidence] event of a stream. *)
Fixpoint lastConfidence (evs : list SSEEvent) : option Q :=
  match evs with
  | [] => None
  | ev :: r =>
      match lastConfidence r with
      | Some n => Some n
      | None => match ev with EvConfidence n => Some n | _ => None end
      end
  end.


Definition card (h : Hook) : option AnswerCard.Card :=
  AnswerCard.AnswerCard (answer (state h)) (confidenceScore (state h))
    (isLoading (state h)).

End HookRuns.

(* ------------------------------------------------------------------ *)
(** ** Kinds of outcome of a request *)

Module Outcomes.

Import Js UseSearch.


(** The events the [switch] has seen when the request is over. *)
Definition eventsOf (o : Outcome) : list SSEEvent :=
  match o with
  | Streamed events _ => events
  | _ => []
  end.

Definition isClarification (ev : SSEEvent) : bool :=
  match ev with
  | EvClarificationNeeded _ _ => true
  | _ => false
  end.

End Outcomes.

(* ------------------------------------------------------------------ *)
(** ** ScenarioExplorer: the tax rate and the cost figures
    (components/ScenarioExplorer.tsx) *)

Module ScenarioCalc.

Import Js F64.

(** Property tax, percent of the home value a year, by state code. *)
Definition STATE_TAX_RATES : list (jsstring * Q) :=
  [ (lit "AL", 41 # 100); (lit "AK", 119 # 100); (lit "AZ", 62 # 100);
    (lit "AR", 62 # 100); (lit "CA", 74 # 100); (lit "CO", 51 # 100);
    (lit "CT", 214 # 100); (lit "DE", 57 # 100); (lit "FL", 89 # 100);
    (lit "GA", 92 # 100); (lit "HI", 28 # 100); (lit "ID", 69 # 100);
    (lit "IL", 227 # 100); (lit "IN", 85 # 100); (lit "IA", 157 # 100);
    (lit "KS", 141 # 100); (lit "KY", 86 # 100); (lit "LA", 55 # 100);
    (lit "ME", 136 # 100); (lit "MD", 109 # 100); (lit "MA", 123 # 100);
    (lit "MI", 154 # 100); (lit "MN", 112 # 100); (lit "MS", 81 # 100);
    (lit "MO", 97 # 100); (lit "MT", 84 # 100); (lit "NE", 173 # 100);
    (lit "NV", 60 # 100); (lit "NH", 218 # 100); (lit "NJ", 249 # 100);
    (lit "NM", 80 # 100); (lit "NY", 172 # 100); (lit "NC", 84 # 100);
    (lit "ND", 98 # 100); (lit "OH", 156 # 100); (lit "OK", 90 # 100);
    (lit "OR", 97 # 100); (lit "PA", 136 # 100); (lit "RI", 163 # 100);
    (lit "SC", 57 # 100); (lit "SD", 131 # 100); (lit "TN", 71 # 100);
    (lit "TX", 180 # 100); (lit "UT", 63 # 100); (lit "VT", 190 # 100);
    (lit "VA", 82 # 100); (lit "WA", 98 # 100); (lit "WV", 58 # 100);
    (lit "WI", 185 # 100); (lit "WY", 61 # 100); (lit "DC", 56 # 100) ].

Definition US_MEDIAN_TAX_RATE : Q := 11 # 10.
Definition DEFAULT_INSURANCE_YEARLY : Q := 1200.
Definition PMI_RATE : Q := 7 # 1000.

(** [table[key]]: the value of the first entry with that key (the keys
    of the table are distinct), [None] for [undefined]. *)
Fixpoint lookup (key : jsstring) (table : list (jsstring * Q)) : option Q :=
  match table with
  | [] => None
  | (k, v) :: rest => if jsstring_eqb key k then Some v else lookup key rest
  end.

Section TaxRate.

(** [String.prototype.toUpperCase], which follows the Unicode case
    tables, is a parameter. *)
Variable toUpperCase : jsstring -> jsstring.

(** The [taxRate] memo; [state] is the prop, [None] for [null]. *)
Definition taxRate (state : option jsstring) : Q :=
  match state with
  | None => US_MEDIAN_TAX_RATE
  | Some s =>
      if negb (truthy s) then US_MEDIAN_TAX_RATE
      else
        let key := firstn 2 (toUpperCase (SearchBar.trim s)) in
        match lookup key STATE_TAX_RATES with
        | Some r => r
        | None => US_MEDIAN_TAX_RATE
        end
  end.

End TaxRate.

(** The inputs of the explorer: the state of its fields. *)
Record Inputs : Type := {
  homePrice : f64;
  rent : f64;
  downPct : f64;
  rate : f64;
  termYears : f64;
  insuranceYearly : f64;
  compareYears : f64
}.

Definition initialInputs : Inputs :=
  {| homePrice := ofZ 260000; rent := ofZ 1800; downPct := ofZ 20;
     rate := ofQ (65 # 10); termYears := ofZ 30;
     insuranceYearly := ofQ DEFAULT_INSURANCE_YEARLY;
     compareYears := ofZ 10 |}.

(** [a < b] and [a <= b] on exact numbers. *)
Definition Qltb (a b : Q) : bool :=
  match a ?= b with Lt => true | _ => false end.

Definition Qleb (a b : Q) : bool :=
  match a ?= b with Gt => false | _ => true end.

(** [breakevenMonths] is [None] for [null]. *)
Record Calc : Type := {
  downPayment : f64;
  loanAmount : f64;
  mortgagePnI : f64;
  monthlyTax : f64;
  monthlyInsurance : f64;
  needsPMI : bool;
  monthlyPMI : f64;
  totalMonthly : f64;
  rentTotal : f64;
  buyTotal : f64;
  breakevenMonths : option f64
}.

(** The body of the [calc] memo after the call of [monthlyPayment],
    whose result is [pni]; [taxRate] is the Number of the tax rate. *)
Definition calcWith (taxRate : f64) (i : Inputs) (pni : f64) : Calc :=
  let downPayment := div (mul (homePrice i) (downPct i)) (ofZ 100) in
  let loanAmount := max (sub (homePrice i) downPayment) zero in
  let monthlyTax := div (mul (homePrice i) (div taxRate (ofZ 100))) (ofZ 12) in
  let monthlyInsurance := div (insuranceYearly i) (ofZ 12) in
  let needsPMI := ltb (downPct i) (ofZ 20) in
  let monthlyPMI :=
    if needsPMI then div (mul loanAmount (ofQ PMI_RATE)) (ofZ 12)
    else zero in
  let totalMonthly := add (add (add pni monthlyTax) monthlyInsurance) monthlyPMI in
  let rentTotal := mul (mul (rent i) (ofZ 12)) (compareYears i) in
  let buyTotal := add downPayment (mul (mul totalMonthly (ofZ 12)) (compareYears i)) in
  let breakevenMonths :=
    let monthlyDiff := sub (rent i) totalMonthly in
    if leb monthlyDiff zero then None
    else Some (ceil (div downPayment monthlyDiff)) in
  {| downPayment := downPayment;
     loanAmount := loanAmount;
     mortgagePnI := pni;
     monthlyTax := monthlyTax;
     monthlyInsurance := monthlyInsurance;
     needsPMI := needsPMI;
     monthlyPMI := monthlyPMI;
     totalMonthly := totalMonthly;
     rentTotal := rentTotal;
     buyTotal := buyTotal;
     breakevenMonths := breakevenMonths |}.

(** The [calc] memo. *)
Definition calc (pow : f64 -> f64 -> f64) (taxRate : f64) (i : Inputs) : Calc :=
  let downPayment := div (mul (homePrice i) (downPct i)) (ofZ 100) in
  let loanAmount := max (sub (homePrice i) downPayment) zero in
  calcWith taxRate i
    (ScenarioExplorer.monthlyPayment pow loanAmount (rate i) (termYears i)).

(** The breakeven line: ["<x> years"] with the Number handed to
    [toFixed(1)], ["<m> months"], or ["Renting is cheaper"], which is
    also taken when the month count is falsy: zero or NaN. *)
Inductive BreakevenText : Type :=
| Years (years : f64)
| Months (months : f64)
| RentingIsCheaper.

Definition breakevenText (breakevenMonths : option f64) : BreakevenText :=
  match breakevenMonths with
  | None => RentingIsCheaper
  | Some m =>
      if truthyNumber m
      then if leb (ofZ 12) m then Years (div m (ofZ 12)) else Months m
      else RentingIsCheaper
  end.

(** [ComparisonBar]: the width of the bar, in percent. *)
Definition barPct (value max : f64) : f64 :=
  if ltb zero max then F64.max (mul (div value max) (ofZ 100)) (ofZ 4)
  else ofZ 4.

End ScenarioCalc.

(* ------------------------------------------------------------------ *)
(** ** TrendChart (the TrendChart component, src/unnamed/part_002) *)

Module TrendChart.

Import Js.

(** [Bar]: the width of the bar, in percent. *)
Definition barPct (value maxValue : Q) : Q :=
  if ScenarioCalc.Qltb 0 maxValue then Qmax (value / maxValue * 100) 2 else 2.




End TrendChart.

(* ------------------------------------------------------------------ *)
(** ** The widgets of the page and WidgetPanel
    (app/page.tsx, components/WidgetPanel.tsx) *)

Module Widgets.

Import Js.

(** [titleMap] of [WidgetPanel]. *)
Definition titleMap : list (jsstring * jsstring) :=
  [ (lit "market_snapshot", lit "Market Snapshot");
    (lit "trend_chart", lit "Trend Chart");
    (lit "scenario_explorer", lit "Scenario Explorer");
    (lit "comps_table", lit "Comps & Similar Homes");
    (lit "distribution", lit "Price / Rent Distribution");
    (lit "map_view", lit "Map View") ].

(** [titleMap[widget]], [None] for [undefined]. *)
Fixpoint titleOf (widget : jsstring) (m : list (jsstring * jsstring))
  : option jsstring :=
  match m with
  | [] => None
  | (k, v) :: rest => if jsstring_eqb widget k then Some v else titleOf widget rest
  end.

(** What the page puts on screen for one widget name. *)
Inductive Component : Type :=
| TheScenarioExplorer
| TheMarketSnapshot
| TheTrendChart
| TheCompsTable
| TheWidgetPanel (title : option jsstring).

(** The body of [widgetsToRender.map]. *)
Definition renderWidget (w : jsstring) : Component :=
  if jsstring_eqb w (lit "scenario_explorer") then TheScenarioExplorer
  else if jsstring_eqb w (lit "market_snapshot") then TheMarketSnapshot
  else if jsstring_eqb w (lit "trend_chart") then TheTrendChart
  else if jsstring_eqb w (lit "comps_table") then TheCompsTable
  else TheWidgetPanel (titleOf w titleMap).

End Widgets.

(* ------------------------------------------------------------------ *)
(** ** MarketSnapshot (in components/Header.tsx) *)

Module MarketSnapshot.

Import Js UseSearch.

(** [DISPLAY_ORDER]: the KPI read by each key, and its fallback
    label. *)
Definition DISPLAY_ORDER : list ((MarketKPIs -> option KPIValue) * jsstring) :=
  [ (median_price, lit "Median Price");
    (yoy_price_change, lit "YoY Price Change");
    (price_per_sqft, lit "Price / Sqft");
    (active_listings, lit "Active Listings");
    (days_on_market, lit "Days on Market");
    (sale_to_list_ratio, lit "Sale-to-List");
    (inventory_change, lit "Inventory Change");
    (median_rent, lit "Median Rent") ].

(** [s] where a string or [null] is tested for truth. *)
Definition truthyOpt (s : option jsstring) : bool :=
  match s with Some v => truthy v | None => false end.

(** The body of [DISPLAY_ORDER.map]: the tile, or [None] for [null]. *)
Definition tileOf (kpis : MarketKPIs)
  (entry : (MarketKPIs -> option KPIValue) * jsstring) : option KPIValue :=
  match fst entry kpis with
  | None => None
  | Some kpi =>
      if negb (truthyOpt (kpi_value kpi)) then None
      else Some {| kpi_label := if truthy (kpi_label kpi) then kpi_label kpi
                                else snd entry;
                   kpi_value := kpi_value kpi;
                   direction := direction kpi;
                   detail := detail kpi |}
  end.

(** [.filter(Boolean)]. *)
Fixpoint compact {A : Type} (l : list (option A)) : list A :=
  match l with
  | [] => []
  | Some a :: r => a :: compact r
  | None :: r => compact r
  end.

Definition tiles (kpis : MarketKPIs) : list KPIValue :=
  compact (map (tileOf kpis) DISPLAY_ORDER).

(** The component: its heading and its tiles, or [None] for [null]. *)
Definition MarketSnapshot (kpis : option MarketKPIs) (title : option jsstring)
  : option (jsstring * list KPIValue) :=
  match kpis with
  | None => None
  | Some k =>
      match tiles k with
      | [] => None
      | ts => Some (match title with Some t => t | None => lit "Market Snapshot" end,
                    ts)
      end
  end.

End MarketSnapshot.

(* ------------------------------------------------------------------ *)
(** ** SourceList and SourceCard (components/SourceList.tsx,
    components/SourceCard.tsx) *)

Module SourceList.

Import Js UseSearch.

(** What a card shows of its source; the score arrives as a JSON
    number, whose Number is the nearest double. *)
Record Card : Type := {
  index : nat;
  source : SourceResult;
  relevancePercent : F64.f64;
  trustText : jsstring
}.

Definition SourceCard (source : SourceResult) (index : nat) : Card :=
  {| index := index;
     source := source;
     relevancePercent :=
       F64.round (F64.mul (F64.ofQ (composite_score source)) (F64.ofZ 100));
     trustText := match trust_level source with
                  | verified => lit "Verified"
                  | unverified => lit "Unverified"
                  end |}.

(** [sources.map((source, i) => <SourceCard index={i + 1} />)], from
    position [i] on. *)
Fixpoint cardsFrom (i : nat) (sources : list SourceResult) : list Card :=
  match sources with
  | [] => []
  | s :: r => SourceCard s (i + 1) :: cardsFrom (S i) r
  end.

(** The component: the count in the heading and the cards, or [None]
    for [null]. *)
Definition SourceList (sources : list SourceResult) : option (nat * list Card) :=
  if (List.length sources =? 0)%nat then None
  else Some (List.length sources, cardsFrom 0 sources).

End SourceList.

(* ------------------------------------------------------------------ *)
(** ** FreshnessMeter *)

Module FreshnessMeter.

Import Js UseSearch.

Record Buckets : Type := { fresh : Z; medium : Z; stale : Z }.


(** A number of days or NaN ([None]), as [daysAgo] returns it. *)
Definition Days := option Z.

(** [d <= k] on a number that may be NaN. *)
Definition daysLe (d : Days) (k : Z) : bool :=
  match d with Some z => (z <=? k)%Z | None => false end.

(** The body of the loop: one dated source with its age [d]. *)
Definition count (b : Buckets * option Days) (d : Days) : Buckets * option Days :=
  let (buckets, newestDays) := b in
  let newest :=
    match newestDays with
    | None => Some d
    | Some None => newestDays
    | Some (Some n) =>
        match d with
        | Some z => if (z <? n)%Z then Some d else newestDays
        | None => newestDays
        end
    end in
  let buckets' :=
    if daysLe d 30
    then {| fresh := fresh buckets + 1; medium := medium buckets; stale := stale buckets |}
    else if daysLe d 180
    then {| fresh := fresh buckets; medium := medium buckets + 1; stale := stale buckets |}
    else {| fresh := fresh buckets; medium := medium buckets; stale := stale buckets + 1 |} in
  (buckets', newest).

Record Meter : Type := {
  unknownCount : Z;
  buckets : Buckets;
  newestDays : option Days;
  freshPct : F64.f64;
  medPct : F64.f64;
  stalePct : F64.f64
}.

(** [Math.round((part / totalKnown) * 100)] on two counts. *)
Definition share (part totalKnown : Z) : F64.f64 :=
  F64.round
    (F64.mul (F64.div (F64.ofZ part) (F64.ofZ totalKnown)) (F64.ofZ 100)).

Section Meter.

(** [daysAgo] reads the clock and parses the date; it is a parameter,
    with the rank of the call beside the date since the clock moves
    between calls. *)
Variable daysAgo : nat -> jsstring -> Days.

Definition hasDate (s : SourceResult) : bool :=
  MarketSnapshot.truthyOpt (published_date s).

Definition dateOf (s : SourceResult) : jsstring :=
  match published_date s with Some d => d | None => [] end.

(** The ages the loop computes, in order, from call [k] on. *)
Fixpoint agesFrom (k : nat) (withDates : list SourceResult) : list Days :=
  match withDates with
  | [] => []
  | s :: r => daysAgo k (dateOf s) :: agesFrom (S k) r
  end.

Definition FreshnessMeter (sources : list SourceResult) : Meter :=
  let withDates := filter hasDate sources in
  let unknown := (Z.of_nat (List.length sources) - Z.of_nat (List.length withDates))%Z in
  let (b, newest) :=
    fold_left count (agesFrom 0 withDates)
      ({| fresh := 0; medium := 0; stale := 0 |}, None) in
  let totalKnown :=
    if (List.length withDates =? 0)%nat then 1%Z
    else Z.of_nat (List.length withDates) in
  let freshPct := share (fresh b) totalKnown in
  let medPct := share (medium b) totalKnown in
  {| unknownCount := unknown;
     buckets := b;
     newestDays := newest;
     freshPct := freshPct;
     medPct := medPct;
     stalePct :=
       F64.max F64.zero (F64.sub (F64.sub (F64.ofZ 100) freshPct) medPct) |}.

End Meter.

End FreshnessMeter.

(* ------------------------------------------------------------------ *)
(** ** Sample data *)

Module Samples.

(** A plan payload whose widget list mixes allowed names with others. *)
Definition sampleWidgets : list Js.json :=
  [ Js.JStr (Js.lit "trend_chart"); Js.JStr (Js.lit "price_heatmap");
    Js.JNum 3; Js.JStr (Js.lit "comps_table") ].

Definition samplePlan : Js.json :=
  Js.JObj [ (Js.lit "intent", Js.JStr (Js.lit "market_context"));
            (Js.lit "widgets", Js.JArr sampleWidgets) ].

(** A hook in which a search has received the first chunk of its
    answer. *)
Definition midStream : UseSearch.Hook :=
  UseSearch.deliver (UseSearch.EvAnswerDelta (Js.lit "Median"))
    (UseSearch.searchBegin (Js.lit "median price in Austin")
       UseSearch.initialHook).

(** Two frames of a stream with CRLF line endings, and the same text as
    it may arrive, cut inside a field, inside a line ending and inside
    the blank line. *)
Definition sampleFrames : list (Js.jsstring * Js.jsstring) :=
  [ (Js.lit "status", Js.lit "1"); (Js.lit "confidence", Js.lit "87") ].

Definition CRLF : Js.jsstring := [13%N; 10%N].

Definition sampleChunks : list Js.jsstring :=
  [ Js.lit "event: sta";
    Js.lit "tus" ++ [13%N];
    [10%N] ++ Js.lit "data: 1" ++ CRLF ++ [13%N];
    [10%N] ++ Js.lit "event: confidence" ++ CRLF ++ Js.lit "data: 87" ++ CRLF;
    CRLF ].

(** The same stream when the blank line after the second frame has not
    arrived. *)
Definition sampleChunksOpen : list Js.jsstring :=
  [ Js.lit "event: status" ++ CRLF ++ Js.lit "data: 1" ++ CRLF ++ CRLF;
    Js.lit "event: confidence" ++ CRLF ++ Js.lit "data: 87" ++ CRLF ].

(** Three sources, two of them dated, and ages for their dates. *)
Definition sampleSource (published : option Js.jsstring) : UseSearch.SourceResult :=
  {| UseSearch.title := Js.lit "Home values";
     UseSearch.url := Js.lit "https://www.zillow.com/home-values/";
     UseSearch.content := Js.lit "Typical home values by region";
     UseSearch.score := 9 # 10;
     UseSearch.domain := Js.lit "www.zillow.com";
     UseSearch.is_trusted := true;
     UseSearch.trust_level := UseSearch.verified;
     UseSearch.recency_score := 8 # 10;
     UseSearch.composite_score := 92 # 100;
     UseSearch.published_date := published |}.

Definition sampleSources : list UseSearch.SourceResult :=
  [ sampleSource (Some (Js.lit "2026-10-01"));
    sampleSource None;
    sampleSource (Some (Js.lit "2026-10-30")) ].

Definition sampleDaysAgo (call : nat) (date : Js.jsstring) : FreshnessMeter.Days :=
  if Js.jsstring_eqb date (Js.lit "2026-10-01") then Some 32%Z
  else if Js.jsstring_eqb date (Js.lit "2026-10-30") then Some 3%Z
  else None.


End Samples.

(* ================================================================== *)
(** * Properties *)

Import Samples.

(* ------------------------------------------------------------------ *)
(** ** Source Scorer *)

Section ScorerFacts.

Import Scorer.

Lemma clamp01_range (x : Q) : 0 <= clamp01 x <= 1.
Proof.
  unfold clamp01; split.
  - apply Q.le_max_l.
  - apply Q.max_lub; [lra | apply Q.le_min_l].
Qed.

Lemma clamp01_id (x : Q) : 0 <= x <= 1 -> clamp01 x == x.
Proof.
  intros [H0 H1]. unfold clamp01.
  rewrite (Q.min_r 1 x) by exact H1.
  apply Q.max_r; exact H0.
Qed.

Lemma trustScoreOf_range (t : option Tier) : 0 <= trustScoreOf t <= 1.
Proof. destruct t as [[ | | ] | ]; simpl; lra. Qed.

Lemma recencyScoreOf_range (now : Z) (d : option Z) :
  0 <= recencyScoreOf now d <= 1.
Proof.
  unfold recencyScoreOf. destruct d as [d | ]; [ | lra].
  cbv zeta.
  repeat match goal with |- context [if ?b then _ else _] => destruct b end;
    lra.
Qed.

Lemma weightedSum_range (t r c : Q) :
  0 <= t <= 1 -> 0 <= r <= 1 -> 0 <= c <= 1 -> 0 <= weightedSum t r c <= 1.
Proof. unfold weightedSum, W_TRUST, W_RELEVANCE, W_RECENCY. intros; lra. Qed.

Variable tierOf : string -> option Tier.
Variable hostOf : string -> string.

(** C1.  For every raw result and every instant, the composite score of
    the scored source is the weighted sum 0.4 x trust + 0.4 x relevance +
    0.2 x recency of its three factors (exactly, hence within 1e-6), the
    relevance factor being the search relevance clamped to [0,1]; every
    factor lies in [0,1], and so does the composite score. *)
Theorem composite_score_weighted_sum (r : RawResult) (now : Z) :
  let s := score tierOf hostOf r now in
  let sum := (4 # 10) * trustScore s + (4 # 10) * relevance s
             + (2 # 10) * recencyScore s in
  compositeScore s == sum /\
  Qabs (compositeScore s - sum) <= 1 # 1000000 /\
  trustScore s == trustScoreOf (tierOf (hostOf (url r))) /\
  relevance s == clamp01 (searchRelevance r) /\
  recencyScore s == recencyScoreOf now (publishedDate r) /\
  (0 <= trustScore s <= 1) /\
  (0 <= relevance s <= 1) /\
  (0 <= recencyScore s <= 1) /\
  (0 <= compositeScore s <= 1).
Proof.
  cbv zeta. unfold score.
  cbn [compositeScore trustScore relevance recencyScore].
  pose proof (clamp01_range (trustScoreOf (tierOf (hostOf (url r))))) as Ht.
  pose proof (clamp01_range (searchRelevance r)) as Hr.
  pose proof (clamp01_range (recencyScoreOf now (publishedDate r))) as Hc.
  assert (E : weightedSum (clamp01 (trustScoreOf (tierOf (hostOf (url r)))))
                (clamp01 (searchRelevance r))
                (clamp01 (recencyScoreOf now (publishedDate r)))
              - ((4 # 10) * clamp01 (trustScoreOf (tierOf (hostOf (url r))))
                 + (4 # 10) * clamp01 (searchRelevance r)
                 + (2 # 10) * clamp01 (recencyScoreOf now (publishedDate r)))
              == 0)
    by (unfold weightedSum, W_TRUST, W_RELEVANCE, W_RECENCY; ring).
  split; [ | split; [ | split; [ | split; [ | split; [ | split; [ | split;
    [ | split ] ] ] ] ] ] ]; try assumption.
  - unfold weightedSum, W_TRUST, W_RELEVANCE, W_RECENCY; ring.
  - rewrite E. discriminate.
  - apply clamp01_id, trustScoreOf_range.
  - reflexivity.
  - apply clamp01_id, recencyScoreOf_range.
  - apply weightedSum_range; assumption.
Qed.

(** A raw result whose relevance respects the data model keeps it as its
    relevance factor. *)
Lemma relevance_unclamped (r : RawResult) (now : Z) :
  0 <= searchRelevance r <= 1 ->
  relevance (score tierOf hostOf r now) == searchRelevance r.
Proof. intros H. simpl. apply clamp01_id, H. Qed.

End ScorerFacts.

(* ------------------------------------------------------------------ *)
(** ** Confidence Estimator *)

Lemma blend_no_sources (coverage : Q) :
  Confidence.blend [] coverage == 20 * Scorer.clamp01 coverage.
Proof.
  unfold Confidence.blend.
  change (Confidence.mean (map Scorer.compositeScore [])) with 0.
  change (Confidence.trustedFraction []) with 0.
  ring.
Qed.

(** C3.  With no source at all, the confidence returned by the estimator
    is at most 20, whatever the extraction coverage (in or out of
    [0,1]); it is also non-negative. *)
Theorem zero_sources_confidence_at_most_20 (extractionCoverage : Q) :
  Confidence.estimate [] extractionCoverage <= 20 /\
  0 <= Confidence.estimate [] extractionCoverage.
Proof.
  unfold Confidence.estimate, Confidence.ZERO_SOURCE_CEILING. split.
  - apply Q.le_min_l.
  - apply Q.min_glb; [lra | ].
    rewrite blend_no_sources.
    pose proof (clamp01_range extractionCoverage). lra.
Qed.

(* ------------------------------------------------------------------ *)
(** ** The hook's bookkeeping *)

Section HookFacts.

Import Js UseSearch.

Lemma deliverAll_state (evs : list SSEEvent) (h : Hook) :
  state (deliverAll evs h) = applyEvents evs (state h).
Proof.
  revert h. induction evs as [ | ev evs IH]; intros h; simpl.
  - reflexivity.
  - unfold deliverAll, applyEvents in *. simpl. rewrite IH. reflexivity.
Qed.

(** Delivering events touches the state only. *)
Lemma deliverAll_refs (evs : list SSEEvent) (h : Hook) :
  abortRef (deliverAll evs h) = abortRef h /\
  controllers (deliverAll evs h) = controllers h /\
  requests (deliverAll evs h) = requests h.
Proof.
  revert h. induction evs as [ | ev evs IH]; intros h; simpl.
  - repeat split.
  - unfold deliverAll in *. simpl. apply (IH (deliver ev h)).
Qed.

(** After its [fetch], a search issues no further request. *)
Lemma searchRest_requests (o : Outcome) (h : Hook) :
  requests (searchRest o h) = requests h.
Proof.
  destruct o as [err | st d | | evs ending]; simpl.
  - reflexivity.
  - destruct (errorOf st (errOf d)); reflexivity.
  - reflexivity.
  - destruct ending as [err | ]; simpl; apply deliverAll_refs.
Qed.

End HookFacts.

(* ------------------------------------------------------------------ *)
(** ** SearchBar *)

Section SearchBarFacts.

Import Js SearchBar.

Lemma trimStart_blank (s : jsstring) :
  trimStart s = [] <-> forallb isWhiteSpace s = true.
Proof.
  induction s as [ | c r IH]; simpl.
  - tauto.
  - destruct (isWhiteSpace c); simpl.
    + exact IH.
    + split; discriminate.
Qed.

Lemma trimStart_head (s : jsstring) (c : N) (r : jsstring) :
  trimStart s = c :: r -> isWhiteSpace c = false.
Proof.
  induction s as [ | a t IH]; simpl; [discriminate | ].
  destruct (isWhiteSpace a) eqn:Ha; [exact IH | ].
  intros E. injection E as -> _. exact Ha.
Qed.

Lemma forallb_rev {A} (p : A -> bool) (l : list A) :
  forallb p (rev l) = forallb p l.
Proof.
  induction l as [ | a l IH]; simpl; [reflexivity | ].
  rewrite forallb_app, IH. simpl. rewrite andb_true_r. apply andb_comm.
Qed.

(** The trimmed form is empty exactly for the empty and the
    whitespace-only strings. *)
Lemma trim_blank (s : jsstring) :
  trim s = [] <-> forallb isWhiteSpace s = true.
Proof.
  unfold trim, trimEnd. split.
  - intros H.
    assert (H1 : trimStart (rev (trimStart s)) = []).
    { destruct (trimStart (rev (trimStart s))) as [ | a l]; [reflexivity | ].
      simpl in H. destruct (rev l); discriminate. }
    apply trimStart_blank in H1. rewrite forallb_rev in H1.
    destruct (trimStart s) as [ | c r] eqn:E.
    + apply trimStart_blank, E.
    + apply trimStart_head in E. simpl in H1. rewrite E in H1. discriminate.
  - intros H. apply trimStart_blank in H. rewrite H. reflexivity.
Qed.

Lemma truthy_false (s : jsstring) : truthy s = false <-> s = [].
Proof. destruct s; simpl; split; congruence. Qed.

Lemma handleSubmit_blank (W : Type) (onSearch : jsstring -> W -> W)
  (query : jsstring) (isLoading : bool) (w : W) :
  trim query = [] -> handleSubmit W onSearch query isLoading w = w.
Proof. intros E. unfold handleSubmit. cbv zeta. rewrite E. reflexivity. Qed.

Lemma handleSubmit_nonblank (W : Type) (onSearch : jsstring -> W -> W)
  (query : jsstring) (isLoading : bool) (w : W) :
  trim query <> [] ->
  handleSubmit W onSearch query isLoading w
  = if isLoading then w else onSearch (trim query) w.
Proof.
  intros NE. unfold handleSubmit. cbv zeta.
  destruct (trim query); [contradiction | ]. destruct isLoading; reflexivity.
Qed.

(** C4.  Submitting the form with a query whose trimmed form is empty,
    that is an empty or whitespace-only query, leaves whatever lies
    behind [onSearch] untouched: the callback is not called, whatever it
    is, and behind the page's [handleSearch] the hook is left as it was,
    with no request issued.  With a non-empty trimmed form the callback
    receives exactly the trimmed string, once, unless a search is
    loading, in which case it is not called either; the request issued
    carries the trimmed string. *)
Theorem handleSubmit_searches_trimmed_or_nothing
  (W : Type) (onSearch : jsstring -> W -> W)
  (query : jsstring) (isLoading : bool) (w : W) :
  (trim query = [] <-> forallb isWhiteSpace query = true) /\
  (trim query = [] ->
     handleSubmit W onSearch query isLoading w = w /\
     onSearchCalls query isLoading = [] /\
     forall net h,
       handleSubmit UseSearch.Hook (Page.handleSearch net) query isLoading h = h) /\
  (trim query <> [] ->
     handleSubmit W onSearch query isLoading w
       = (if isLoading then w else onSearch (trim query) w) /\
     onSearchCalls query isLoading
       = (if isLoading then [] else [trim query]) /\
     (forall q, In q (onSearchCalls query isLoading) -> q = trim query) /\
     forall net h,
       UseSearch.requests
         (handleSubmit UseSearch.Hook (Page.handleSearch net) query isLoading h)
       = UseSearch.requests h ++ (if isLoading then [] else [trim query])).
Proof.
  split; [apply trim_blank | ]. split.
  - intros E. split; [apply handleSubmit_blank, E | ].
    split; [apply handleSubmit_blank, E | ].
    intros net h. apply handleSubmit_blank, E.
  - intros NE. split; [apply handleSubmit_nonblank, NE | ].
    assert (Hcalls : onSearchCalls query isLoading
                     = if isLoading then [] else [trim query]).
    { unfold onSearchCalls. rewrite handleSubmit_nonblank by exact NE.
      destruct isLoading; reflexivity. }
    split; [exact Hcalls | ]. split.
    + intros q. rewrite Hcalls. destruct isLoading; simpl; [tauto | ].
      intros [<- | []]. reflexivity.
    + intros net h. rewrite handleSubmit_nonblank by exact NE.
      destruct isLoading; [symmetry; apply app_nil_r | ].
      unfold Page.handleSearch, UseSearch.search.
      rewrite searchRest_requests. reflexivity.
Qed.

End SearchBarFacts.

(** C4 at a blank query and at a padded one. *)
Lemma handleSubmit_searches_trimmed_or_nothing_witness :
  (SearchBar.handleSubmit nat (fun q n => S n) (Js.lit "   ") false 0%nat = 0%nat /\
   SearchBar.onSearchCalls (Js.lit "   ") false = []) /\
  (SearchBar.handleSubmit nat (fun q n => S n) (Js.lit "  rent in PA ") false 0%nat
     = 1%nat /\
   SearchBar.onSearchCalls (Js.lit "  rent in PA ") false = [Js.lit "rent in PA"]).
Proof.
  split.
  - pose proof (proj1 (proj2 (handleSubmit_searches_trimmed_or_nothing
                                nat (fun q n => S n) (Js.lit "   ") false 0%nat))
                  eq_refl) as (H1 & H2 & _).
    split; [exact H1 | exact H2].
  - assert (NE : SearchBar.trim (Js.lit "  rent in PA ") <> [])
      by (vm_compute; discriminate).
    pose proof (proj2 (proj2 (handleSubmit_searches_trimmed_or_nothing
                                nat (fun q n => S n) (Js.lit "  rent in PA ")
                                false 0%nat)) NE) as (H1 & H2 & _).
    split; [exact H1 | exact H2].
Defined.

(* ------------------------------------------------------------------ *)
(** ** useSearch *)

Section UseSearchFacts.

Import Js UseSearch.

Lemma applyEvents_answer (evs : list SSEEvent) (s : SearchState) :
  answer (applyEvents evs s) = answer s ++ List.concat (answerDeltas evs).
Proof.
  revert s. induction evs as [ | ev evs IH]; intros s.
  - simpl. symmetry. apply app_nil_r.
  - unfold applyEvents in *. simpl fold_left. rewrite IH.
    destruct ev; simpl; try reflexivity.
    symmetry. apply app_assoc.
Qed.

Lemma settle_answer (ending : option Thrown) (h : Hook) :
  answer (state (settle ending h)) = answer (state h).
Proof. destruct ending as [[ | m | ] | ]; reflexivity. Qed.

Lemma answerDeltas_only (chunks : list jsstring) :
  answerDeltas (map EvAnswerDelta chunks) = chunks.
Proof. induction chunks as [ | c r IH]; simpl; congruence. Qed.

(** C5.  In a run of [search], after any events of the stream have been
    processed, the answer is the concatenation, in arrival order, of the
    payloads of the [answer_delta] events among them, the other events
    leaving it alone; each chunk is appended to the answer held when it
    arrives; and the end of the stream does not change it. *)
Theorem answer_concatenates_deltas
  (query : jsstring) (h : Hook) (evs : list SSEEvent) :
  answer (state (deliverAll evs (searchBegin query h)))
    = List.concat (answerDeltas evs) /\
  (forall ending,
     answer (state (search query (Streamed evs ending) h))
       = List.concat (answerDeltas evs)) /\
  (forall chunks,
     answer (state (deliverAll (map EvAnswerDelta chunks) (searchBegin query h)))
       = List.concat chunks) /\
  (forall chunk,
     answer (state (deliver (EvAnswerDelta chunk)
                      (deliverAll evs (searchBegin query h))))
       = answer (state (deliverAll evs (searchBegin query h))) ++ chunk).
Proof.
  assert (E : forall l, answer (state (deliverAll l (searchBegin query h)))
                        = List.concat (answerDeltas l)).
  { intros l. rewrite deliverAll_state, applyEvents_answer. reflexivity. }
  split; [apply E | ]. split; [ | split].
  - intros ending. unfold search, searchRest. rewrite settle_answer. apply E.
  - intros chunks. rewrite E, answerDeltas_only. reflexivity.
  - intros chunk. reflexivity.
Qed.

(** C6.  An event of type sources, confidence, kpis, trends, comps or
    plan stores its payload in the field it names and leaves every other
    field of the search state as it was. *)
Theorem data_event_updates_only_its_field
  (ev : SSEEvent) (f : Field) (s : SearchState) :
  dataField ev = Some f ->
  holdsPayload ev (applyEvent ev s) /\
  (forall g, g <> f -> sameField g (applyEvent ev s) s).
Proof.
  intros H.
  destruct ev; simpl in H; try discriminate; injection H as <-;
    (split; [reflexivity | ]); intros g Hg;
    destruct g; simpl; try reflexivity; contradiction Hg; reflexivity.
Qed.

Lemma abort_flag (c : nat) (cs : list bool) :
  (c < List.length cs)%nat -> nth c (abort c cs) false = true.
Proof.
  revert c. induction cs as [ | b r IH]; intros c H; simpl in H; [lia | ].
  destruct c as [ | c]; simpl; [reflexivity | ]. apply IH. lia.
Qed.

Lemma abort_length (c : nat) (cs : list bool) :
  List.length (abort c cs) = List.length cs.
Proof.
  revert c. induction cs as [ | b r IH]; intros c; simpl; [reflexivity | ].
  destruct c; simpl; [reflexivity | ]. rewrite IH. reflexivity.
Qed.

Lemma abortCurrent_length (h : Hook) :
  List.length (abortCurrent h) = List.length (controllers h).
Proof. unfold abortCurrent. destruct (abortRef h); [apply abort_length | reflexivity]. Qed.

Lemma resetState_cleared : resultsCleared resetState.
Proof. repeat split. Qed.

Lemma set_isLoading_frame (b : bool) (s : SearchState) (g : Field) :
  g <> F_isLoading -> sameField g (set_isLoading b s) s.
Proof. intros Hg. destruct g; simpl; try reflexivity. contradiction Hg; reflexivity. Qed.

(** Every step of the hook keeps [abortRef] among the controllers
    created. *)
Lemma wellFormed_steps (h : Hook) :
  wellFormed initialHook /\
  (forall query, wellFormed (searchBegin query h)) /\
  wellFormed (cancel h) /\
  (wellFormed h ->
   (forall ev, wellFormed (deliver ev h)) /\
   (forall ending, wellFormed (settle ending h))).
Proof.
  unfold wellFormed. split; [exact I | ]. split; [ | split; [exact I | ] ].
  - intros query. simpl. rewrite length_app. simpl. lia.
  - intros H. split.
    + intros ev. exact H.
    + intros [err | ]; exact H.
Qed.

(** C7, amended.  Every call of [search] first aborts the request in
    flight, makes a fresh, unaborted controller current, resets the
    state and issues its request, so that the events of the new stream
    are applied to the reset state, in which every result field has its
    initial value.  A request ended by an [AbortError] changes nothing
    but [isLoading]: it does not set the error field, and it keeps the
    cleared fields of a search started meanwhile.  [cancel] aborts the
    request in flight, clears [abortRef] and changes nothing but
    [isLoading], so what a cancelled run had received stays in the state
    until the next search resets it.  The [AbortError] reaches the
    [catch] block when the abort rejects [fetch] or the read of the
    stream: the error field is then null, or what an [error] event of
    the stream had put there.  An abort that lands while
    [response.json()] of a response that is not OK is pending does not
    reach it: the [.catch] of that call puts the fallback body in its
    place, and the error field is set to ["Request failed"]. *)
Theorem search_resets_and_abort_is_silent (query : jsstring) (h : Hook) :
  wellFormed h ->
  (forall c, abortRef h = Some c -> isAborted c (searchBegin query h) = true) /\
  (abortRef (searchBegin query h) = Some (List.length (controllers h)) /\
   isAborted (List.length (controllers h)) (searchBegin query h) = false /\
   requests (searchBegin query h) = requests h ++ [query]) /\
  (state (searchBegin query h) = resetState /\
   resultsCleared (state (searchBegin query h))) /\
  (forall evs,
     state (deliverAll evs (searchBegin query h)) = applyEvents evs resetState) /\
  (error (state (settle (Some AbortError) h)) = error (state h) /\
   isLoading (state (settle (Some AbortError) h)) = false /\
   forall g, g <> F_isLoading ->
     sameField g (state (settle (Some AbortError) h)) (state h)) /\
  resultsCleared (state (settle (Some AbortError) (searchBegin query h))) /\
  (abortRef (cancel h) = None /\
   (forall c, abortRef h = Some c -> isAborted c (cancel h) = true) /\
   forall g, g <> F_isLoading -> sameField g (state (cancel h)) (state h)) /\
  (error (state (search query (FetchRejects AbortError) h)) = None /\
   forall evs,
     error (state (search query (Streamed evs (Some AbortError)) h))
     = error (applyEvents evs resetState)) /\
  (forall httpStatus,
     error (state (search query (NotOk httpStatus (JsonRejects AbortError)) h))
     = Some (JStr (lit "Request failed"))).
Proof.
  intros WF. unfold wellFormed in WF.
  split; [ | split; [ | split; [ | split; [ | split; [ | split;
    [ | split; [ | split ] ] ] ] ] ] ].
  - intros c Hc. rewrite Hc in WF.
    unfold isAborted, searchBegin, abortCurrent. simpl.
    rewrite Hc. rewrite app_nth1 by (rewrite abort_length; exact WF).
    apply abort_flag, WF.
  - unfold isAborted, searchBegin. simpl.
    rewrite abortCurrent_length. split; [reflexivity | ].
    split; [ | reflexivity].
    rewrite <- (abortCurrent_length h). rewrite nth_middle. reflexivity.
  - split; [reflexivity | apply resetState_cleared].
  - intros evs. rewrite deliverAll_state. reflexivity.
  - split; [reflexivity | split; [reflexivity | ] ].
    intros g Hg. apply (set_isLoading_frame false (state h) g Hg).
  - repeat split.
  - split; [reflexivity | split].
    + intros c Hc. rewrite Hc in WF.
      unfold isAborted, cancel, abortCurrent. simpl.
      rewrite Hc. apply abort_flag, WF.
    + intros g Hg. apply (set_isLoading_frame false (state h) g Hg).
  - split; [reflexivity | ].
    intros evs. unfold search, searchRest.
    change (error (state (settle (Some AbortError)
                            (deliverAll evs (searchBegin query h)))))
      with (error (state (deliverAll evs (searchBegin query h)))).
    rewrite deliverAll_state. reflexivity.
  - intros httpStatus. reflexivity.
Qed.

End UseSearchFacts.

(** C6 at a confidence event on the state a search starts from. *)
Lemma data_event_updates_only_its_field_witness :
  UseSearch.confidenceScore
    (UseSearch.applyEvent (UseSearch.EvConfidence 87) UseSearch.resetState)
    = Some 87 /\
  UseSearch.status
    (UseSearch.applyEvent (UseSearch.EvConfidence 87) UseSearch.resetState)
    = UseSearch.status UseSearch.resetState.
Proof.
  pose proof (data_event_updates_only_its_field (UseSearch.EvConfidence 87)
                UseSearch.F_confidenceScore UseSearch.resetState eq_refl)
    as [Hp Hframe].
  split.
  - exact Hp.
  - apply (Hframe UseSearch.F_status). discriminate.
Defined.

(** C7, amended, at a search that has received part of its answer. *)
Lemma search_resets_and_abort_is_silent_witness :
  UseSearch.isAborted 0 (UseSearch.searchBegin (Js.lit "rent in PA") midStream)
    = true /\
  UseSearch.answer
    (UseSearch.state (UseSearch.searchBegin (Js.lit "rent in PA") midStream))
    = [] /\
  UseSearch.answer
    (UseSearch.state (UseSearch.settle (Some UseSearch.AbortError) midStream))
    = Js.lit "Median" /\
  UseSearch.error
    (UseSearch.state
       (UseSearch.search (Js.lit "rent in PA")
          (UseSearch.NotOk 500 (UseSearch.JsonRejects UseSearch.AbortError))
          midStream))
    = Some (Js.JStr (Js.lit "Request failed")).
Proof.
  assert (WF : UseSearch.wellFormed midStream) by (unfold UseSearch.wellFormed; simpl; lia).
  pose proof (search_resets_and_abort_is_silent (Js.lit "rent in PA") midStream WF)
    as (Habort & _ & (_ & Hclear) & _ & (_ & _ & Hframe) & _ & _ & _ & Hbody).
  split; [ | split; [ | split] ].
  - apply Habort. reflexivity.
  - exact (proj1 Hclear).
  - apply (Hframe UseSearch.F_answer). discriminate.
  - apply Hbody.
Defined.

(** C7 as stated fails: a run that has received part of the answer and
    is then cancelled ends, on the [AbortError], with that part still in
    the state (and no error), so the partial result is not discarded. *)
Lemma cancelled_run_keeps_partial_answer :
  let h := UseSearch.settle (Some UseSearch.AbortError)
             (UseSearch.cancel midStream) in
  UseSearch.isAborted 0 h = true /\
  UseSearch.error (UseSearch.state h) = None /\
  UseSearch.isLoading (UseSearch.state h) = false /\
  UseSearch.answer (UseSearch.state h) = Js.lit "Median" /\
  ~ UseSearch.resultsCleared (UseSearch.state h).
Proof.
  cbv zeta. repeat split.
  intros (H & _). vm_compute in H. discriminate H.
Qed.

(* ------------------------------------------------------------------ *)
(** ** ConfidenceBadge *)

Section ConfidenceBadgeFacts.

Import Js ConfidenceBadge.

(** [round] is the nearest integer, a half going up. *)
Lemma round_nearest (x : Q) :
  x - (1 # 2) < inject_Z (round x) /\ inject_Z (round x) <= x + (1 # 2).
Proof.
  unfold round. split.
  - pose proof (Qlt_floor (x + (1 # 2))) as H.
    rewrite inject_Z_plus in H. change (inject_Z 1) with 1 in H. lra.
  - apply Qfloor_le.
Qed.

Lemma label_cases (rounded : Z) :
  (label rounded = lit "High" <-> (70 <= rounded)%Z) /\
  (label rounded = lit "Medium" <-> (40 <= rounded < 70)%Z) /\
  (label rounded = lit "Low" <-> (rounded < 40)%Z).
Proof.
  unfold label.
  destruct (Z.leb_spec 70 rounded) as [H70 | H70];
    [ | destruct (Z.leb_spec 40 rounded) as [H40 | H40] ];
    repeat split; intros; try lia; try reflexivity;
    match goal with
    | E : @eq jsstring _ _ |- _ => vm_compute in E; discriminate E
    end.
Qed.

Lemma colorClass_cases (rounded : Z) :
  colorClass rounded
  = if (70 <=? rounded)%Z then GREEN
    else if (40 <=? rounded)%Z then YELLOW else RED.
Proof.
  unfold colorClass.
  destruct (Z.leb_spec 70 rounded), (Z.leb_spec 40 rounded),
    (Z.ltb_spec rounded 70), (Z.ltb_spec rounded 40); try lia; reflexivity.
Qed.

(** C9.  For every score, the badge shows [Math.round(score)] out of 100
    and labels it High exactly when the rounded score is at least 70,
    Medium exactly when it is in [40, 70), and Low exactly when it is
    below 40. *)
Theorem confidence_badge_rounds_and_labels (score : Q) :
  let b := ConfidenceBadge score in
  shown b = round score /\
  outOf b = 100%Z /\
  (shownLabel b = lit "High" <-> (70 <= round score)%Z) /\
  (shownLabel b = lit "Medium" <-> (40 <= round score < 70)%Z) /\
  (shownLabel b = lit "Low" <-> (round score < 40)%Z).
Proof.
  cbv zeta. unfold ConfidenceBadge.
  cbn [shown outOf shownLabel].
  split; [reflexivity | split; [reflexivity | apply label_cases] ].
Qed.

End ConfidenceBadgeFacts.

(* ------------------------------------------------------------------ *)
(** ** The widgets of the page *)

Section PageFacts.

Import Js Page.

Lemma jsstring_eqb_eq (a b : jsstring) : jsstring_eqb a b = true <-> a = b.
Proof.
  unfold jsstring_eqb. destruct (list_eq_dec N.eq_dec a b); split;
    congruence.
Qed.

Lemma includes_allowed (w : json) :
  includes allowedWidgets w = true <-> allowedWidget w.
Proof.
  unfold allowedWidget. destruct w;
    try (split; [discriminate | intros (name & E & _); discriminate E]).
  change (includes allowedWidgets (JStr s))
    with (existsb (jsstring_eqb s) allowedWidgets).
  rewrite existsb_exists. split.
  - intros (x & Hin & Heq). apply jsstring_eqb_eq in Heq. subst x.
    exists s. split; [reflexivity | exact Hin].
  - intros (name & E & Hin). injection E as ->.
    exists name. split; [exact Hin | apply jsstring_eqb_eq; reflexivity].
Qed.

(** C10.  Whatever the plan, every widget the page goes on to render is
    one of the six names of the allow-list: when [plan.widgets] is an
    array, the rendered list is that array with every other value
    filtered out, in order; and a null plan, as in the initial state, or
    a plan without widgets, gives the empty list and no error. *)
Theorem widgets_to_render_within_allow_list (plan : json) :
  List.length allowedWidgets = 6%nat /\
  (forall ws, widgetsToRender plan = Returns ws ->
     forall w, In w ws -> allowedWidget w) /\
  (forall items, planWidgets plan = Some (JArr items) ->
     widgetsToRender plan = Returns (filter (includes allowedWidgets) items) /\
     forall w, In w (filter (includes allowedWidgets) items)
               <-> In w items /\ allowedWidget w) /\
  (planWidgets plan = None \/ planWidgets plan = Some JNull ->
     widgetsToRender plan = Returns []) /\
  widgetsToRender JNull = Returns [] /\
  widgetsToRender (UseSearch.plan UseSearch.INITIAL_STATE) = Returns [].
Proof.
  split; [reflexivity | ].
  split; [ | split; [ | split; [ | split; reflexivity ] ] ].
  - intros ws H w Hin. unfold widgetsToRender in H.
    destruct (planWidgets plan) as [[ | b | n | s | items | fields] | ];
      simpl in H; try discriminate H; injection H as <-;
      try contradiction.
    apply filter_In in Hin. apply includes_allowed, Hin.
  - intros items H. unfold widgetsToRender. rewrite H. split; [reflexivity | ].
    intros w. rewrite filter_In, includes_allowed. reflexivity.
  - intros [H | H]; unfold widgetsToRender; rewrite H; reflexivity.
Qed.

End PageFacts.

(** C10 at the sample plan. *)
Lemma widgets_to_render_within_allow_list_witness :
  Page.widgetsToRender samplePlan
  = Page.Returns [ Js.JStr (Js.lit "trend_chart"); Js.JStr (Js.lit "comps_table") ].
Proof.
  exact (proj1 (proj1 (proj2 (proj2 (widgets_to_render_within_allow_list samplePlan)))
                  sampleWidgets eq_refl)).
Defined.

(** Where [plan.widgets] is neither absent, null nor an array there is
    no [filter] to call and the expression throws. *)
Example widgets_not_an_array_throws :
  Page.widgetsToRender
    (Js.JObj [ (Js.lit "widgets", Js.JStr (Js.lit "trend_chart")) ])
  = Page.ThrowsTypeError.
Proof. reflexivity. Qed.

(* ------------------------------------------------------------------ *)
(** ** Numbers in double precision *)

Section F64Facts.

Import F64.

Lemma shr_1_nonneg (mrs : shr_record) :
  (0 <= shr_m mrs)%Z -> (0 <= shr_m (shr_1 mrs))%Z.
Proof.
  destruct mrs as [m r s]. simpl.
  destruct m as [ | [p | p | ] | p]; simpl; lia.
Qed.

Lemma iter_pos_invariant (A : Type) (P : A -> Prop) (f : A -> A) :
  (forall x, P x -> P (f x)) ->
  forall n x, P x -> P (iter_pos f n x).
Proof.
  intros Hf. induction n as [n IH | n IH | ]; intros x Hx; simpl.
  - apply IH, IH, Hf, Hx.
  - apply IH, IH, Hx.
  - apply Hf, Hx.
Qed.

Lemma shr_nonneg (mrs : shr_record) (e n : Z) :
  (0 <= shr_m mrs)%Z -> (0 <= shr_m (fst (shr mrs e n)))%Z.
Proof.
  intros H. unfold shr. destruct n as [ | p | p]; simpl; try exact H.
  apply (iter_pos_invariant _ (fun x => (0 <= shr_m x)%Z) shr_1 shr_1_nonneg), H.
Qed.

Lemma shr_fexp_nonneg (m e : Z) (l : location) :
  (0 <= m)%Z -> (0 <= shr_m (fst (shr_fexp prec emax m e l)))%Z.
Proof.
  intros H. unfold shr_fexp. apply shr_nonneg.
  destruct l as [ | [ | | ] ]; exact H.
Qed.

Lemma round_nearest_even_nonneg (m : Z) (l : location) :
  (0 <= m)%Z -> (0 <= round_nearest_even m l)%Z.
Proof.
  intros H. unfold round_nearest_even.
  destruct l as [ | [ | | ] ]; try destruct (Z.even m); lia.
Qed.

(** Rounding keeps the sign. *)
Lemma binary_round_aux_sign (s : bool) (m e : Z) (l : location) :
  (0 <= m)%Z -> signedBy s (binary_round_aux prec emax s m e l).
Proof.
  intros H. unfold binary_round_aux.
  pose proof (shr_fexp_nonneg m e l H) as H1.
  destruct (shr_fexp prec emax m e l) as [mrs' e'].
  pose proof (shr_fexp_nonneg
                (round_nearest_even (shr_m mrs') (loc_of_shr_record mrs')) e'
                loc_Exact (round_nearest_even_nonneg _ _ H1)) as H2.
  destruct (shr_fexp prec emax
              (round_nearest_even (shr_m mrs') (loc_of_shr_record mrs')) e'
              loc_Exact) as [mrs'' e''].
  simpl in H2. destruct (shr_m mrs'') as [ | p | p]; [reflexivity | | lia].
  destruct (e'' <=? emax - prec)%Z; reflexivity.
Qed.

Lemma leb_zero_signedBy (x : f64) : leb zero x = true <-> signedBy false x \/ x = S754_zero true.
Proof.
  destruct x as [s | s | | s m e]; simpl; try destruct s; unfold leb, zero; simpl;
    intuition (try discriminate; try congruence).
Qed.

Lemma div_core_nonneg (m1 e1 m2 e2 : Z) :
  (0 <= m1)%Z -> (0 < m2)%Z ->
  (0 <= fst (fst (SFdiv_core_binary prec emax m1 e1 m2 e2)))%Z.
Proof.
  intros H1 H2. unfold SFdiv_core_binary. cbv zeta.
  match goal with
  | |- context [Z.div_eucl ?a ?b] =>
      assert (Ha : (0 <= a)%Z);
      [ | pose proof (Z_div_mod a b ltac:(lia)) as Hd;
          destruct (Z.div_eucl a b) as [q r]; simpl; nia ]
  end.
  match goal with
  | |- (0 <= match ?s with _ => _ end)%Z => destruct s
  end; try lia.
  apply Z.shiftl_nonneg, H1.
Qed.

(** A product or quotient by a positive finite Number of a Number that
    is not negative is not negative. *)
Lemma mul_nonneg (x : f64) (m : positive) (e : Z) :
  leb zero x = true -> leb zero (mul x (S754_finite false m e)) = true.
Proof.
  intros H. apply leb_zero_signedBy in H. apply leb_zero_signedBy.
  destruct x as [s | s | | s mx ex]; simpl in *.
  - destruct s; [right | left]; reflexivity.
  - left. destruct H as [-> | H]; [reflexivity | discriminate H].
  - destruct H as [ [] | H]; discriminate H.
  - left. destruct H as [-> | H]; [ | discriminate H].
    apply binary_round_aux_sign. lia.
Qed.

Lemma div_nonneg (x : f64) (m : positive) (e : Z) :
  leb zero x = true -> leb zero (div x (S754_finite false m e)) = true.
Proof.
  intros H. apply leb_zero_signedBy in H. apply leb_zero_signedBy.
  destruct x as [s | s | | s mx ex]; simpl in *.
  - destruct s; [right | left]; reflexivity.
  - left. destruct H as [-> | H]; [reflexivity | discriminate H].
  - destruct H as [ [] | H]; discriminate H.
  - left. destruct H as [-> | H]; [ | discriminate H].
    unfold div, SFdiv.
    pose proof (div_core_nonneg (Zpos mx) ex (Zpos m) e ltac:(lia) ltac:(lia)) as Hq.
    destruct (SFdiv_core_binary prec emax (Zpos mx) ex (Zpos m) e) as [ [mz ez] lz].
    apply binary_round_aux_sign. exact Hq.
Qed.

Lemma mul_by_positive (x y : f64) :
  leb zero x = true -> isPositiveFinite y = true -> leb zero (mul x y) = true.
Proof.
  intros Hx Hy. destruct y as [s | s | | [ | ] m e]; try discriminate Hy.
  apply mul_nonneg, Hx.
Qed.

Lemma div_by_positive (x y : f64) :
  leb zero x = true -> isPositiveFinite y = true -> leb zero (div x y) = true.
Proof.
  intros Hx Hy. destruct y as [s | s | | [ | ] m e]; try discriminate Hy.
  apply div_nonneg, Hx.
Qed.

End F64Facts.

Section PowerFacts.

Import F64.

Lemma pow2_pos (e : Z) : 0 < 2 ^ e.
Proof. apply Qpower_0_lt. reflexivity. Qed.

Lemma pow2_succ (e : Z) : 2 ^ (e + 1) == 2 * 2 ^ e.
Proof. rewrite Qpower_plus by discriminate. change (2 ^ 1) with 2. ring. Qed.

Lemma pow2_add (a b : Z) : 2 ^ (a + b) == 2 ^ a * 2 ^ b.
Proof. apply Qpower_plus. discriminate. Qed.


Lemma pow2_lt_inv (a b : Z) : 2 ^ a < 2 ^ b -> (a < b)%Z.
Proof. intros H. apply (Qpower_lt_compat_l_inv 2); [exact H | reflexivity]. Qed.

Lemma pow2_Z (k : Z) : (0 <= k)%Z -> inject_Z (2 ^ k) == 2 ^ k.
Proof. intros H. rewrite Zpower_Qpower by exact H. reflexivity. Qed.

(** A value at an exponent is the value at a lower exponent of a larger
    mantissa. *)
Lemma valueOf_shift (m e k : Z) :
  (0 <= k)%Z -> valueOf m (e + k) == valueOf (m * 2 ^ k) e.
Proof.
  intros H. unfold valueOf. rewrite inject_Z_mult, pow2_Z by exact H.
  rewrite pow2_add. ring.
Qed.

Lemma valueOf_le (m n e : Z) : valueOf m e <= valueOf n e <-> (m <= n)%Z.
Proof.
  unfold valueOf. rewrite Qmult_le_r by apply pow2_pos. rewrite <- Zle_Qle.
  reflexivity.
Qed.

Lemma valueOf_lt (m n e : Z) : valueOf m e < valueOf n e <-> (m < n)%Z.
Proof.
  unfold valueOf. rewrite Qmult_lt_r by apply pow2_pos. rewrite <- Zlt_Qlt.
  reflexivity.
Qed.

Lemma valueOf_succ (m e : Z) : valueOf (m + 1) e == valueOf m e + 2 ^ e.
Proof. unfold valueOf. rewrite inject_Z_plus. change (inject_Z 1) with 1. ring. Qed.

Lemma digits2_size (p : positive) : digits2_pos p = Pos.size p.
Proof. induction p as [p IH | p IH | ]; simpl; congruence. Qed.

(** The number of binary digits of a positive mantissa. *)
Lemma digits_bounds (p : positive) :
  (2 ^ (Zdigits2 (Zpos p) - 1) <= Zpos p < 2 ^ Zdigits2 (Zpos p))%Z.
Proof.
  unfold Zdigits2. rewrite digits2_size.
  pose proof (Pos.size_gt p) as Hgt. pose proof (Pos.size_le p) as Hle.
  apply Pos2Z.pos_lt_pos in Hgt. apply Pos2Z.pos_le_pos in Hle.
  rewrite Pos2Z.inj_pow in Hgt, Hle.
  change (Z.pos p~0) with (2 * Z.pos p)%Z in Hle.
  split; [ | exact Hgt].
  replace (Z.pos (Pos.size p)) with (Z.pos (Pos.size p) - 1 + 1)%Z in Hle by lia.
  rewrite Z.pow_add_r in Hle by lia. change (2 ^ 1)%Z with 2%Z in Hle. lia.
Qed.

Lemma digits_pos (p : positive) : (0 < Zdigits2 (Zpos p))%Z.
Proof. reflexivity. Qed.

Lemma valueOf_digits (p : positive) (e : Z) :
  2 ^ (Zdigits2 (Zpos p) - 1 + e) <= valueOf (Zpos p) e /\
  valueOf (Zpos p) e < 2 ^ (Zdigits2 (Zpos p) + e).
Proof.
  destruct (digits_bounds p) as [Hl Hu]. pose proof (digits_pos p) as Hd.
  pose proof (pow2_pos e) as He.
  unfold valueOf. rewrite !pow2_add. split.
  - apply Qmult_le_r; [exact He | ].
    rewrite <- pow2_Z by lia. rewrite <- Zle_Qle. exact Hl.
  - apply Qmult_lt_r; [exact He | ].
    rewrite <- pow2_Z by lia. rewrite <- Zlt_Qlt. exact Hu.
Qed.

(** A mantissa with at least [k] digits. *)
Lemma digits_ge (p : positive) (k : Z) :
  (2 ^ (k - 1) <= Zpos p)%Z -> (k <= Zdigits2 (Zpos p))%Z.
Proof.
  intros H. destruct (digits_bounds p) as [_ Hu].
  destruct (Z.le_gt_cases k (Zdigits2 (Zpos p))) as [ | Hlt]; [assumption | ].
  exfalso. assert (Hm : (2 ^ Zdigits2 (Z.pos p) <= 2 ^ (k - 1))%Z)
    by (apply Z.pow_le_mono_r; lia).
  lia.
Qed.

Lemma fexp_mono (a b : Z) : (a <= b)%Z -> (fexp prec emax a <= fexp prec emax b)%Z.
Proof. unfold fexp. lia. Qed.

Lemma fexp_ge_emin (a : Z) : (emin prec emax <= fexp prec emax a)%Z.
Proof. unfold fexp. lia. Qed.

End PowerFacts.

Section ShiftFacts.

Import F64.

Lemma located_ge (m e : Z) (l : location) (v : Q) :
  located m e l v -> valueOf m e <= v.
Proof.
  pose proof (pow2_pos e) as He.
  destruct l as [ | [ | | ] ]; cbn [located]; intros H; lra.
Qed.

Lemma located_lt (m e : Z) (l : location) (v : Q) :
  located m e l v -> v < valueOf (m + 1) e.
Proof.
  pose proof (pow2_pos e) as He. rewrite valueOf_succ.
  destruct l as [ | [ | | ] ]; cbn [located]; intros H; lra.
Qed.

Lemma located_inexact (m e : Z) (l : location) (v : Q) :
  located m e l v -> l <> loc_Exact -> valueOf m e < v.
Proof.
  pose proof (pow2_pos e) as He.
  destruct l as [ | [ | | ] ]; cbn [located]; intros H Hl; try lra.
  contradiction Hl; reflexivity.
Qed.

Lemma located_ext (m e : Z) (l : location) (v v' : Q) :
  v == v' -> located m e l v -> located m e l v'.
Proof.
  intros E. destruct l as [ | [ | | ] ]; cbn [located]; rewrite E; tauto.
Qed.

Lemma loc_of_record (m : Z) (l : location) :
  loc_of_shr_record (shr_record_of_loc m l) = l /\
  shr_m (shr_record_of_loc m l) = m.
Proof. destruct l as [ | [ | | ] ]; split; reflexivity. Qed.

Lemma valueOf_double (p : positive) (e : Z) :
  valueOf (Zpos p~0) e == valueOf (Zpos p) (e + 1) /\
  valueOf (Zpos p~1) e == valueOf (Zpos p) (e + 1) + 2 ^ e.
Proof.
  unfold valueOf. rewrite pow2_succ.
  change (inject_Z (Z.pos p~0)) with (inject_Z (2 * Z.pos p)).
  change (inject_Z (Z.pos p~1)) with (inject_Z (2 * Z.pos p + 1)).
  rewrite inject_Z_plus, inject_Z_mult.
  change (inject_Z 2) with 2. change (inject_Z 1) with 1. split; ring.
Qed.

(** One step of the shift keeps the value where the record says. *)
Lemma shr_1_located (mrs : shr_record) (e : Z) (v : Q) :
  (0 <= shr_m mrs)%Z ->
  located (shr_m mrs) e (loc_of_shr_record mrs) v ->
  located (shr_m (shr_1 mrs)) (e + 1) (loc_of_shr_record (shr_1 mrs)) v.
Proof.
  pose proof (pow2_pos e) as He. pose proof (pow2_succ e) as Hs.
  destruct mrs as [m r s]. intros Hm. simpl in Hm.
  destruct m as [ | p | p]; [ | | lia].
  - assert (E0 : valueOf 0 e == 0) by (unfold valueOf; ring).
    assert (E1 : valueOf 0 (e + 1) == 0) by (unfold valueOf; ring).
    destruct r, s; cbn [located shr_1 shr_m loc_of_shr_record orb]; rewrite ?E0, ?E1, ?Hs; intros H; lra.
  - destruct p as [p | p | ].
    + destruct (valueOf_double p e) as [_ E].
      destruct r, s; cbn [located shr_1 shr_m loc_of_shr_record orb]; rewrite ?E, ?Hs; intros H; lra.
    + destruct (valueOf_double p e) as [E _].
      destruct r, s; cbn [located shr_1 shr_m loc_of_shr_record orb]; rewrite ?E, ?Hs; intros H; lra.
    + assert (E0 : valueOf 1 e == 2 ^ e) by (unfold valueOf; ring).
      assert (E1 : valueOf 0 (e + 1) == 0) by (unfold valueOf; ring).
      destruct r, s; cbn [located shr_1 shr_m loc_of_shr_record orb]; rewrite ?E0, ?E1, ?Hs; intros H; lra.
Qed.

Lemma iter_shr_1_located (n : positive) :
  forall (mrs : shr_record) (e : Z) (v : Q),
    (0 <= shr_m mrs)%Z ->
    located (shr_m mrs) e (loc_of_shr_record mrs) v ->
    (0 <= shr_m (iter_pos shr_1 n mrs))%Z /\
    located (shr_m (iter_pos shr_1 n mrs)) (e + Zpos n)
      (loc_of_shr_record (iter_pos shr_1 n mrs)) v.
Proof.
  induction n as [n IH | n IH | ]; intros mrs e v Hm Hl; simpl iter_pos.
  - pose proof (shr_1_nonneg mrs Hm) as H1.
    pose proof (shr_1_located mrs e v Hm Hl) as L1.
    destruct (IH _ _ _ H1 L1) as [H2 L2].
    destruct (IH _ _ _ H2 L2) as [H3 L3].
    split; [exact H3 | ].
    replace (e + Z.pos n~1)%Z with (e + 1 + Z.pos n + Z.pos n)%Z by lia.
    exact L3.
  - destruct (IH _ _ _ Hm Hl) as [H2 L2].
    destruct (IH _ _ _ H2 L2) as [H3 L3].
    split; [exact H3 | ].
    replace (e + Z.pos n~0)%Z with (e + Z.pos n + Z.pos n)%Z by lia.
    exact L3.
  - split; [apply shr_1_nonneg, Hm | apply shr_1_located; assumption].
Qed.

(** The shift to the exponent of the format keeps the value where the
    record says. *)
Lemma shr_fexp_located (m e : Z) (l : location) (v : Q) :
  (0 <= m)%Z -> located m e l v ->
  let mrs := fst (shr_fexp prec emax m e l) in
  let e' := snd (shr_fexp prec emax m e l) in
  (0 <= shr_m mrs)%Z /\
  located (shr_m mrs) e' (loc_of_shr_record mrs) v /\
  e' = Z.max e (fexp prec emax (Zdigits2 m + e)).
Proof.
  intros Hm Hl. cbv zeta. unfold shr_fexp, shr.
  destruct (loc_of_record m l) as [El Em].
  destruct (fexp prec emax (Zdigits2 m + e) - e)%Z as [ | k | k] eqn:Ek;
    cbn [fst snd].
  - rewrite El, Em. split; [exact Hm | ]. split; [exact Hl | lia].
  - assert (Hm' : (0 <= shr_m (shr_record_of_loc m l))%Z) by (rewrite Em; exact Hm).
    assert (Hl' : located (shr_m (shr_record_of_loc m l)) e
                    (loc_of_shr_record (shr_record_of_loc m l)) v)
      by (rewrite El, Em; exact Hl).
    destruct (iter_shr_1_located k _ e v Hm' Hl') as [H1 L1].
    split; [exact H1 | ]. split; [exact L1 | lia].
  - rewrite El, Em. split; [exact Hm | ]. split; [exact Hl | lia].
Qed.

End ShiftFacts.

Section RoundingFacts.

Import F64.

Lemma bounded_spec (mb : positive) (eb : Z) :
  bounded prec emax mb eb = true ->
  fexp prec emax (Zdigits2 (Zpos mb) + eb) = eb /\ (eb <= emax - prec)%Z.
Proof.
  unfold bounded, canonical_mantissa. intros H.
  apply andb_true_iff in H. destruct H as [H1 H2].
  apply Z.eqb_eq in H1. apply Z.leb_le in H2. split; assumption.
Qed.

Lemma valueOf_pos (p : positive) (e : Z) : 0 < valueOf (Zpos p) e.
Proof.
  unfold valueOf. apply Qmult_lt_0_compat; [reflexivity | apply pow2_pos].
Qed.

(** The exponent the format gives a positive value is not above that of
    a Number of the format that is not below it. *)
Lemma fexp_le_bound (p : positive) (e : Z) (mb : positive) (eb : Z) :
  bounded prec emax mb eb = true ->
  valueOf (Zpos p) e <= valueOf (Zpos mb) eb ->
  (fexp prec emax (Zdigits2 (Zpos p) + e) <= eb)%Z.
Proof.
  intros Hb Hv. destruct (bounded_spec mb eb Hb) as [Hc _].
  destruct (valueOf_digits p e) as [Hl _].
  destruct (valueOf_digits mb eb) as [_ Hu].
  assert (Hlt : 2 ^ (Zdigits2 (Zpos p) - 1 + e) < 2 ^ (Zdigits2 (Zpos mb) + eb))
    by lra.
  apply pow2_lt_inv in Hlt. rewrite <- Hc. apply fexp_mono. lia.
Qed.

Lemma round_nearest_even_cases (m : Z) (l : location) :
  round_nearest_even m l = m \/
  (round_nearest_even m l = (m + 1)%Z /\ l <> loc_Exact).
Proof.
  unfold round_nearest_even.
  destruct l as [ | [ | | ] ]; try (left; reflexivity).
  - destruct (Z.even m); [left; reflexivity | right; split; [reflexivity | discriminate] ].
  - right. split; [reflexivity | discriminate].
Qed.

(** Rounding to nearest does not pass a Number of the format that is
    not below the value rounded. *)
Lemma binary_round_aux_le (m e : Z) (l : location) (v : Q)
  (mb : positive) (eb : Z) :
  (0 <= m)%Z -> located m e l v ->
  (e <= fexp prec emax (Zdigits2 m + e))%Z ->
  bounded prec emax mb eb = true ->
  v <= valueOf (Zpos mb) eb ->
  binary_round_aux prec emax false m e l = S754_zero false \/
  exists m3 e3,
    binary_round_aux prec emax false m e l = S754_finite false m3 e3 /\
    valueOf (Zpos m3) e3 <= valueOf (Zpos mb) eb /\ (e3 <= eb)%Z.
Proof.
  intros Hm Hl HP Hb Hv.
  destruct (bounded_spec mb eb Hb) as [Hc Hmax].
  unfold binary_round_aux.
  destruct (shr_fexp_located m e l v Hm Hl) as (H1 & L1 & E1).
  destruct (shr_fexp prec emax m e l) as [mrs1 e1]. cbn [fst snd] in H1, L1, E1.
  assert (E1' : e1 = fexp prec emax (Zdigits2 m + e)) by lia.
  assert (Heb1 : (e1 <= eb)%Z).
  { rewrite E1'. destruct m as [ | p | p]; [ | | lia].
    - pose proof (fexp_ge_emin (Zdigits2 (Zpos mb) + eb)) as Hge.
      unfold fexp in *. simpl Zdigits2 in *. lia.
    - apply (fexp_le_bound p e mb eb Hb).
      apply Qle_trans with v; [apply (located_ge _ _ _ _ Hl) | exact Hv]. }
  assert (HB : valueOf (Zpos mb) eb == valueOf (Zpos mb * 2 ^ (eb - e1)) e1).
  { replace eb with (e1 + (eb - e1))%Z at 1 by lia. apply valueOf_shift. lia. }
  assert (Hi : valueOf (round_nearest_even (shr_m mrs1) (loc_of_shr_record mrs1)) e1
               <= valueOf (Zpos mb) eb).
  { destruct (round_nearest_even_cases (shr_m mrs1) (loc_of_shr_record mrs1))
      as [-> | [-> Hne] ].
    - apply Qle_trans with v; [apply (located_ge _ _ _ _ L1) | exact Hv].
    - pose proof (located_inexact _ _ _ _ L1 Hne) as Hlt.
      rewrite HB. apply valueOf_le.
      assert (Hlt' : valueOf (shr_m mrs1) e1 < valueOf (Zpos mb * 2 ^ (eb - e1)) e1)
        by (rewrite <- HB; lra).
      apply valueOf_lt in Hlt'. lia. }
  assert (Hm2 : (0 <= round_nearest_even (shr_m mrs1) (loc_of_shr_record mrs1))%Z)
    by (apply round_nearest_even_nonneg, H1).
  set (m2 := round_nearest_even (shr_m mrs1) (loc_of_shr_record mrs1)) in *.
  destruct (shr_fexp_located m2 e1 loc_Exact (valueOf m2 e1) Hm2 (Qeq_refl _))
    as (H3 & L3 & E3).
  destruct (shr_fexp prec emax m2 e1 loc_Exact) as [mrs3 e3].
  cbn [fst snd] in H3, L3, E3.
  pose proof (located_ge _ _ _ _ L3) as Hle3.
  destruct (shr_m mrs3) as [ | p3 | p3]; [left; reflexivity | | lia].
  right.
  assert (He3 : (e3 <= eb)%Z).
  { rewrite E3. apply Z.max_lub; [exact Heb1 | ].
    destruct m2 as [ | p2 | p2]; [ | | lia].
    - exfalso. pose proof (valueOf_pos p3 e3) as Hp.
      assert (E0 : valueOf 0 e1 == 0) by (unfold valueOf; ring).
      rewrite E0 in Hle3. lra.
    - apply (fexp_le_bound p2 e1 mb eb Hb Hi). }
  replace (e3 <=? emax - prec)%Z with true by (symmetry; apply Z.leb_le; lia).
  exists p3, e3. split; [reflexivity | ]. split; [ | exact He3].
  apply Qle_trans with (valueOf m2 e1); assumption.
Qed.


End RoundingFacts.

Section ProductFacts.

Import F64.

Lemma valueOf_mul (mx my : positive) (ex ey : Z) :
  valueOf (Zpos (mx * my)) (ex + ey) == valueOf (Zpos mx) ex * valueOf (Zpos my) ey.
Proof.
  unfold valueOf. rewrite Pos2Z.inj_mul, inject_Z_mult, pow2_add. ring.
Qed.

(** A mantissa with 53 digits or more is not shifted below its
    exponent. *)
Lemma enough_digits (p : positive) (e : Z) :
  (2 ^ 52 <= Zpos p)%Z -> (e <= fexp prec emax (Zdigits2 (Zpos p) + e))%Z.
Proof.
  intros H. pose proof (digits_ge p 53 H) as Hd. unfold fexp, prec. lia.
Qed.

(** The product of a positive finite Number with a normal one does not
    pass a Number that is not below the exact product. *)
Lemma mul_le (mx : positive) (ex : Z) (my : positive) (ey : Z)
  (mb : positive) (eb : Z) :
  (2 ^ 52 <= Zpos my)%Z ->
  bounded prec emax mb eb = true ->
  valueOf (Zpos mx) ex * valueOf (Zpos my) ey <= valueOf (Zpos mb) eb ->
  mul (S754_finite false mx ex) (S754_finite false my ey) = S754_zero false \/
  exists m3 e3,
    mul (S754_finite false mx ex) (S754_finite false my ey)
    = S754_finite false m3 e3 /\
    valueOf (Zpos m3) e3 <= valueOf (Zpos mb) eb /\ (e3 <= eb)%Z.
Proof.
  intros Hy Hb Hv. unfold mul, SFmul. cbn [xorb].
  apply (binary_round_aux_le _ _ _ (valueOf (Zpos (mx * my)) (ex + ey))).
  - lia.
  - apply Qeq_refl.
  - apply enough_digits. rewrite Pos2Z.inj_mul. nia.
  - exact Hb.
  - rewrite valueOf_mul. exact Hv.
Qed.

End ProductFacts.

Section QuotientFacts.

Import F64.

Lemma new_location_spec (m2 r : Z) :
  (0 <= r < m2)%Z ->
  match new_location m2 r with
  | loc_Exact => r = 0%Z
  | loc_Inexact Lt => (0 < r)%Z /\ (2 * r < m2)%Z
  | loc_Inexact Eq => (0 < r)%Z /\ (2 * r = m2)%Z
  | loc_Inexact Gt => (0 < r)%Z /\ (m2 < 2 * r)%Z
  end.
Proof.
  intros Hr. unfold new_location, new_location_even, new_location_odd.
  destruct (Z.even m2) eqn:Ee.
  - destruct (Z.eqb_spec r 0) as [E | E]; [exact E | ].
    destruct (Z.compare_spec (2 * r) m2); lia.
  - destruct (Z.eqb_spec r 0) as [E | E]; [exact E | ].
    assert (Ho : Z.odd m2 = true) by (rewrite <- Z.negb_even, Ee; reflexivity).
    apply Z.odd_spec in Ho. destruct Ho as [a Ha].
    destruct (Z.compare_spec (2 * r + 1) m2); lia.
Qed.

(** The quotient of two mantissas and its remainder, as a located
    value. *)
Lemma quotient_located (m' m2 q r e' : Z) :
  (0 < m2)%Z -> m' = (m2 * q + r)%Z -> (0 <= r < m2)%Z ->
  located q e' (new_location m2 r) (inject_Z m' / inject_Z m2 * 2 ^ e').
Proof.
  intros Hm2 E Hr. pose proof (new_location_spec m2 r Hr) as Hl.
  pose proof (pow2_pos e') as He.
  assert (HM : 0 < inject_Z m2) by (change 0 with (inject_Z 0); rewrite <- Zlt_Qlt; exact Hm2).
  assert (Ev : inject_Z m' / inject_Z m2 * 2 ^ e'
               == valueOf q e' + inject_Z r / inject_Z m2 * 2 ^ e').
  { unfold valueOf. rewrite E, inject_Z_plus, inject_Z_mult. field. lra. }
  apply (located_ext _ _ _ _ _ (Qeq_sym _ _ Ev)). clear Ev.
  set (t := inject_Z r / inject_Z m2).
  destruct (new_location m2 r) as [ | [ | | ] ]; cbn [located].
  - subst r. unfold t. change (inject_Z 0) with 0.
    setoid_replace (0 / inject_Z m2) with 0 by (field; lra). ring.
  - destruct Hl as [H0 H2].
    assert (Et : t == 1 # 2).
    { unfold t. rewrite <- H2, inject_Z_mult. change (inject_Z 2) with 2.
      field. intros Hz. rewrite Zlt_Qlt in H0. change (inject_Z 0) with 0 in H0. lra. }
    rewrite Et. ring.
  - destruct Hl as [H0 H2].
    assert (Ht : 0 < t /\ t < 1 # 2).
    { unfold t. split.
      - apply Qlt_shift_div_l; [exact HM | ].
        rewrite Qmult_0_l. change 0 with (inject_Z 0). rewrite <- Zlt_Qlt. exact H0.
      - apply Qlt_shift_div_r; [exact HM | ].
        rewrite Zlt_Qlt, inject_Z_mult in H2. change (inject_Z 2) with 2 in H2. lra. }
    destruct Ht as [Ht0 Ht1]. split.
    + assert (0 < t * 2 ^ e') by (apply Qmult_lt_0_compat; assumption). lra.
    + assert (t * 2 ^ e' < (1 # 2) * 2 ^ e') by (apply Qmult_lt_r; assumption). lra.
  - destruct Hl as [H0 H2].
    assert (Ht : (1 # 2) < t /\ t < 1).
    { unfold t. split.
      - apply Qlt_shift_div_l; [exact HM | ].
        rewrite Zlt_Qlt, inject_Z_mult in H2. change (inject_Z 2) with 2 in H2. lra.
      - apply Qlt_shift_div_r; [exact HM | ].
        rewrite Qmult_1_l. rewrite <- Zlt_Qlt. lia. }
    destruct Ht as [Ht0 Ht1]. split.
    + assert ((1 # 2) * 2 ^ e' < t * 2 ^ e') by (apply Qmult_lt_r; assumption). lra.
    + assert (t * 2 ^ e' < 1 * 2 ^ e') by (apply Qmult_lt_r; assumption). lra.
Qed.

End QuotientFacts.

Section DivisionFacts.

Import F64.

(** The quotient the specification hands to the rounding: it is not
    negative, it locates the exact quotient, and it has the digits the
    format needs. *)
Lemma div_core_spec (m1 m2 : positive) (e1 e2 : Z) :
  let '(q, e', l) := SFdiv_core_binary prec emax (Zpos m1) e1 (Zpos m2) e2 in
  (0 <= q)%Z /\
  located q e' l (valueOf (Zpos m1) e1 / valueOf (Zpos m2) e2) /\
  (e' <= fexp prec emax (Zdigits2 q + e'))%Z.
Proof.
  unfold SFdiv_core_binary.
  set (d1 := Zdigits2 (Zpos m1)). set (d2 := Zdigits2 (Zpos m2)).
  set (e' := Z.min (fexp prec emax (d1 + e1 - (d2 + e2))) (e1 - e2)).
  set (s := (e1 - e2 - e')%Z). cbv zeta.
  assert (Hs : (0 <= s)%Z) by (unfold s, e'; lia).
  set (m' := match s with
             | 0%Z => Zpos m1
             | Zpos _ => Z.shiftl (Zpos m1) s
             | Zneg _ => 0%Z
             end).
  assert (Em' : m' = (Zpos m1 * 2 ^ s)%Z).
  { unfold m'. destruct s as [ | ps | ps] eqn:Es; [lia | | lia].
    apply Z.shiftl_mul_pow2. lia. }
  clearbody m'.
  pose proof (Z_div_mod m' (Zpos m2) eq_refl) as Hd.
  destruct (Z.div_eucl m' (Zpos m2)) as [q r]. destruct Hd as [Eq Hr].
  assert (Hpow : (0 < 2 ^ s)%Z) by (apply Z.pow_pos_nonneg; lia).
  assert (Hq : (0 <= q)%Z) by nia.
  split; [exact Hq | ]. split.
  - assert (Ev : inject_Z m' / inject_Z (Zpos m2) * 2 ^ e'
                 == valueOf (Zpos m1) e1 / valueOf (Zpos m2) e2).
    { assert (E1 : 2 ^ e1 == 2 ^ s * (2 ^ e2 * 2 ^ e')).
      { rewrite <- !pow2_add. replace (s + (e2 + e'))%Z with e1 by (unfold s; lia).
        reflexivity. }
      unfold valueOf. rewrite Em', inject_Z_mult, (pow2_Z s Hs), E1.
      pose proof (pow2_pos e2) as H2.
      assert (HB : 0 < inject_Z (Zpos m2)) by reflexivity.
      field. split; lra. }
    apply (located_ext _ _ _ _ _ Ev).
    apply quotient_located; [reflexivity | exact Eq | exact Hr].
  - destruct (Z.le_gt_cases e' (emin prec emax)) as [Hlow | Hhigh].
    + pose proof (fexp_ge_emin (Zdigits2 q + e')). lia.
    + assert (Hsd : (d1 + s - d2 >= 53)%Z).
      { unfold s, e', fexp, prec in *. lia. }
      destruct (digits_bounds m1) as [Hl1 _]. destruct (digits_bounds m2) as [_ Hu2].
      fold d1 in Hl1. fold d2 in Hu2.
      assert (Hd1 : (0 < d1)%Z) by reflexivity.
      assert (Hd2 : (0 < d2)%Z) by reflexivity.
      assert (Hbig : (2 ^ 52 * 2 ^ d2 <= m')%Z).
      { rewrite Em'. rewrite <- Z.pow_add_r by lia.
        apply Z.le_trans with (2 ^ (d1 - 1) * 2 ^ s)%Z;
          [ | apply Z.mul_le_mono_nonneg_r; lia].
        rewrite <- Z.pow_add_r by lia. apply Z.pow_le_mono_r; lia. }
      assert (Hq52 : (2 ^ 52 <= q)%Z) by nia.
      destruct q as [ | pq | pq]; [lia | | lia].
      apply enough_digits. exact Hq52.
Qed.


(** The Number of a rational between 0 and 1 is zero or a positive
    Number that is at most 1. *)
Lemma ofQ_unit (q : Q) :
  0 <= q <= 1 ->
  ofQ q = zero \/
  exists m e, ofQ q = S754_finite false m e /\ valueOf (Zpos m) e <= 1.
Proof.
  intros [H0 H1]. destruct q as [n d]. unfold ofQ. cbn [Qnum Qden].
  destruct n as [ | n | n].
  - left. reflexivity.
  - pose proof (div_core_spec n d 0 0) as H.
    destruct (SFdiv_core_binary prec emax (Zpos n) 0 (Zpos d) 0) as [ [m e'] l].
    destruct H as (Hq & Hl & HP).
    assert (Hb : bounded prec emax 4503599627370496 (-52) = true) by reflexivity.
    assert (E1 : valueOf 4503599627370496 (-52) == 1) by reflexivity.
    assert (Hv : valueOf (Zpos n) 0 / valueOf (Zpos d) 0
                 <= valueOf 4503599627370496 (-52)).
    { rewrite E1. unfold valueOf. change (2 ^ 0) with 1. rewrite !Qmult_1_r.
      setoid_replace (inject_Z (Zpos n) / inject_Z (Zpos d)) with (Zpos n # d);
        [exact H1 | ].
      rewrite (Qmake_Qdiv (Zpos n) d). reflexivity. }
    destruct (binary_round_aux_le m e' l _ _ _ Hq Hl HP Hb Hv)
      as [E | (m3 & e3 & E & Hle & _)].
    + left. exact E.
    + right. exists m3, e3. split; [exact E | ]. rewrite <- E1. exact Hle.
  - exfalso. unfold Qle in H0. simpl in H0. lia.
Qed.

End DivisionFacts.

Section IntegerFacts.

Import F64.





(** [Math.round] of a positive Number that is at most [k] is a whole
    number from 0 to [k]. *)
Lemma round_le (m : positive) (e k : Z) :
  valueOf (Zpos m) e <= inject_Z k ->
  exists n, (0 <= n <= k)%Z /\ round (S754_finite false m e) = integral false n.
Proof.
  intros Hv. exists (roundHalfUp false m e). split; [ | reflexivity].
  pose proof (valueOf_pos m e) as Hp.
  assert (Hk : (0 < k)%Z).
  { rewrite Zlt_Qlt. change (inject_Z 0) with 0. lra. }
  unfold roundHalfUp, signed. destruct e as [ | pe | pe].
  - unfold valueOf in Hv. change (2 ^ 0) with 1 in Hv. rewrite Qmult_1_r in Hv.
    rewrite <- Zle_Qle in Hv. lia.
  - assert (Hpow : (0 < 2 ^ Zpos pe)%Z) by (apply Z.pow_pos_nonneg; lia).
    unfold valueOf in Hv. rewrite <- pow2_Z, <- inject_Z_mult in Hv by lia.
    rewrite <- Zle_Qle in Hv. nia.
  - assert (Hpow : (0 < 2 ^ Zpos pe)%Z) by (apply Z.pow_pos_nonneg; lia).
    assert (Hm : (Zpos m <= k * 2 ^ Zpos pe)%Z).
    { apply (valueOf_le (Zpos m) (k * 2 ^ Zpos pe) (Zneg pe)).
      rewrite <- (valueOf_shift k (Zneg pe) (Zpos pe)) by lia.
      replace (Zneg pe + Zpos pe)%Z with 0%Z by lia.
      unfold valueOf at 2. change (2 ^ 0) with 1. rewrite Qmult_1_r. exact Hv. }
    rewrite Z.pow_add_r by lia. change (2 ^ 1)%Z with 2%Z. split.
    + apply Z.div_pos; lia.
    + apply Z.lt_succ_r. apply Z.div_lt_upper_bound; [lia | ]. nia.
Qed.

Lemma hundred : ofZ 100 = S754_finite false 7036874417766400 (-46).
Proof. reflexivity. Qed.

(** A hundred times a Number between 0 and 1, rounded, is a whole
    number from 0 to 100. *)
Lemma percent_of_unit (x : f64) :
  x = zero \/ (exists m e, x = S754_finite false m e /\ valueOf (Zpos m) e <= 1) ->
  exists n, (0 <= n <= 100)%Z /\ round (mul x (ofZ 100)) = integral false n.
Proof.
  rewrite hundred. intros [-> | (m & e & -> & Hv)].
  - exists 0%Z. split; [lia | reflexivity].
  - assert (Hb : bounded prec emax 7036874417766400 (-46) = true) by reflexivity.
    assert (E100 : valueOf 7036874417766400 (-46) == 100) by reflexivity.
    assert (Hle : valueOf (Zpos m) e * valueOf 7036874417766400 (-46)
                  <= valueOf 7036874417766400 (-46)).
    { rewrite E100. lra. }
    destruct (mul_le m e 7036874417766400 (-46) _ _ ltac:(lia) Hb Hle)
      as [-> | (m3 & e3 & -> & Hle3 & _)].
    + exists 0%Z. split; [lia | reflexivity].
    + apply round_le. rewrite E100 in Hle3. exact Hle3.
Qed.

End IntegerFacts.

Section OrderFacts.

Import F64.









End OrderFacts.

(* ------------------------------------------------------------------ *)
(** ** The mortgage payment *)

Section ScenarioExplorerFacts.

Import F64 ScenarioExplorer.

Variable pow : f64 -> f64 -> f64.

Lemma div_by_zero (a : f64) : isFinite (div a zero) = false.
Proof. destruct a as [s | s | | s m e]; reflexivity. Qed.

(** C8, amended.  At a rate of zero, of either sign, the payment is
    [principal / (termYears * 12)], by the guarded branch; the
    amortization formula is evaluated exactly when the monthly rate [r]
    is not zero; and the guard does not keep its denominator from zero:
    whenever [Math.pow(1 + r, n)] is 1 at a rate [r] other than zero the
    denominator is zero and the result is an infinity or NaN, not a
    finite number. *)
Theorem monthlyPayment_zero_rate_guard (principal annualRatePct termYears : f64) :
  let r := div (div annualRatePct (ofZ 100)) (ofZ 12) in
  let n := mul termYears (ofZ 12) in
  let g := pow (add (ofZ 1) r) n in
  (forall s, monthlyPayment pow principal (S754_zero s) termYears
             = div principal n) /\
  (strictEq r zero = true ->
   monthlyPayment pow principal annualRatePct termYears = div principal n) /\
  (strictEq r zero = false ->
   monthlyPayment pow principal annualRatePct termYears
   = div (mul (mul principal r) g) (sub g (ofZ 1))) /\
  (strictEq r zero = false -> g = ofZ 1 ->
   sub g (ofZ 1) = zero /\
   isFinite (monthlyPayment pow principal annualRatePct termYears) = false).
Proof.
  cbv zeta. split; [ | split; [ | split] ].
  - intros s. destruct s; reflexivity.
  - intros E. unfold monthlyPayment. cbv zeta. rewrite E. reflexivity.
  - intros E. unfold monthlyPayment. cbv zeta. rewrite E. reflexivity.
  - intros E Hg. unfold monthlyPayment. cbv zeta. rewrite E, Hg.
    split; [reflexivity | ].
    change (sub (ofZ 1) (ofZ 1)) with zero. apply div_by_zero.
Qed.

End ScenarioExplorerFacts.

(** C8 as stated fails.  At an annual rate of 1e-14 percent the monthly
    rate is not zero, so the guard does not apply, but [1 + r] rounds to
    1: with [Math.pow(1, 360)] being 1 the denominator is zero and the
    payment on 208000 over 30 years is [Infinity].  At -2400 percent
    the monthly rate is -2 and [1 + r] is -1: with [Math.pow(-1, 360)]
    being 1 the payment is [-Infinity]. *)
Lemma monthlyPayment_divides_by_zero :
  let tiny := F64.ofQ (1 # 100000000000000) in
  let r := F64.div (F64.div tiny (F64.ofZ 100)) (F64.ofZ 12) in
  (F64.strictEq r F64.zero = false /\
   F64.add (F64.ofZ 1) r = F64.ofZ 1 /\
   forall pow, pow (F64.ofZ 1) (F64.ofZ 360) = F64.ofZ 1 ->
     ScenarioExplorer.monthlyPayment pow (F64.ofZ 208000) tiny (F64.ofZ 30)
     = F64.Infinity) /\
  (F64.div (F64.div (F64.ofZ (-2400)) (F64.ofZ 100)) (F64.ofZ 12) = F64.ofZ (-2) /\
   forall pow, pow (F64.ofZ (-1)) (F64.ofZ 360) = F64.ofZ 1 ->
     ScenarioExplorer.monthlyPayment pow (F64.ofZ 208000) (F64.ofZ (-2400))
       (F64.ofZ 30)
     = S754_infinity true).
Proof.
  cbv zeta. split.
  - split; [vm_compute; reflexivity | ]. split; [vm_compute; reflexivity | ].
    intros pow H. unfold ScenarioExplorer.monthlyPayment. cbv zeta.
    replace (F64.add (F64.ofZ 1)
               (F64.div (F64.div (F64.ofQ (1 # 100000000000000)) (F64.ofZ 100))
                  (F64.ofZ 12)))
      with (F64.ofZ 1) by (vm_compute; reflexivity).
    replace (F64.mul (F64.ofZ 30) (F64.ofZ 12)) with (F64.ofZ 360)
      by (vm_compute; reflexivity).
    rewrite H. vm_compute. reflexivity.
  - split; [vm_compute; reflexivity | ].
    intros pow H. unfold ScenarioExplorer.monthlyPayment. cbv zeta.
    replace (F64.add (F64.ofZ 1)
               (F64.div (F64.div (F64.ofZ (-2400)) (F64.ofZ 100)) (F64.ofZ 12)))
      with (F64.ofZ (-1)) by (vm_compute; reflexivity).
    replace (F64.mul (F64.ofZ 30) (F64.ofZ 12)) with (F64.ofZ 360)
      by (vm_compute; reflexivity).
    rewrite H. vm_compute. reflexivity.
Qed.

(* ------------------------------------------------------------------ *)
(** ** The stream reader *)

Section SseFacts.

Import Js Sse.

(** Induction two code units at a time, as the scanners recurse. *)
Lemma jsstring_ind2 (P : jsstring -> Prop) :
  P [] -> (forall c, P [c]) ->
  (forall c d r, P (d :: r) -> P r -> P (c :: d :: r)) ->
  forall s, P s.
Proof.
  intros H0 H1 H2 s.
  assert (H : P s /\ forall c, P (c :: s)).
  { induction s as [ | d r [IH1 IH2] ].
    - split; [exact H0 | exact H1].
    - split; [apply IH2 | ]. intros c. apply H2; [apply IH2 | exact IH1]. }
  exact (proj1 H).
Qed.

Lemma splitBlank_nonempty (s : jsstring) : splitBlank s <> [].
Proof.
  induction s as [ | c | c d r IH1 IH2] using jsstring_ind2.
  - discriminate.
  - discriminate.
  - change (splitBlank (c :: d :: r))
      with (if ((c =? 10) && (d =? 10))%N then [] :: splitBlank r
            else consHead c (splitBlank (d :: r))).
    destruct ((c =? 10) && (d =? 10))%N; [discriminate | ].
    destruct (splitBlank (d :: r)); [contradiction | discriminate].
Qed.

Lemma splitBlank_cons2 (c d : N) (r : jsstring) :
  splitBlank (c :: d :: r)
  = if ((c =? 10) && (d =? 10))%N then [] :: splitBlank r
    else consHead c (splitBlank (d :: r)).
Proof. reflexivity. Qed.

Lemma replaceCRLF_cons2 (c d : N) (r : jsstring) :
  replaceCRLF (c :: d :: r)
  = if ((c =? 13) && (d =? 10))%N then 10%N :: replaceCRLF r
    else c :: replaceCRLF (d :: r).
Proof. reflexivity. Qed.

(** The parts taken off the front of a buffer stay what they are
    whatever text replaces its last part. *)
Lemma splitBlank_front (x : jsstring) :
  forall ps b, splitBlank x = ps ++ [b] ->
  exists pre,
    x = pre ++ b /\
    (pre = [] \/ exists u, pre = u ++ [10%N]) /\
    (ps = [] <-> pre = []) /\
    forall w, splitBlank (pre ++ w) = ps ++ splitBlank w.
Proof.
  induction x as [ | c | c d r IH1 IH2] using jsstring_ind2; intros ps b H.
  - destruct ps as [ | p [ | q ps] ]; simpl in H; try discriminate H.
    injection H as <-. exists []. split; [reflexivity | ].
    split; [left; reflexivity | ]. split; [tauto | reflexivity].
  - destruct ps as [ | p [ | q ps] ]; simpl in H; try discriminate H.
    injection H as <-. exists []. split; [reflexivity | ].
    split; [left; reflexivity | ]. split; [tauto | reflexivity].
  - rewrite splitBlank_cons2 in H.
    destruct ((c =? 10) && (d =? 10))%N eqn:E.
    + apply andb_true_iff in E. destruct E as [Ec Ed].
      apply N.eqb_eq in Ec, Ed. subst c d.
      destruct ps as [ | p ps]; simpl in H.
      * injection H as _ H. exfalso. exact (splitBlank_nonempty r H).
      * injection H as <- H.
        destruct (IH2 ps b H) as (pre & Ex & Hend & Hne & Hw).
        exists (10%N :: 10%N :: pre). split; [simpl; congruence | ].
        split; [ | split; [split; discriminate | ] ].
        -- right. destruct Hend as [-> | (u & ->)].
           ++ exists [10%N]. reflexivity.
           ++ exists (10%N :: 10%N :: u). reflexivity.
        -- intros w. simpl app. rewrite splitBlank_cons2. simpl. rewrite Hw.
           reflexivity.
    + destruct (splitBlank (d :: r)) as [ | q qs] eqn:Es;
        [exfalso; exact (splitBlank_nonempty _ Es) | ].
      simpl in H.
      destruct (exists_last (l := q :: qs)) as (front & b' & Efront);
        [discriminate | ].
      destruct (IH1 front b' Efront) as (pre & Ex & Hend & Hne & Hw).
      destruct front as [ | f front].
      * simpl in Efront. injection Efront as -> ->.
        destruct ps as [ | p [ | p' ps] ]; simpl in H; try discriminate H.
        injection H as <-.
        assert (Hpre : pre = []) by (apply Hne; reflexivity). subst pre.
        exists []. split; [simpl in Ex; simpl; congruence | ].
        split; [left; reflexivity | ]. split; [tauto | reflexivity].
      * simpl in Efront. injection Efront as -> ->.
        assert (Hp : ps = (c :: f) :: front /\ b = b').
        { change ((c :: f) :: front ++ [b']) with (((c :: f) :: front) ++ [b']) in H.
          apply app_inj_tail in H. destruct H; split; congruence. }
        destruct Hp as [-> ->].
        assert (Hpre : pre <> []).
        { intros Ep. apply Hne in Ep. discriminate Ep. }
        exists (c :: pre). split; [simpl; congruence | ].
        split; [ | split; [split; discriminate | ] ].
        -- right. destruct Hend as [-> | (u & ->)]; [contradiction | ].
           exists (c :: u). reflexivity.
        -- intros w. destruct pre as [ | e pre]; [contradiction | ].
           assert (Ee : e = d) by (simpl in Ex; congruence). subst e.
           simpl app. rewrite splitBlank_cons2, E.
           change (d :: pre ++ w) with ((d :: pre) ++ w). rewrite Hw.
           reflexivity.
Qed.

End SseFacts.

Section SseNormalFacts.

Import Js Sse.

Lemma replaceCRLF_cons_other (c : N) (t : jsstring) :
  c <> 13%N -> replaceCRLF (c :: t) = c :: replaceCRLF t.
Proof.
  intros Hc. destruct t as [ | d t]; [reflexivity | ].
  rewrite replaceCRLF_cons2.
  destruct (N.eqb_spec c 13); [contradiction | reflexivity].
Qed.

Lemma noCRCRLF_tail (c : N) (r : jsstring) :
  noCRCRLF (c :: r) = true -> noCRCRLF r = true.
Proof.
  destruct r as [ | d [ | e r] ]; try reflexivity.
  intros H. change (noCRCRLF (c :: d :: e :: r))
    with (negb ((c =? 13) && (d =? 13) && (e =? 10))%N && noCRCRLF (d :: e :: r)) in H.
  apply andb_true_iff in H. exact (proj2 H).
Qed.

Lemma noCRCRLF_app_l (a b : jsstring) :
  noCRCRLF (a ++ b) = true -> noCRCRLF a = true.
Proof.
  induction a as [ | c | c d r IH1 IH2] using jsstring_ind2; intros H;
    try reflexivity.
  destruct r as [ | e r]; [reflexivity | ].
  change (noCRCRLF (c :: d :: e :: r))
    with (negb ((c =? 13) && (d =? 13) && (e =? 10))%N && noCRCRLF (d :: e :: r)).
  change (noCRCRLF ((c :: d :: e :: r) ++ b))
    with (negb ((c =? 13) && (d =? 13) && (e =? 10))%N
          && noCRCRLF ((d :: e :: r) ++ b)) in H.
  apply andb_true_iff in H. destruct H as [H1 H2].
  rewrite H1. simpl. apply IH1, H2.
Qed.

Lemma noCRLF_app_l (a b : jsstring) :
  noCRLF (a ++ b) = true -> noCRLF a = true.
Proof.
  induction a as [ | c | c d r IH1 IH2] using jsstring_ind2; intros H;
    try reflexivity.
  change (noCRLF (c :: d :: r))
    with (negb ((c =? 13) && (d =? 10))%N && noCRLF (d :: r)).
  change (noCRLF ((c :: d :: r) ++ b))
    with (negb ((c =? 13) && (d =? 10))%N && noCRLF ((d :: r) ++ b)) in H.
  apply andb_true_iff in H. destruct H as [H1 H2].
  rewrite H1. simpl. apply IH1, H2.
Qed.

(** What the replacement leaves at the head of a non-empty text. *)
Lemma replaceCRLF_head (d : N) (r : jsstring) :
  (d = 13%N /\ exists r', r = 10%N :: r' /\
                          replaceCRLF (d :: r) = 10%N :: replaceCRLF r') \/
  (exists rest, replaceCRLF (d :: r) = d :: rest).
Proof.
  destruct r as [ | e r]; [right; exists []; reflexivity | ].
  rewrite replaceCRLF_cons2.
  destruct (N.eqb_spec d 13) as [-> | Hd]; simpl.
  - destruct (N.eqb_spec e 10) as [-> | He].
    + left. split; [reflexivity | ]. exists r. split; reflexivity.
    + right. eexists. reflexivity.
  - right. eexists. reflexivity.
Qed.

(** Replacing again after more text has arrived gives what one
    replacement of the whole gives. *)
Lemma replaceCRLF_twice (t : jsstring) :
  noCRCRLF t = true ->
  forall z, replaceCRLF (replaceCRLF t ++ z) = replaceCRLF (t ++ z).
Proof.
  induction t as [ | c | c d r IH1 IH2] using jsstring_ind2; intros H z.
  - reflexivity.
  - reflexivity.
  - pose proof (noCRCRLF_tail _ _ H) as H1.
    pose proof (noCRCRLF_tail _ _ H1) as H2.
    rewrite replaceCRLF_cons2.
    change ((c :: d :: r) ++ z) with (c :: d :: (r ++ z)).
    rewrite replaceCRLF_cons2.
    destruct ((c =? 13) && (d =? 10))%N eqn:E.
    + simpl app. rewrite replaceCRLF_cons_other by discriminate.
      rewrite (IH2 H2). reflexivity.
    + change (d :: r ++ z) with ((d :: r) ++ z). rewrite <- (IH1 H1).
      destruct (replaceCRLF_head d r) as [(Ed & r' & Er & Eh) | (rest & Eh)].
      * subst d r. rewrite Eh.
        assert (Hc : c <> 13%N).
        { intros ->. destruct r' as [ | e r'].
          - discriminate H.
          - change (noCRCRLF (13%N :: 13%N :: 10%N :: e :: r'))
              with (false && noCRCRLF (13%N :: 10%N :: e :: r')) in H.
            discriminate H. }
        simpl app. rewrite replaceCRLF_cons_other by exact Hc. reflexivity.
      * rewrite Eh. simpl app. rewrite replaceCRLF_cons2, E. reflexivity.
Qed.

Lemma replaceCRLF_noCRLF (t : jsstring) :
  noCRCRLF t = true -> noCRLF (replaceCRLF t) = true.
Proof.
  induction t as [ | c | c d r IH1 IH2] using jsstring_ind2; intros H.
  - reflexivity.
  - reflexivity.
  - pose proof (noCRCRLF_tail _ _ H) as H1.
    pose proof (noCRCRLF_tail _ _ H1) as H2.
    rewrite replaceCRLF_cons2.
    destruct ((c =? 13) && (d =? 10))%N eqn:E.
    + specialize (IH2 H2). destruct (replaceCRLF r) as [ | e t]; [reflexivity | ].
      change (noCRLF (10%N :: e :: t))
        with (negb ((10 =? 13) && (e =? 10))%N && noCRLF (e :: t)).
      simpl. exact IH2.
    + specialize (IH1 H1).
      destruct (replaceCRLF_head d r) as [(Ed & r' & Er & Eh) | (rest & Eh)].
      * subst d r. rewrite Eh in *.
        assert (Hc : (c =? 13)%N = false).
        { destruct (N.eqb_spec c 13) as [-> | ]; [ | reflexivity].
          destruct r' as [ | e r'].
          - discriminate H.
          - change (noCRCRLF (13%N :: 13%N :: 10%N :: e :: r'))
              with (false && noCRCRLF (13%N :: 10%N :: e :: r')) in H.
            discriminate H. }
        change (noCRLF (c :: 10%N :: replaceCRLF r'))
          with (negb ((c =? 13) && (10 =? 10))%N && noCRLF (10%N :: replaceCRLF r')).
        rewrite Hc. simpl. exact IH1.
      * rewrite Eh in *.
        change (noCRLF (c :: d :: rest))
          with (negb ((c =? 13) && (d =? 10))%N && noCRLF (d :: rest)).
        rewrite E. simpl. exact IH1.
Qed.

(** A prefix that is already clean and ends a line is not touched. *)
Lemma replaceCRLF_clean_prefix (pre : jsstring) :
  noCRLF pre = true ->
  (pre = [] \/ exists u, pre = u ++ [10%N]) ->
  forall z, replaceCRLF (pre ++ z) = pre ++ replaceCRLF z.
Proof.
  induction pre as [ | c | c d r IH1 IH2] using jsstring_ind2; intros H Hend z.
  - reflexivity.
  - destruct Hend as [E | (u & E)]; [discriminate E | ].
    assert (Ec : c = 10%N).
    { destruct u as [ | a [ | b u] ]; simpl in E; try congruence;
        destruct u; discriminate E. }
    subst c. simpl app. apply replaceCRLF_cons_other. discriminate.
  - change (noCRLF (c :: d :: r))
      with (negb ((c =? 13) && (d =? 10))%N && noCRLF (d :: r)) in H.
    apply andb_true_iff in H. destruct H as [Hcd H1].
    apply negb_true_iff in Hcd.
    change ((c :: d :: r) ++ z) with (c :: d :: (r ++ z)).
    rewrite replaceCRLF_cons2, Hcd.
    change (d :: r ++ z) with ((d :: r) ++ z). rewrite IH1; [reflexivity | exact H1 | ].
    right. destruct Hend as [E | (u & E)]; [discriminate E | ].
    destruct u as [ | a u]; [discriminate E | ].
    simpl in E. injection E as _ E. exists u. exact E.
Qed.

End SseNormalFacts.

Section SseReaderFacts.

Import Js Sse.

Lemma framesOf_app (a b : list jsstring) :
  framesOf (a ++ b) = framesOf a ++ framesOf b.
Proof.
  induction a as [ | p a IH]; simpl; [reflexivity | ].
  destruct (parseFrame p); simpl; rewrite IH; reflexivity.
Qed.

(** One turn of the loop extends the parts of the text read so far. *)
Lemma readChunk_step (t : jsstring) (ps : list jsstring) (buf chunk : jsstring)
  (seen : list (jsstring * jsstring)) :
  splitBlank (replaceCRLF t) = ps ++ [buf] ->
  noCRCRLF (t ++ chunk) = true ->
  exists qs,
    splitBlank (replaceCRLF (t ++ chunk))
    = (ps ++ qs) ++ [fst (readChunk (buf, seen) chunk)] /\
    snd (readChunk (buf, seen) chunk) = seen ++ framesOf qs.
Proof.
  intros Hsplit Hclean.
  pose proof (noCRCRLF_app_l _ _ Hclean) as Ht.
  destruct (splitBlank_front _ _ _ Hsplit) as (pre & Ex & Hend & _ & Hw).
  assert (Hpre : noCRLF pre = true).
  { apply (noCRLF_app_l pre buf). rewrite <- Ex. apply replaceCRLF_noCRLF, Ht. }
  assert (E : replaceCRLF (t ++ chunk) = pre ++ replaceCRLF (buf ++ chunk)).
  { rewrite <- (replaceCRLF_twice t Ht), Ex, <- app_assoc.
    apply replaceCRLF_clean_prefix; assumption. }
  unfold readChunk. cbv zeta. simpl fst. simpl snd.
  exists (removelast (splitBlank (replaceCRLF (buf ++ chunk)))).
  split; [ | reflexivity].
  rewrite E, Hw, <- app_assoc. f_equal.
  apply app_removelast_last, splitBlank_nonempty.
Qed.

Lemma readAll_from (chunks : list jsstring) :
  forall t ps buf seen,
    splitBlank (replaceCRLF t) = ps ++ [buf] ->
    noCRCRLF (t ++ List.concat chunks) = true ->
    exists qs,
      splitBlank (replaceCRLF (t ++ List.concat chunks))
      = (ps ++ qs) ++ [fst (fold_left readChunk chunks (buf, seen))] /\
      snd (fold_left readChunk chunks (buf, seen)) = seen ++ framesOf qs.
Proof.
  induction chunks as [ | c chunks IH]; intros t ps buf seen Hsplit Hclean.
  - exists []. simpl. rewrite !app_nil_r. split; [exact Hsplit | reflexivity].
  - simpl List.concat in *. rewrite app_assoc in Hclean.
    destruct (readChunk_step t ps buf c seen Hsplit (noCRCRLF_app_l _ _ Hclean))
      as (qs & Hs & Hseen).
    change (fold_left readChunk (c :: chunks) (buf, seen))
      with (fold_left readChunk chunks (readChunk (buf, seen) c)).
    destruct (readChunk (buf, seen) c) as [buf1 seen1] eqn:Er.
    simpl fst in Hs. simpl snd in Hseen.
    destruct (IH (t ++ c) (ps ++ qs) buf1 seen1 Hs Hclean) as (rs & Hs' & Hseen').
    exists (qs ++ rs). rewrite app_assoc. split.
    + rewrite Hs'. rewrite <- !app_assoc. reflexivity.
    + rewrite Hseen', Hseen, framesOf_app, app_assoc. reflexivity.
Qed.

(** What the loop comes to: the parts of the whole text, with its line
    endings replaced once, the last one left in the buffer. *)
Lemma readAll_whole (chunks : list jsstring) :
  noCRCRLF (List.concat chunks) = true ->
  readAll chunks
  = (last (splitBlank (replaceCRLF (List.concat chunks))) [],
     framesOf (removelast (splitBlank (replaceCRLF (List.concat chunks))))).
Proof.
  intros H.
  destruct (readAll_from chunks [] [] [] [] eq_refl H) as (qs & Hs & Hseen).
  change (fold_left readChunk chunks ([], [])) with (readAll chunks) in Hs, Hseen.
  destruct (readAll chunks) as [b seen].
  cbn [fst snd app] in Hs, Hseen.
  rewrite Hs, last_last, removelast_last, Hseen. reflexivity.
Qed.

(** X1.  However the text of the stream is cut into chunks, the frames
    that reach [JSON.parse], and the text left in the buffer, are the
    same, provided no carriage return is doubled in front of a line
    feed. *)
Theorem reader_chunking_irrelevant (chunks chunks' : list jsstring) :
  List.concat chunks = List.concat chunks' ->
  noCRCRLF (List.concat chunks) = true ->
  readAll chunks = readAll chunks'.
Proof.
  intros E H. rewrite (readAll_whole chunks H).
  rewrite E in H. rewrite (readAll_whole chunks' H), E. reflexivity.
Qed.

End SseReaderFacts.

Section SseDecodeFacts.

Import Js Sse.

Lemma oneLine_chars (s : jsstring) :
  oneLine s -> ~ In 10%N s /\ ~ In 13%N s.
Proof.
  unfold oneLine. intros H. rewrite forallb_forall in H.
  split; intros Hin; apply H in Hin; discriminate Hin.
Qed.

Lemma not_in_app (c : N) (a b : jsstring) :
  ~ In c a -> ~ In c b -> ~ In c (a ++ b).
Proof. intros Ha Hb Hin. apply in_app_or in Hin. tauto. Qed.

Lemma replaceCRLF_segment (x : jsstring) :
  ~ In 13%N x -> forall z, replaceCRLF (x ++ z) = x ++ replaceCRLF z.
Proof.
  induction x as [ | c x IH]; intros H z; [reflexivity | ].
  simpl app. rewrite replaceCRLF_cons_other.
  - rewrite IH; [reflexivity | ]. intros Hin. apply H. right. exact Hin.
  - intros ->. apply H. left. reflexivity.
Qed.

Lemma replaceCRLF_eol (eol : jsstring) :
  lineEnding eol -> forall z, replaceCRLF (eol ++ z) = 10%N :: replaceCRLF z.
Proof.
  intros [-> | ->] z; simpl app.
  - apply replaceCRLF_cons_other. discriminate.
  - apply replaceCRLF_cons2.
Qed.

Lemma noCRCRLF_cons_other (c : N) (z : jsstring) :
  c <> 13%N -> noCRCRLF (c :: z) = noCRCRLF z.
Proof.
  intros Hc. destruct z as [ | d [ | e z] ]; try reflexivity.
  change (noCRCRLF (c :: d :: e :: z))
    with (negb ((c =? 13) && (d =? 13) && (e =? 10))%N && noCRCRLF (d :: e :: z)).
  destruct (N.eqb_spec c 13); [contradiction | reflexivity].
Qed.

Lemma noCRCRLF_segment (x : jsstring) :
  ~ In 13%N x -> forall z, noCRCRLF (x ++ z) = noCRCRLF z.
Proof.
  induction x as [ | c x IH]; intros H z; [reflexivity | ].
  simpl app. rewrite noCRCRLF_cons_other.
  - apply IH. intros Hin. apply H. right. exact Hin.
  - intros ->. apply H. left. reflexivity.
Qed.

Lemma noCRCRLF_eol (eol : jsstring) :
  lineEnding eol -> forall z, noCRCRLF (eol ++ z) = noCRCRLF z.
Proof.
  intros [-> | ->] z; simpl app.
  - apply noCRCRLF_cons_other. discriminate.
  - destruct z as [ | e z]; [reflexivity | ].
    change (noCRCRLF (13%N :: 10%N :: e :: z))
      with (true && noCRCRLF (10%N :: e :: z)).
    rewrite noCRCRLF_cons_other by discriminate. reflexivity.
Qed.

Lemma event_label_chars : ~ In 10%N (lit "event: ") /\ ~ In 13%N (lit "event: ").
Proof. split; simpl; intuition discriminate. Qed.

Lemma data_label_chars : ~ In 10%N (lit "data: ") /\ ~ In 13%N (lit "data: ").
Proof. split; simpl; intuition discriminate. Qed.

Lemma event_line_chars (t : jsstring) :
  oneLine t ->
  ~ In 10%N (lit "event: " ++ t) /\ ~ In 13%N (lit "event: " ++ t).
Proof.
  intros H. destruct (oneLine_chars t H). destruct event_label_chars.
  split; apply not_in_app; assumption.
Qed.

Lemma data_line_chars (d : jsstring) :
  oneLine d ->
  ~ In 10%N (lit "data: " ++ d) /\ ~ In 13%N (lit "data: " ++ d).
Proof.
  intros H. destruct (oneLine_chars d H). destruct data_label_chars.
  split; apply not_in_app; assumption.
Qed.

(** The text of a frame body, as its two lines. *)
Lemma frameBody_lines (eol : jsstring) (f : jsstring * jsstring) (z : jsstring) :
  frameBody eol f ++ z
  = (lit "event: " ++ fst f) ++ eol ++ (lit "data: " ++ snd f) ++ z.
Proof. unfold frameBody. rewrite <- !app_assoc. reflexivity. Qed.

Lemma replaceCRLF_body (eol : jsstring) (f : jsstring * jsstring) :
  lineEnding eol -> oneLineFrame f ->
  forall z, replaceCRLF (frameBody eol f ++ z)
            = frameBody [10%N] f ++ replaceCRLF z.
Proof.
  intros He [Ht Hd] z. rewrite !frameBody_lines.
  rewrite (replaceCRLF_segment _ (proj2 (event_line_chars _ Ht))).
  rewrite (replaceCRLF_eol eol He).
  rewrite (replaceCRLF_segment _ (proj2 (data_line_chars _ Hd))).
  reflexivity.
Qed.

Lemma noCRCRLF_body (eol : jsstring) (f : jsstring * jsstring) :
  lineEnding eol -> oneLineFrame f ->
  forall z, noCRCRLF (frameBody eol f ++ z) = noCRCRLF z.
Proof.
  intros He [Ht Hd] z. rewrite frameBody_lines.
  rewrite (noCRCRLF_segment _ (proj2 (event_line_chars _ Ht))).
  rewrite (noCRCRLF_eol eol He).
  apply (noCRCRLF_segment _ (proj2 (data_line_chars _ Hd))).
Qed.

Lemma replaceCRLF_frame (eol : jsstring) (f : jsstring * jsstring) :
  lineEnding eol -> oneLineFrame f ->
  forall z, replaceCRLF (encodeFrame eol f ++ z)
            = encodeFrame [10%N] f ++ replaceCRLF z.
Proof.
  intros He Hf z. unfold encodeFrame. rewrite <- !app_assoc.
  rewrite (replaceCRLF_body eol f He Hf).
  rewrite !(replaceCRLF_eol eol He). reflexivity.
Qed.

Lemma noCRCRLF_frame (eol : jsstring) (f : jsstring * jsstring) :
  lineEnding eol -> oneLineFrame f ->
  forall z, noCRCRLF (encodeFrame eol f ++ z) = noCRCRLF z.
Proof.
  intros He Hf z. unfold encodeFrame. rewrite <- !app_assoc.
  rewrite (noCRCRLF_body eol f He Hf).
  rewrite !(noCRCRLF_eol eol He). reflexivity.
Qed.

Lemma replaceCRLF_stream (eol : jsstring) (fs : list (jsstring * jsstring)) :
  lineEnding eol -> Forall oneLineFrame fs ->
  forall z, replaceCRLF (encodeStream eol fs ++ z)
            = encodeStream [10%N] fs ++ replaceCRLF z.
Proof.
  intros He Hfs z. induction Hfs as [ | f fs Hf _ IH]; [reflexivity | ].
  unfold encodeStream in *. cbn [map List.concat].
  rewrite <- !app_assoc. rewrite (replaceCRLF_frame eol f He Hf), IH.
  reflexivity.
Qed.

Lemma noCRCRLF_stream (eol : jsstring) (fs : list (jsstring * jsstring)) :
  lineEnding eol -> Forall oneLineFrame fs ->
  forall z, noCRCRLF (encodeStream eol fs ++ z) = noCRCRLF z.
Proof.
  intros He Hfs z. induction Hfs as [ | f fs Hf _ IH]; [reflexivity | ].
  unfold encodeStream in *. cbn [map List.concat].
  rewrite <- !app_assoc. rewrite (noCRCRLF_frame eol f He Hf). exact IH.
Qed.

End SseDecodeFacts.

Section SseRoundTrip.

Import Js Sse.

Lemma consHead_cons (c : N) (p : jsstring) (ps : list jsstring) :
  consHead c (p :: ps) = (c :: p) :: ps.
Proof. reflexivity. Qed.

Lemma splitBlank_cons_other (c : N) (z : jsstring) :
  c <> 10%N -> z <> [] -> splitBlank (c :: z) = consHead c (splitBlank z).
Proof.
  intros Hc Hz. destruct z as [ | d z]; [contradiction | ].
  rewrite splitBlank_cons2.
  destruct (N.eqb_spec c 10); [contradiction | reflexivity].
Qed.

(** A line, then a blank line. *)
Lemma splitBlank_line (a : jsstring) :
  ~ In 10%N a ->
  forall w, splitBlank (a ++ 10%N :: 10%N :: w) = a :: splitBlank w.
Proof.
  induction a as [ | c a IH]; intros H w; [reflexivity | ].
  simpl app. rewrite splitBlank_cons_other.
  - rewrite IH; [reflexivity | ]. intros Hin. apply H. right. exact Hin.
  - intros ->. apply H. left. reflexivity.
  - destruct a; discriminate.
Qed.

(** Two lines, then a blank line. *)
Lemma splitBlank_two_lines (a b : jsstring) :
  ~ In 10%N a -> ~ In 10%N b -> b <> [] ->
  forall w, splitBlank (a ++ 10%N :: b ++ 10%N :: 10%N :: w)
            = (a ++ 10%N :: b) :: splitBlank w.
Proof.
  intros Ha Hb Hne w. induction a as [ | c a IH].
  - simpl app. destruct b as [ | e b]; [contradiction | ].
    simpl app. rewrite splitBlank_cons2.
    destruct (N.eqb_spec e 10) as [-> | He]; [exfalso; apply Hb; left; reflexivity | ].
    rewrite andb_false_r.
    change (e :: b ++ 10%N :: 10%N :: w) with ((e :: b) ++ 10%N :: 10%N :: w).
    rewrite (splitBlank_line (e :: b) Hb). reflexivity.
  - simpl app. rewrite splitBlank_cons_other.
    + rewrite IH; [reflexivity | ]. intros Hin. apply Ha. right. exact Hin.
    + intros ->. apply Ha. left. reflexivity.
    + destruct a; discriminate.
Qed.

Lemma splitBlank_line_end (b : jsstring) :
  ~ In 10%N b -> splitBlank (b ++ [10%N]) = [b ++ [10%N]].
Proof.
  induction b as [ | c b IH]; intros H; [reflexivity | ].
  simpl app. rewrite splitBlank_cons_other.
  - rewrite IH; [reflexivity | ]. intros Hin. apply H. right. exact Hin.
  - intros ->. apply H. left. reflexivity.
  - destruct b; discriminate.
Qed.

(** Two lines without the blank line after them are one part. *)
Lemma splitBlank_two_lines_end (a b : jsstring) :
  ~ In 10%N a -> ~ In 10%N b -> b <> [] ->
  splitBlank (a ++ 10%N :: b ++ [10%N]) = [a ++ 10%N :: b ++ [10%N]].
Proof.
  intros Ha Hb Hne. induction a as [ | c a IH].
  - simpl app. destruct b as [ | e b]; [contradiction | ].
    simpl app. rewrite splitBlank_cons2.
    destruct (N.eqb_spec e 10) as [-> | He]; [exfalso; apply Hb; left; reflexivity | ].
    rewrite andb_false_r.
    change (e :: b ++ [10%N]) with ((e :: b) ++ [10%N]).
    rewrite (splitBlank_line_end (e :: b) Hb). reflexivity.
  - simpl app. rewrite splitBlank_cons_other.
    + rewrite IH; [reflexivity | ]. intros Hin. apply Ha. right. exact Hin.
    + intros ->. apply Ha. left. reflexivity.
    + destruct a; discriminate.
Qed.

Lemma splitLines_line (a : jsstring) :
  ~ In 10%N a -> forall w, splitLines (a ++ 10%N :: w) = a :: splitLines w.
Proof.
  induction a as [ | c a IH]; intros H w; [reflexivity | ].
  simpl app. simpl splitLines.
  destruct (N.eqb_spec c 10) as [-> | Hc]; [exfalso; apply H; left; reflexivity | ].
  rewrite IH; [reflexivity | ]. intros Hin. apply H. right. exact Hin.
Qed.

Lemma splitLines_last (a : jsstring) : ~ In 10%N a -> splitLines a = [a].
Proof.
  induction a as [ | c a IH]; intros H; [reflexivity | ].
  simpl splitLines.
  destruct (N.eqb_spec c 10) as [-> | Hc]; [exfalso; apply H; left; reflexivity | ].
  rewrite IH; [reflexivity | ]. intros Hin. apply H. right. exact Hin.
Qed.

Lemma trim_after_space (s : jsstring) :
  SearchBar.trim (32%N :: s) = SearchBar.trim s.
Proof. reflexivity. Qed.

Lemma truthy_nonempty (s : jsstring) : s <> [] -> truthy s = true.
Proof. destruct s; [contradiction | reflexivity]. Qed.

(** The body of a frame is read back as its two fields, trimmed. *)
Lemma parseFrame_body (f : jsstring * jsstring) :
  oneLineFrame f -> parseFrame (frameBody [10%N] f) = readBack f.
Proof.
  destruct f as [t d]. intros [Ht Hd]. simpl fst in *. simpl snd in *.
  unfold parseFrame.
  assert (Hbody : truthy (SearchBar.trim (frameBody [10%N] (t, d))) = true).
  { apply truthy_nonempty. intros E. apply trim_blank in E. discriminate E. }
  rewrite Hbody. cbn [negb].
  assert (Hlines : splitLines (frameBody [10%N] (t, d))
                   = [lit "event: " ++ t; lit "data: " ++ d]).
  { unfold frameBody. cbn [fst snd]. rewrite app_assoc.
    change ([10%N] ++ lit "data: " ++ d) with (10%N :: (lit "data: " ++ d)).
    rewrite (splitLines_line _ (proj1 (event_line_chars t Ht))).
    rewrite (splitLines_last _ (proj1 (data_line_chars d Hd))). reflexivity. }
  rewrite Hlines. cbn [fold_left].
  assert (H1 : parseLine ([], []) (lit "event: " ++ t) = (SearchBar.trim t, [])).
  { unfold parseLine.
    change (startsWith (lit "event:") (lit "event: " ++ t)) with true.
    cbv iota. change (skipn 6 (lit "event: " ++ t)) with (32%N :: t).
    rewrite trim_after_space. reflexivity. }
  assert (H2 : parseLine (SearchBar.trim t, []) (lit "data: " ++ d)
               = (SearchBar.trim t, [SearchBar.trim d])).
  { unfold parseLine.
    change (startsWith (lit "event:") (lit "data: " ++ d)) with false.
    change (startsWith (lit "data:") (lit "data: " ++ d)) with true.
    cbv iota. change (skipn 5 (lit "data: " ++ d)) with (32%N :: d).
    rewrite trim_after_space. reflexivity. }
  rewrite H1, H2. cbn [joinLines]. unfold readBack. cbn [fst snd].
  destruct (truthy (SearchBar.trim t)), (truthy (SearchBar.trim d)); reflexivity.
Qed.

(** A frame whose fields are not empty and carry no white space at
    their ends is read back as it is. *)
Lemma plainField_oneLine (s : jsstring) : plainField s -> oneLine s.
Proof. intros (_ & _ & H). exact H. Qed.

Lemma plainFrame_oneLine (fs : list (jsstring * jsstring)) :
  Forall plainFrame fs -> Forall oneLineFrame fs.
Proof.
  intros H. induction H as [ | f fs [Ht Hd] _ IH]; constructor; [ | exact IH].
  split; apply plainField_oneLine; assumption.
Qed.

Lemma readBack_plain (f : jsstring * jsstring) :
  plainFrame f -> readBack f = Some f.
Proof.
  destruct f as [t d]. intros [(Ht & Et & _) (Hd & Ed & _)].
  cbn [fst snd] in *. unfold readBack. cbn [fst snd]. rewrite Et, Ed.
  rewrite (truthy_nonempty t Ht), (truthy_nonempty d Hd). reflexivity.
Qed.

Lemma readBackAll_plain (fs : list (jsstring * jsstring)) :
  Forall plainFrame fs -> readBackAll fs = fs.
Proof.
  intros H. induction H as [ | f fs Hf _ IH]; [reflexivity | ].
  cbn [readBackAll]. rewrite (readBack_plain f Hf), IH. reflexivity.
Qed.

Lemma frameBody_two_lines (f : jsstring * jsstring) (z : jsstring) :
  frameBody [10%N] f ++ z
  = (lit "event: " ++ fst f) ++ 10%N :: (lit "data: " ++ snd f) ++ z.
Proof. rewrite frameBody_lines. reflexivity. Qed.

Lemma data_line_nonempty (d : jsstring) : lit "data: " ++ d <> [].
Proof. discriminate. Qed.

Lemma splitBlank_stream (fs : list (jsstring * jsstring)) :
  Forall oneLineFrame fs ->
  forall w, splitBlank (encodeStream [10%N] fs ++ w)
            = map (frameBody [10%N]) fs ++ splitBlank w.
Proof.
  intros Hfs w. induction Hfs as [ | f fs Hf _ IH]; [reflexivity | ].
  unfold encodeStream in *. cbn [map List.concat].
  unfold encodeFrame at 1. rewrite <- !app_assoc.
  rewrite frameBody_two_lines.
  change ([10%N] ++ [10%N] ++ List.concat (map (encodeFrame [10%N]) fs) ++ w)
    with (10%N :: 10%N :: (List.concat (map (encodeFrame [10%N]) fs) ++ w)).
  destruct Hf as [Ht Hd].
  rewrite (splitBlank_two_lines _ _ (proj1 (event_line_chars _ Ht))
             (proj1 (data_line_chars _ Hd)) (data_line_nonempty _)).
  rewrite IH. unfold frameBody. rewrite <- !app_assoc. reflexivity.
Qed.

Lemma framesOf_bodies (fs : list (jsstring * jsstring)) :
  Forall oneLineFrame fs ->
  framesOf (map (frameBody [10%N]) fs) = readBackAll fs.
Proof.
  intros Hfs. induction Hfs as [ | f fs Hf _ IH]; [reflexivity | ].
  cbn [map framesOf readBackAll]. rewrite (parseFrame_body f Hf), IH.
  reflexivity.
Qed.

(** Reading an encoded stream followed by text that holds no blank
    line: the frames come back trimmed, the text stays in the buffer. *)
Lemma readAll_encoded (eol : jsstring) (fs : list (jsstring * jsstring))
  (rest : jsstring) (chunks : list jsstring) :
  lineEnding eol -> Forall oneLineFrame fs ->
  noCRCRLF rest = true ->
  splitBlank (replaceCRLF rest) = [replaceCRLF rest] ->
  List.concat chunks = encodeStream eol fs ++ rest ->
  readAll chunks = (replaceCRLF rest, readBackAll fs).
Proof.
  intros He Hfs Hrest Hone E.
  rewrite readAll_whole by (rewrite E, (noCRCRLF_stream eol fs He Hfs); exact Hrest).
  rewrite E, (replaceCRLF_stream eol fs He Hfs), (splitBlank_stream fs Hfs), Hone.
  rewrite last_last, removelast_last, (framesOf_bodies fs Hfs). reflexivity.
Qed.

(** X2.  A stream made of frames ["event: <type>", "data: <json>",
    blank line], with LF or CRLF line endings, whose types and data
    hold no carriage return and no line feed, comes out of the reader,
    however it is cut into chunks, as those frames in order with type
    and data trimmed, the frames whose trimmed type or data is empty
    left out, and leaves the buffer empty.  When no type and no data is
    empty or begins or ends with white space, exactly the frames sent
    come out. *)
Theorem reader_round_trip (eol : jsstring) (fs : list (jsstring * jsstring))
  (chunks : list jsstring) :
  lineEnding eol -> Forall oneLineFrame fs ->
  List.concat chunks = encodeStream eol fs ->
  readAll chunks = ([], readBackAll fs) /\
  (Forall plainFrame fs -> readAll chunks = ([], fs)).
Proof.
  intros He Hfs E.
  assert (H : readAll chunks = ([], readBackAll fs)).
  { apply (readAll_encoded eol fs [] chunks He Hfs eq_refl eq_refl).
    rewrite app_nil_r. exact E. }
  split; [exact H | ].
  intros Hplain. rewrite H, (readBackAll_plain fs Hplain). reflexivity.
Qed.

(** X3.  A frame whose closing blank line has not arrived is not
    dispatched: after complete frames and one more frame that ends with
    a single line ending, only the complete frames have reached
    [JSON.parse]; the last one waits in the buffer, and is lost if the
    stream ends there. *)
Theorem reader_keeps_unterminated_frame (eol : jsstring)
  (fs : list (jsstring * jsstring)) (f : jsstring * jsstring)
  (chunks : list jsstring) :
  lineEnding eol -> Forall plainFrame fs -> plainFrame f ->
  List.concat chunks = encodeStream eol fs ++ frameBody eol f ++ eol ->
  readAll chunks = (frameBody [10%N] f ++ [10%N], fs).
Proof.
  intros He Hplain Hf' E.
  assert (Hfs : Forall oneLineFrame fs) by (apply plainFrame_oneLine, Hplain).
  assert (Hf : oneLineFrame f).
  { destruct Hf' as [Ht Hd]. split; apply plainField_oneLine; assumption. }
  assert (Hn : replaceCRLF (frameBody eol f ++ eol) = frameBody [10%N] f ++ [10%N]).
  { rewrite (replaceCRLF_body eol f He Hf).
    rewrite <- (app_nil_r eol), (replaceCRLF_eol eol He). reflexivity. }
  rewrite <- Hn. rewrite <- (readBackAll_plain fs Hplain) at 1.
  apply (readAll_encoded eol fs (frameBody eol f ++ eol) chunks He Hfs).
  - rewrite (noCRCRLF_body eol f He Hf).
    rewrite <- (app_nil_r eol), (noCRCRLF_eol eol He). reflexivity.
  - rewrite Hn. rewrite frameBody_two_lines. destruct Hf as [Ht Hd].
    apply (splitBlank_two_lines_end _ _ (proj1 (event_line_chars _ Ht))
             (proj1 (data_line_chars _ Hd)) (data_line_nonempty _)).
  - exact E.
Qed.

End SseRoundTrip.

Lemma sampleFrames_plain : Forall Sse.plainFrame sampleFrames.
Proof.
  repeat constructor; simpl; try discriminate.
Qed.

(** X1 at the sample stream: cut in five chunks or read at once. *)
Lemma reader_chunking_irrelevant_witness :
  Sse.readAll sampleChunks = Sse.readAll [List.concat sampleChunks].
Proof.
  apply (reader_chunking_irrelevant sampleChunks [List.concat sampleChunks]).
  - reflexivity.
  - reflexivity.
Defined.

(** X2 at the sample stream, and at a frame whose data ends with a
    space. *)
Lemma reader_round_trip_witness :
  Sse.readAll sampleChunks = ([], sampleFrames) /\
  Sse.readAll [Js.lit "event: answer_delta" ++ CRLF ++ Js.lit "data: 5 " ++ CRLF;
               CRLF]
  = ([], [ (Js.lit "answer_delta", Js.lit "5") ]).
Proof.
  split.
  - apply (reader_round_trip CRLF sampleFrames sampleChunks).
    + right. reflexivity.
    + repeat constructor.
    + reflexivity.
    + exact sampleFrames_plain.
  - apply (reader_round_trip CRLF [ (Js.lit "answer_delta", Js.lit "5 ") ]
             [Js.lit "event: answer_delta" ++ CRLF ++ Js.lit "data: 5 " ++ CRLF;
              CRLF]).
    + right. reflexivity.
    + repeat constructor.
    + reflexivity.
Defined.

(** X3 at the sample stream without its last blank line. *)
Lemma reader_keeps_unterminated_frame_witness :
  Sse.readAll sampleChunksOpen
  = (Js.lit "event: confidence" ++ [10%N] ++ Js.lit "data: 87" ++ [10%N],
     [ (Js.lit "status", Js.lit "1") ]).
Proof.
  apply (reader_keeps_unterminated_frame CRLF
           [ (Js.lit "status", Js.lit "1") ]
           (Js.lit "confidence", Js.lit "87") sampleChunksOpen).
  - right. reflexivity.
  - repeat constructor; simpl; discriminate.
  - repeat constructor; simpl; discriminate.
  - reflexivity.
Defined.

(* ------------------------------------------------------------------ *)
(** ** Trimming, the two forms *)

Section TrimFacts.

Import Js SearchBar.

Lemma trimStart_split (s : jsstring) :
  exists pre, s = pre ++ trimStart s /\ forallb isWhiteSpace pre = true.
Proof.
  induction s as [ | c r (pre & E & Hpre)]; simpl.
  - exists []. split; reflexivity.
  - destruct (isWhiteSpace c) eqn:Hc.
    + exists (c :: pre). simpl. rewrite Hc, Hpre. split; [congruence | reflexivity].
    + exists []. split; reflexivity.
Qed.

Lemma trimEnd_split (s : jsstring) :
  exists post, s = trimEnd s ++ post /\ forallb isWhiteSpace post = true.
Proof.
  destruct (trimStart_split (rev s)) as (pre & E & Hpre).
  exists (rev pre). unfold trimEnd. split.
  - rewrite <- rev_app_distr, <- E, rev_involutive. reflexivity.
  - rewrite forallb_rev. exact Hpre.
Qed.

Lemma trimStart_fixed (c : N) (r : jsstring) :
  isWhiteSpace c = false -> trimStart (c :: r) = c :: r.
Proof. intros H. simpl. rewrite H. reflexivity. Qed.

Lemma trimEnd_last (s : jsstring) :
  trimEnd s = [] \/
  exists r c, trimEnd s = r ++ [c] /\ isWhiteSpace c = false.
Proof.
  unfold trimEnd. destruct (trimStart (rev s)) as [ | c r] eqn:E.
  - left. reflexivity.
  - right. exists (rev r), c. split; [reflexivity | ].
    apply (trimStart_head _ _ _ E).
Qed.

Lemma trimEnd_fixed (r : jsstring) (c : N) :
  isWhiteSpace c = false -> trimEnd (r ++ [c]) = r ++ [c].
Proof.
  intros H. unfold trimEnd. rewrite rev_app_distr.
  change (rev [c] ++ rev r) with (c :: rev r).
  rewrite (trimStart_fixed c (rev r) H).
  change (rev (c :: rev r)) with (rev (rev r) ++ [c]).
  rewrite rev_involutive. reflexivity.
Qed.

Lemma trim_split (s : jsstring) :
  exists pre post,
    s = pre ++ trim s ++ post /\
    forallb isWhiteSpace pre = true /\ forallb isWhiteSpace post = true.
Proof.
  destruct (trimStart_split s) as (pre & Es & Hpre).
  destruct (trimEnd_split (trimStart s)) as (post & Et & Hpost).
  exists pre, post. split; [ | split; assumption].
  unfold trim. rewrite <- Et. exact Es.
Qed.

Lemma trim_shape (s : jsstring) :
  trim s = [] \/
  exists c r r' c',
    trim s = c :: r /\ isWhiteSpace c = false /\
    trim s = r' ++ [c'] /\ isWhiteSpace c' = false.
Proof.
  destruct (trimEnd_split (trimStart s)) as (post & Et & Hpost).
  unfold trim in *.
  destruct (trimEnd_last (trimStart s)) as [E | (r' & c' & E & Hc')];
    [left; exact E | right].
  destruct (trimEnd (trimStart s)) as [ | c r] eqn:Eu;
    [destruct r'; discriminate E | ].
  exists c, r, r', c'. repeat split; try assumption.
  destruct (trimStart s) as [ | c0 r0] eqn:E0; [discriminate Et | ].
  simpl in Et. injection Et as -> _. apply (trimStart_head _ _ _ E0).
Qed.

Lemma trim_idempotent (s : jsstring) : trim (trim s) = trim s.
Proof.
  destruct (trim_shape s) as [E | (c & r & r' & c' & E1 & Hc & E2 & Hc')].
  - rewrite E. reflexivity.
  - unfold trim at 1. rewrite E1, (trimStart_fixed c r Hc), <- E1, E2.
    apply trimEnd_fixed, Hc'.
Qed.

(** X4.  [trim] cuts a run of white space off each end and nothing
    else: the input is white space, the trimmed string, white space;
    the trimmed string, unless empty, begins and ends with a code unit
    that is not white space; and trimming again changes nothing. *)
Theorem trim_cuts_only_white_space (s : jsstring) :
  (exists pre post,
     s = pre ++ trim s ++ post /\
     forallb isWhiteSpace pre = true /\ forallb isWhiteSpace post = true) /\
  (trim s = [] \/
   exists c r r' c',
     trim s = c :: r /\ isWhiteSpace c = false /\
     trim s = r' ++ [c'] /\ isWhiteSpace c' = false) /\
  trim (trim s) = trim s.
Proof.
  split; [apply trim_split | split; [apply trim_shape | apply trim_idempotent] ].
Qed.

(** X5.  The submit button of the search bar is disabled exactly when
    submitting would search nothing; and a query that is searched is
    never empty and never begins or ends with white space. *)
Theorem search_button_matches_submit (query : jsstring) (isLoading : bool) :
  (SearchForm.buttonDisabled query isLoading = true
   <-> onSearchCalls query isLoading = []) /\
  (SearchForm.buttonDisabled query isLoading = false
   <-> onSearchCalls query isLoading = [trim query]) /\
  (forall q, In q (onSearchCalls query isLoading) ->
     q <> [] /\ trim q = q).
Proof.
  unfold SearchForm.buttonDisabled, onSearchCalls, handleSubmit. cbv zeta.
  destruct (trim query) as [ | c r] eqn:E; destruct isLoading; simpl;
    (split; [split; intros H; try reflexivity; discriminate H | ]);
    (split; [split; intros H; try reflexivity; discriminate H | ]);
    intros q Hin; try contradiction.
  destruct Hin as [<- | [] ]. split; [discriminate | ].
  rewrite <- E. apply trim_idempotent.
Qed.

End TrimFacts.

(** X6.  The clarification prompt submits exactly when its button is
    enabled, whether or not a search is loading: a blank answer submits
    nothing, any other answer is submitted once, trimmed, and what is
    submitted is never empty and never begins or ends with white
    space. *)
Theorem clarification_submits_trimmed
  (W : Type) (onSubmit : Js.jsstring -> W -> W) (answer : Js.jsstring) (w : W) :
  (ClarificationPrompt.buttonDisabled answer = true
   <-> ClarificationPrompt.onSubmitCalls answer = []) /\
  (ClarificationPrompt.buttonDisabled answer = true ->
   ClarificationPrompt.handleSubmit W onSubmit answer w = w) /\
  (ClarificationPrompt.buttonDisabled answer = false ->
   ClarificationPrompt.handleSubmit W onSubmit answer w
   = onSubmit (SearchBar.trim answer) w /\
   ClarificationPrompt.onSubmitCalls answer = [SearchBar.trim answer]) /\
  (forall a, In a (ClarificationPrompt.onSubmitCalls answer) ->
     a <> [] /\ SearchBar.trim a = a).
Proof.
  unfold ClarificationPrompt.buttonDisabled, ClarificationPrompt.onSubmitCalls,
    ClarificationPrompt.handleSubmit.
  destruct (SearchBar.trim answer) as [ | c r] eqn:E; simpl.
  - split; [tauto | ]. split; [reflexivity | ]. split; [discriminate | ].
    intros a [].
  - split; [split; discriminate | ]. split; [discriminate | ].
    split; [split; reflexivity | ].
    intros a [<- | [] ]. split; [discriminate | ].
    rewrite <- E. apply trim_idempotent.
Qed.

(* ------------------------------------------------------------------ *)
(** ** Runs of the hook *)

Section HookRunFacts.

Import Js UseSearch HookRuns.

Lemma applyEvents_cons (ev : SSEEvent) (evs : list SSEEvent) (s : SearchState) :
  applyEvents (ev :: evs) s = applyEvents evs (applyEvent ev s).
Proof. reflexivity. Qed.

Lemma applyEvents_isLoading (evs : list SSEEvent) :
  forall s, isLoading s = false -> isLoading (applyEvents evs s) = false.
Proof.
  induction evs as [ | ev evs IH]; intros s H; [exact H | ].
  rewrite applyEvents_cons. apply IH. destruct ev; simpl; try exact H; reflexivity.
Qed.

Lemma applyEvents_isDomainReject (evs : list SSEEvent) :
  forall s, isDomainReject s = true -> isDomainReject (applyEvents evs s) = true.
Proof.
  induction evs as [ | ev evs IH]; intros s H; [exact H | ].
  rewrite applyEvents_cons. apply IH. destruct ev; simpl; try exact H; reflexivity.
Qed.

Lemma applyEvents_needsClarification (evs : list SSEEvent) :
  forall s, needsClarification s = true ->
            needsClarification (applyEvents evs s) = true.
Proof.
  induction evs as [ | ev evs IH]; intros s H; [exact H | ].
  rewrite applyEvents_cons. apply IH. destruct ev; simpl; try exact H; reflexivity.
Qed.

Lemma applyEvents_error (evs : list SSEEvent) :
  forall s, error s <> None -> error (applyEvents evs s) <> None.
Proof.
  induction evs as [ | ev evs IH]; intros s H; [exact H | ].
  rewrite applyEvents_cons. apply IH. destruct ev; simpl; try exact H; discriminate.
Qed.

Lemma applyEvents_confidence_kept (evs : list SSEEvent) :
  forall s, confidenceScore s <> None -> confidenceScore (applyEvents evs s) <> None.
Proof.
  induction evs as [ | ev evs IH]; intros s H; [exact H | ].
  rewrite applyEvents_cons. apply IH. destruct ev; simpl; try exact H; discriminate.
Qed.

Lemma applyEvents_kpis_kept (evs : list SSEEvent) :
  forall s, kpis s <> None -> kpis (applyEvents evs s) <> None.
Proof.
  induction evs as [ | ev evs IH]; intros s H; [exact H | ].
  rewrite applyEvents_cons. apply IH. destruct ev; simpl; try exact H; discriminate.
Qed.

(** X7.  Within a stream nothing received is taken back: whatever
    events follow, the domain-reject and clarification flags stay set,
    an error, a confidence score and the KPIs stay present, the loading
    flag is not switched on again, and the answer only grows at its
    end. *)
Theorem events_take_nothing_back (evs : list SSEEvent) (s : SearchState) :
  (isDomainReject s = true -> isDomainReject (applyEvents evs s) = true) /\
  (needsClarification s = true -> needsClarification (applyEvents evs s) = true) /\
  (error s <> None -> error (applyEvents evs s) <> None) /\
  (confidenceScore s <> None -> confidenceScore (applyEvents evs s) <> None) /\
  (kpis s <> None -> kpis (applyEvents evs s) <> None) /\
  (isLoading s = false -> isLoading (applyEvents evs s) = false) /\
  (exists more, answer (applyEvents evs s) = answer s ++ more).
Proof.
  split; [apply applyEvents_isDomainReject | ].
  split; [apply applyEvents_needsClarification | ].
  split; [apply applyEvents_error | ].
  split; [apply applyEvents_confidence_kept | ].
  split; [apply applyEvents_kpis_kept | ].
  split; [apply applyEvents_isLoading | ].
  exists (List.concat (answerDeltas evs)). apply applyEvents_answer.
Qed.

Lemma settle_isLoading (ending : option Thrown) (h : Hook) :
  isLoading (state (settle ending h)) = false.
Proof. destruct ending as [ [ | m | ] | ]; reflexivity. Qed.

Lemma settle_status (ending : option Thrown) (h : Hook) :
  status (state (settle ending h)) = status (state h).
Proof. destruct ending as [ [ | m | ] | ]; reflexivity. Qed.

Lemma settle_confidence (ending : option Thrown) (h : Hook) :
  confidenceScore (state (settle ending h)) = confidenceScore (state h).
Proof. destruct ending as [ [ | m | ] | ]; reflexivity. Qed.

Lemma searchRest_isLoading (o : Outcome) (h : Hook) :
  renderThrows o = false -> isLoading (state (searchRest o h)) = false.
Proof.
  destruct o as [err | st read | | evs ending]; unfold searchRest, renderThrows;
    cbv zeta; try (intros _; apply settle_isLoading).
  destruct (errorOf st (errOf read)); [intros _; apply settle_isLoading | discriminate].
Qed.




End HookRunFacts.

Section HookOutcomeFacts.

Import Js UseSearch HookRuns Outcomes.

Lemma settle_error_kept (ending : option Thrown) (h : Hook) :
  error (state h) <> None -> error (state (settle ending h)) <> None.
Proof. intros H. destruct ending as [ [ | m | ] | ]; simpl; try exact H; discriminate. Qed.




Lemma applyEvents_asks (evs : list SSEEvent) :
  forall s, needsClarification (applyEvents evs s)
            = needsClarification s || existsb isClarification evs.
Proof.
  induction evs as [ | ev evs IH]; intros s.
  - simpl. rewrite orb_false_r. reflexivity.
  - rewrite applyEvents_cons, IH. destruct ev; simpl; try reflexivity.
    rewrite orb_true_r. reflexivity.
Qed.

Lemma settle_needsClarification (ending : option Thrown) (h : Hook) :
  needsClarification (state (settle ending h)) = needsClarification (state h).
Proof. destruct ending as [ [ | m | ] | ]; reflexivity. Qed.

(** X10.  [clarify] comes to the same as [search] with the answer as
    the query: the fields it clears first are reset by the search in any
    case.  When it is over, the hook asks for a clarification again
    exactly when the new stream has delivered a [clarification_needed]
    event. *)
Theorem clarify_is_search (answer : jsstring) (o : Outcome) (h : Hook) :
  clarify answer o h = search answer o h /\
  needsClarification (state (clarify answer o h))
  = existsb isClarification (eventsOf o).
Proof.
  split; [reflexivity | ].
  unfold clarify, search.
  destruct o as [err | st d | | evs ending]; simpl eventsOf.
  - unfold searchRest. rewrite settle_needsClarification. reflexivity.
  - unfold searchRest. destruct (errorOf st (errOf d)); reflexivity.
  - reflexivity.
  - unfold searchRest.
    rewrite settle_needsClarification, deliverAll_state, applyEvents_asks.
    reflexivity.
Qed.

Lemma applyEvents_confidence (evs : list SSEEvent) :
  forall s, confidenceScore (applyEvents evs s)
            = match lastConfidence evs with
              | Some n => Some n
              | None => confidenceScore s
              end.
Proof.
  induction evs as [ | ev evs IH]; intros s; [reflexivity | ].
  rewrite applyEvents_cons, IH. simpl lastConfidence.
  destruct (lastConfidence evs); [reflexivity | ].
  destruct ev; reflexivity.
Qed.

(** X11.  While a stream is being received and when it is over, the
    answer card, where it is shown, holds the chunks received so far in
    order and the badge of the last confidence event, no badge if there
    was none; once the stream is over, the card is shown exactly when
    some answer text was received. *)
Theorem card_shows_answer_and_last_confidence
  (query : jsstring) (h : Hook) (evs : list SSEEvent) (ending : option Thrown) :
  (forall c, card (deliverAll evs (searchBegin query h)) = Some c ->
     AnswerCard.text c = List.concat (answerDeltas evs) /\
     AnswerCard.badge c
     = option_map ConfidenceBadge.ConfidenceBadge (lastConfidence evs)) /\
  (forall c, card (search query (Streamed evs ending) h) = Some c ->
     AnswerCard.text c = List.concat (answerDeltas evs) /\
     AnswerCard.badge c
     = option_map ConfidenceBadge.ConfidenceBadge (lastConfidence evs)) /\
  (card (search query (Streamed evs ending) h) = None
   <-> List.concat (answerDeltas evs) = []).
Proof.
  assert (A1 : answer (state (deliverAll evs (searchBegin query h)))
               = List.concat (answerDeltas evs)).
  { rewrite deliverAll_state, applyEvents_answer. reflexivity. }
  assert (C1 : confidenceScore (state (deliverAll evs (searchBegin query h)))
               = lastConfidence evs).
  { rewrite deliverAll_state, applyEvents_confidence.
    destruct (lastConfidence evs); reflexivity. }
  assert (A2 : answer (state (search query (Streamed evs ending) h))
               = List.concat (answerDeltas evs)).
  { unfold search, searchRest. rewrite settle_answer. exact A1. }
  assert (C2 : confidenceScore (state (search query (Streamed evs ending) h))
               = lastConfidence evs).
  { unfold search, searchRest. rewrite settle_confidence. exact C1. }
  assert (L2 : isLoading (state (search query (Streamed evs ending) h)) = false)
    by (apply searchRest_isLoading; reflexivity).
  split; [ | split].
  - intros c. unfold card, AnswerCard.AnswerCard. rewrite A1, C1.
    destruct (negb (truthy (List.concat (answerDeltas evs)))
              && negb (isLoading (state (deliverAll evs (searchBegin query h)))));
      [discriminate | ].
    intros E. injection E as <-. split; reflexivity.
  - intros c. unfold card, AnswerCard.AnswerCard. rewrite A2, C2, L2.
    destruct (negb (truthy (List.concat (answerDeltas evs))) && negb false);
      [discriminate | ].
    intros E. injection E as <-. split; reflexivity.
  - unfold card, AnswerCard.AnswerCard. rewrite A2, C2, L2.
    destruct (List.concat (answerDeltas evs)); simpl; split;
      intros E; try reflexivity; discriminate E.
Qed.

Lemma abort_other (c c0 : nat) (cs : list bool) :
  c <> c0 -> nth c (abort c0 cs) false = nth c cs false.
Proof.
  revert c c0. induction cs as [ | b r IH]; intros c c0 H; [reflexivity | ].
  destruct c0 as [ | c0]; destruct c as [ | c]; simpl; try reflexivity.
  - contradiction.
  - apply IH. lia.
Qed.

Lemma abort_keeps (c c0 : nat) (cs : list bool) :
  nth c cs false = true -> nth c (abort c0 cs) false = true.
Proof.
  intros H. destruct (Nat.eq_dec c c0) as [-> | Hne].
  - apply abort_flag. destruct (Nat.lt_ge_cases c0 (List.length cs)) as [ | Hge];
      [assumption | ].
    rewrite nth_overflow in H by exact Hge. discriminate H.
  - rewrite abort_other by exact Hne. exact H.
Qed.

Lemma abortCurrent_keeps (c : nat) (h : Hook) :
  nth c (controllers h) false = true -> nth c (abortCurrent h) false = true.
Proof.
  unfold abortCurrent. destruct (abortRef h); [apply abort_keeps | tauto].
Qed.

Lemma run_snoc (steps : list Step) (a : Step) :
  run (steps ++ [a]) = step (run steps) a.
Proof. unfold run. rewrite fold_left_app. reflexivity. Qed.

(** What every run of the hook keeps. *)
Lemma run_invariant (steps : list Step) :
  wellFormed (run steps) /\
  List.length (controllers (run steps)) = List.length (requests (run steps)) /\
  forall c, (c < List.length (controllers (run steps)))%nat ->
            abortRef (run steps) <> Some c ->
            isAborted c (run steps) = true.
Proof.
  induction steps as [ | a steps (WF & Hlen & Hlive)] using rev_ind.
  - split; [exact I | ]. split; [reflexivity | ]. intros c H. simpl in H. lia.
  - rewrite run_snoc. set (h := run steps) in *.
    destruct a as [query | ev | ending | ]; simpl step.
    + split; [apply (wellFormed_steps h) | ].
      split.
      * simpl. rewrite !length_app, abortCurrent_length, Hlen. reflexivity.
      * intros c Hc Hne. unfold isAborted, searchBegin in *. simpl in *.
        rewrite length_app, abortCurrent_length in Hc. simpl in Hc.
        rewrite abortCurrent_length in Hne.
        assert (Hlt : (c < List.length (controllers h))%nat).
        { destruct (Nat.eq_dec c (List.length (controllers h))) as [-> | ];
            [contradiction Hne; reflexivity | lia]. }
        rewrite app_nth1 by (rewrite abortCurrent_length; exact Hlt).
        unfold abortCurrent. destruct (abortRef h) as [c0 | ] eqn:Er.
        -- destruct (Nat.eq_dec c c0) as [-> | Hd].
           ++ apply abort_flag, Hlt.
           ++ rewrite abort_other by exact Hd. apply Hlive; [exact Hlt | congruence].
        -- apply Hlive; [exact Hlt | discriminate].
    + split; [exact WF | ]. split; [exact Hlen | exact Hlive].
    + destruct ending as [err | ]; (split; [exact WF | ]; split; [exact Hlen | exact Hlive]).
    + split; [exact I | ].
      split.
      * simpl. rewrite abortCurrent_length. exact Hlen.
      * intros c Hc _. unfold isAborted, cancel in *. simpl in *.
        rewrite abortCurrent_length in Hc.
        unfold abortCurrent. destruct (abortRef h) as [c0 | ] eqn:Er.
        -- destruct (Nat.eq_dec c c0) as [-> | Hd].
           ++ apply abort_flag, Hc.
           ++ rewrite abort_other by exact Hd. apply Hlive; [exact Hc | congruence].
        -- apply Hlive; [exact Hc | discriminate].
Qed.

(** X12.  In every run of the hook at most one request is live: each
    [search] has created one controller, [abortRef] holds none or one of
    them, and every controller other than that one is aborted; and no
    step of the hook revives an aborted controller. *)
Theorem at_most_one_live_request (steps : list Step) :
  wellFormed (run steps) /\
  List.length (controllers (run steps)) = List.length (requests (run steps)) /\
  (forall c, (c < List.length (controllers (run steps)))%nat ->
             abortRef (run steps) <> Some c ->
             isAborted c (run steps) = true) /\
  (forall a c, isAborted c (run steps) = true ->
               isAborted c (step (run steps) a) = true).
Proof.
  destruct (run_invariant steps) as (WF & Hlen & Hlive).
  split; [exact WF | ]. split; [exact Hlen | ]. split; [exact Hlive | ].
  intros a c H. unfold isAborted in *.
  destruct a as [query | ev | ending | ]; simpl step.
  - unfold searchBegin. simpl.
    assert (Hlt : (c < List.length (controllers (run steps)))%nat).
    { destruct (Nat.lt_ge_cases c (List.length (controllers (run steps)))) as [ | Hge];
        [assumption | ].
      rewrite nth_overflow in H by exact Hge. discriminate H. }
    rewrite app_nth1 by (rewrite abortCurrent_length; exact Hlt).
    apply abortCurrent_keeps, H.
  - exact H.
  - destruct ending; exact H.
  - unfold cancel. simpl. apply abortCurrent_keeps, H.
Qed.

End HookOutcomeFacts.


(* ------------------------------------------------------------------ *)
(** ** The cost figures of the scenario explorer *)

Section ExactNumberFacts.

Import ScenarioCalc.

Lemma Qltb_lt (a b : Q) : Qltb a b = true <-> a < b.
Proof.
  unfold Qltb. rewrite Qlt_alt. destruct (a ?= b); split; congruence.
Qed.

Lemma Qltb_ge (a b : Q) : Qltb a b = false <-> b <= a.
Proof.
  split; intros H.
  - apply Qnot_lt_le. intros F. apply Qltb_lt in F. congruence.
  - destruct (Qltb a b) eqn:E; [ | reflexivity].
    apply Qltb_lt in E. exfalso. lra.
Qed.

Lemma Qleb_le (a b : Q) : Qleb a b = true <-> a <= b.
Proof.
  unfold Qleb. rewrite Qle_alt. destruct (a ?= b); split; congruence.
Qed.

Lemma Qleb_gt (a b : Q) : Qleb a b = false <-> b < a.
Proof.
  unfold Qleb. rewrite Qgt_alt. destruct (a ?= b); split; congruence.
Qed.



End ExactNumberFacts.

Section TrendChartFacts.

Import Js TrendChart.



End TrendChartFacts.

Section BreakevenFacts.

Import F64 ScenarioCalc.

Lemma mul_zero_falsy (x : f64) (s : bool) : truthyNumber (mul x (S754_zero s)) = false.
Proof. destruct x as [sx | sx | | sx m e]; reflexivity. Qed.

Lemma div_falsy (x y : f64) : truthyNumber x = false -> truthyNumber (div x y) = false.
Proof.
  destruct x as [sx | sx | | sx m e]; try discriminate; intros _;
    destruct y as [sy | sy | | sy my ey]; reflexivity.
Qed.

Lemma ceil_falsy (x : f64) : truthyNumber x = false -> truthyNumber (ceil x) = false.
Proof. destruct x as [sx | sx | | sx m e]; try discriminate; reflexivity. Qed.

(** X15.  With nothing down the breakeven line always reads "Renting is
    cheaper", whatever the price, the rent and the monthly cost of
    owning, even where owning costs less a month than renting: the down
    payment and with it the month count are then zero (NaN for a price
    that is not finite), which the line takes for no breakeven.  The
    line reads so exactly when the month count is [null], zero or
    NaN. *)
Theorem zero_down_reads_renting_is_cheaper
  (taxRate : f64) (i : Inputs) (pni : f64) :
  (forall s, downPct i = S754_zero s ->
     truthyNumber (downPayment (calcWith taxRate i pni)) = false /\
     breakevenText (breakevenMonths (calcWith taxRate i pni)) = RentingIsCheaper) /\
  (breakevenText (breakevenMonths (calcWith taxRate i pni)) = RentingIsCheaper
   <-> breakevenMonths (calcWith taxRate i pni) = None \/
       exists m, breakevenMonths (calcWith taxRate i pni) = Some m /\
                 truthyNumber m = false).
Proof.
  split.
  - intros s Hs.
    assert (Hd : truthyNumber (downPayment (calcWith taxRate i pni)) = false).
    { unfold calcWith. cbn [downPayment]. rewrite Hs.
      apply div_falsy, mul_zero_falsy. }
    split; [exact Hd | ].
    unfold calcWith in *. cbn [downPayment breakevenMonths] in *. cbv zeta.
    match goal with
    | |- context [if ?c then None else _] => destruct c
    end; [reflexivity | ].
    unfold breakevenText.
    rewrite ceil_falsy; [reflexivity | ]. apply div_falsy, Hd.
  - unfold breakevenText.
    destruct (breakevenMonths (calcWith taxRate i pni)) as [m | ].
    + destruct (truthyNumber m) eqn:Et.
      * split.
        -- destruct (leb (ofZ 12) m); discriminate.
        -- intros [H | (m' & E & Hm)]; [discriminate H | ].
           injection E as <-. rewrite Et in Hm. discriminate Hm.
      * split; [ | reflexivity]. intros _. right. exists m. split; [reflexivity | exact Et].
    + split; [ | reflexivity]. intros _. left. reflexivity.
Qed.

End BreakevenFacts.

Section BarFacts.

Import F64 ScenarioCalc.






End BarFacts.


Section TaxRateFacts.

Import Js F64 ScenarioCalc.

Variable toUpperCase : jsstring -> jsstring.

Lemma lookup_In (key : jsstring) (table : list (jsstring * Q)) (v : Q) :
  lookup key table = Some v -> In (key, v) table.
Proof.
  induction table as [ | [k w] rest IH]; simpl; [discriminate | ].
  unfold jsstring_eqb. destruct (list_eq_dec N.eq_dec key k) as [-> | ].
  - intros E. injection E as ->. left. reflexivity.
  - intros E. right. apply IH, E.
Qed.

Lemma STATE_TAX_RATES_range (code : jsstring) (v : Q) :
  In (code, v) STATE_TAX_RATES -> (28 # 100) <= v <= (249 # 100).
Proof.
  assert (H : forallb (fun kv => Qleb (28 # 100) (snd kv) && Qleb (snd kv) (249 # 100))
                STATE_TAX_RATES = true) by reflexivity.
  rewrite forallb_forall in H. intros Hin. specialize (H _ Hin).
  simpl in H. apply andb_true_iff in H. destruct H as [H1 H2].
  apply Qleb_le in H1, H2. split; assumption.
Qed.

(** A hundredth of each rate of the table is a positive finite
    Number. *)
Lemma STATE_TAX_RATES_share (code : jsstring) (v : Q) :
  In (code, v) STATE_TAX_RATES ->
  isPositiveFinite (div (ofQ v) (ofZ 100)) = true.
Proof.
  assert (H : forallb (fun kv => isPositiveFinite (div (ofQ (snd kv)) (ofZ 100)))
                STATE_TAX_RATES = true) by (vm_compute; reflexivity).
  rewrite forallb_forall in H. intros Hin. exact (H _ Hin).
Qed.

(** X18.  Whatever the state prop holds, the property-tax rate is an
    entry of the table or the 1.1 percent fallback, hence between 0.28
    and 2.49 percent; a missing or empty state gives the fallback; and
    the monthly tax on a price that is not negative is not negative. *)
Theorem tax_rate_is_a_table_rate_or_fallback (state : option jsstring) :
  (taxRate toUpperCase state = US_MEDIAN_TAX_RATE \/
   exists code, In (code, taxRate toUpperCase state) STATE_TAX_RATES) /\
  (28 # 100) <= taxRate toUpperCase state <= (249 # 100) /\
  taxRate toUpperCase None = US_MEDIAN_TAX_RATE /\
  taxRate toUpperCase (Some []) = US_MEDIAN_TAX_RATE /\
  (forall i pni, leb zero (homePrice i) = true ->
     leb zero (monthlyTax (calcWith (ofQ (taxRate toUpperCase state)) i pni))
     = true).
Proof.
  assert (H : taxRate toUpperCase state = US_MEDIAN_TAX_RATE \/
              exists code, In (code, taxRate toUpperCase state) STATE_TAX_RATES).
  { unfold taxRate. destruct state as [s | ]; [ | left; reflexivity].
    destruct (negb (truthy s)); [left; reflexivity | ]. cbv zeta.
    destruct (lookup (firstn 2 (toUpperCase (SearchBar.trim s))) STATE_TAX_RATES)
      as [v | ] eqn:E; [ | left; reflexivity].
    right. eexists. apply lookup_In, E. }
  assert (R : (28 # 100) <= taxRate toUpperCase state <= (249 # 100)).
  { destruct H as [-> | (code & Hin)].
    - unfold US_MEDIAN_TAX_RATE. split; discriminate.
    - apply (STATE_TAX_RATES_range code), Hin. }
  split; [exact H | ]. split; [exact R | ].
  split; [reflexivity | ]. split; [reflexivity | ].
  intros i pni Hp. unfold calcWith. cbn [monthlyTax].
  apply div_by_positive; [ | reflexivity].
  apply mul_by_positive; [exact Hp | ].
  destruct H as [-> | (code & Hin)]; [reflexivity | ].
  apply (STATE_TAX_RATES_share code), Hin.
Qed.

End TaxRateFacts.

(* ------------------------------------------------------------------ *)
(** ** The badge, the widgets, the tiles, the source cards *)

Section BadgeColourFacts.

Import Js ConfidenceBadge.

Lemma colours_differ : GREEN <> YELLOW /\ GREEN <> RED /\ YELLOW <> RED.
Proof. repeat split; intros E; vm_compute in E; discriminate E. Qed.

Lemma labels_differ :
  lit "High" <> lit "Medium" /\ lit "High" <> lit "Low" /\
  lit "Medium" <> lit "Low".
Proof. repeat split; intros E; vm_compute in E; discriminate E. Qed.

(** X19.  The colour of the badge always agrees with its label: green
    with High, yellow with Medium, red with Low, and it is always one of
    the three. *)
Theorem badge_colour_matches_label (score : Q) :
  (shownClass (ConfidenceBadge score) = GREEN
   <-> shownLabel (ConfidenceBadge score) = lit "High") /\
  (shownClass (ConfidenceBadge score) = YELLOW
   <-> shownLabel (ConfidenceBadge score) = lit "Medium") /\
  (shownClass (ConfidenceBadge score) = RED
   <-> shownLabel (ConfidenceBadge score) = lit "Low") /\
  (shownClass (ConfidenceBadge score) = GREEN \/
   shownClass (ConfidenceBadge score) = YELLOW \/
   shownClass (ConfidenceBadge score) = RED).
Proof.
  unfold ConfidenceBadge. cbn [shownClass shownLabel].
  rewrite colorClass_cases. unfold label.
  destruct colours_differ as (GY & GR & YR).
  destruct labels_differ as (HM & HL & ML).
  destruct (70 <=? round score)%Z; [ | destruct (40 <=? round score)%Z];
    (split; [split; intros E; try reflexivity; congruence | ]);
    (split; [split; intros E; try reflexivity; congruence | ]);
    (split; [split; intros E; try reflexivity; congruence | ]);
    auto.
Qed.

End BadgeColourFacts.

Section WidgetFacts.

Import Js Page Widgets.

Lemma allowed_has_component (name : jsstring) :
  In name allowedWidgets ->
  renderWidget name = TheScenarioExplorer \/
  renderWidget name = TheMarketSnapshot \/
  renderWidget name = TheTrendChart \/
  renderWidget name = TheCompsTable \/
  exists title,
    renderWidget name = TheWidgetPanel (Some title) /\ title <> [] /\
    (name = lit "distribution" \/ name = lit "map_view").
Proof.
  intros Hin. simpl in Hin.
  destruct Hin as [<- | [<- | [<- | [<- | [<- | [<- | [] ] ] ] ] ] ].
  - right; left; reflexivity.
  - right; right; left; reflexivity.
  - left; reflexivity.
  - right; right; right; left; reflexivity.
  - right; right; right; right. eexists. split; [reflexivity | ].
    split; [discriminate | left; reflexivity].
  - right; right; right; right. eexists. split; [reflexivity | ].
    split; [discriminate | right; reflexivity].
Qed.

(** X20.  Every widget the page renders has something to show: the
    scenario explorer, the market snapshot, the trend chart and the
    comparables table for their four names, and for [distribution] and
    [map_view] the placeholder panel, whose title is then always
    defined. *)
Theorem rendered_widget_has_component (plan : json) (ws : list json) :
  widgetsToRender plan = Returns ws ->
  forall w, In w ws ->
  exists name,
    w = JStr name /\
    (renderWidget name = TheScenarioExplorer \/
     renderWidget name = TheMarketSnapshot \/
     renderWidget name = TheTrendChart \/
     renderWidget name = TheCompsTable \/
     exists title,
       renderWidget name = TheWidgetPanel (Some title) /\ title <> [] /\
       (name = lit "distribution" \/ name = lit "map_view")).
Proof.
  intros H w Hin. unfold widgetsToRender in H.
  assert (Ha : allowedWidget w).
  { destruct (planWidgets plan) as [ [ | b | n | s | items | fields] | ];
      simpl in H; try discriminate H; injection H as <-; try contradiction.
    apply filter_In in Hin. apply includes_allowed, Hin. }
  destruct Ha as (name & -> & Hname).
  exists name. split; [reflexivity | apply allowed_has_component, Hname].
Qed.

End WidgetFacts.

(** X20 at the sample plan. *)
Lemma rendered_widget_has_component_witness :
  exists name,
    Js.JStr (Js.lit "comps_table") = Js.JStr name /\
    (Widgets.renderWidget name = Widgets.TheScenarioExplorer \/
     Widgets.renderWidget name = Widgets.TheMarketSnapshot \/
     Widgets.renderWidget name = Widgets.TheTrendChart \/
     Widgets.renderWidget name = Widgets.TheCompsTable \/
     exists title,
       Widgets.renderWidget name = Widgets.TheWidgetPanel (Some title) /\
       title <> [] /\
       (name = Js.lit "distribution" \/ name = Js.lit "map_view")).
Proof.
  apply (rendered_widget_has_component samplePlan
           [ Js.JStr (Js.lit "trend_chart"); Js.JStr (Js.lit "comps_table") ]
           eq_refl).
  right. left. reflexivity.
Defined.

Section SnapshotFacts.

Import Js UseSearch MarketSnapshot.

Lemma compact_In {A : Type} (l : list (option A)) (a : A) :
  In a (compact l) <-> In (Some a) l.
Proof.
  induction l as [ | [b | ] l IH]; simpl.
  - tauto.
  - rewrite IH. split; intros [E | H]; auto; left; congruence.
  - rewrite IH. split; [auto | intros [E | H]; [discriminate E | exact H] ].
Qed.

Lemma compact_length {A : Type} (l : list (option A)) :
  (List.length (compact l) <= List.length l)%nat.
Proof. induction l as [ | [b | ] l IH]; simpl; lia. Qed.

Lemma compact_nil {A : Type} (l : list (option A)) :
  compact l = [] <-> forall x, In x l -> x = None.
Proof.
  induction l as [ | [b | ] l IH]; simpl.
  - split; [intros _ x [] | reflexivity].
  - split; [discriminate | ]. intros H. specialize (H (Some b) (or_introl eq_refl)).
    discriminate H.
  - rewrite IH. split; intros H x; [intros [<- | Hin]; auto | auto].
Qed.

Lemma fallback_labels_nonempty (entry : (MarketKPIs -> option KPIValue) * jsstring) :
  In entry DISPLAY_ORDER -> snd entry <> [].
Proof.
  simpl. intros H.
  repeat (destruct H as [<- | H]; [discriminate | ]). contradiction.
Qed.

Lemma tileOf_filled (kpis : MarketKPIs)
  (entry : (MarketKPIs -> option KPIValue) * jsstring) (t : KPIValue) :
  In entry DISPLAY_ORDER -> tileOf kpis entry = Some t ->
  kpi_label t <> [] /\ exists v, kpi_value t = Some v /\ v <> [].
Proof.
  intros Hin. unfold tileOf. destruct (fst entry kpis) as [kpi | ]; [ | discriminate].
  destruct (kpi_value kpi) as [v | ] eqn:Ev; simpl; [ | discriminate].
  destruct v as [ | c v]; simpl; [discriminate | ].
  intros E. injection E as <-. simpl. split.
  - destruct (kpi_label kpi) as [ | a l]; simpl;
      [apply fallback_labels_nonempty, Hin | discriminate].
  - exists (c :: v). split; [reflexivity | discriminate].
Qed.

(** X21.  Every tile of the market snapshot has a value that is not
    empty and a label that is not empty (its own, or the fallback of its
    key); there are at most eight tiles; and the component renders
    nothing exactly when there are no KPIs or none of the eight has a
    value. *)
Theorem snapshot_tiles_are_filled (kpis : MarketKPIs) (title : option jsstring) :
  (forall t, In t (tiles kpis) ->
     kpi_label t <> [] /\ exists v, kpi_value t = Some v /\ v <> []) /\
  (List.length (tiles kpis) <= 8)%nat /\
  (MarketSnapshot (Some kpis) title = None
   <-> forall entry, In entry DISPLAY_ORDER -> tileOf kpis entry = None) /\
  MarketSnapshot None title = None.
Proof.
  split; [ | split; [ | split; [ | reflexivity] ] ].
  - intros t Hin. unfold tiles in Hin. apply compact_In in Hin.
    apply in_map_iff in Hin. destruct Hin as (entry & E & He).
    apply (tileOf_filled kpis entry t He E).
  - unfold tiles.
    apply Nat.le_trans with (List.length (map (tileOf kpis) DISPLAY_ORDER));
      [apply compact_length | ].
    rewrite length_map. apply Nat.le_refl.
  - unfold MarketSnapshot.
    assert (Hn : tiles kpis = [] <->
                 forall entry, In entry DISPLAY_ORDER -> tileOf kpis entry = None).
    { unfold tiles. rewrite compact_nil. split.
      - intros H entry He. apply H. apply in_map. exact He.
      - intros H x Hx. apply in_map_iff in Hx. destruct Hx as (entry & <- & He).
        apply H, He. }
    destruct (tiles kpis) as [ | t ts].
    + split; [intros _; apply Hn; reflexivity | reflexivity].
    + split; [discriminate | ]. intros H. apply Hn in H. discriminate H.
Qed.

End SnapshotFacts.

Section SourceListFacts.

Import Js UseSearch SourceList.

Lemma cardsFrom_index (sources : list SourceResult) :
  forall i, map index (cardsFrom i sources) = seq (i + 1) (List.length sources).
Proof.
  induction sources as [ | s r IH]; intros i; [reflexivity | ].
  simpl. rewrite IH. replace (S i + 1)%nat with (S (i + 1)) by lia. reflexivity.
Qed.

Lemma cardsFrom_source (sources : list SourceResult) :
  forall i, map source (cardsFrom i sources) = sources.
Proof.
  induction sources as [ | s r IH]; intros i; [reflexivity | ].
  simpl. rewrite IH. reflexivity.
Qed.

Lemma cardsFrom_percent (sources : list SourceResult) :
  forall i c, In c (cardsFrom i sources) ->
    relevancePercent c
    = F64.round (F64.mul (F64.ofQ (composite_score (source c))) (F64.ofZ 100)).
Proof.
  induction sources as [ | s r IH]; intros i c Hin; [contradiction | ].
  destruct Hin as [<- | Hin]; [reflexivity | apply (IH _ _ Hin)].
Qed.

(** X22.  The source cards are the sources in their order, numbered 1,
    2, ... to match the citations; the list renders nothing exactly when
    there is no source; and for a composite score between 0 and 1 the
    relevance percent, computed in double precision, is a whole number
    from 0 to 100. *)
Theorem source_cards_numbered_and_bounded (sources : list SourceResult) :
  map index (cardsFrom 0 sources) = seq 1 (List.length sources) /\
  map source (cardsFrom 0 sources) = sources /\
  (SourceList sources = None <-> sources = []) /\
  (forall c, In c (cardsFrom 0 sources) ->
     0 <= composite_score (source c) <= 1 ->
     exists n, (0 <= n <= 100)%Z /\ relevancePercent c = F64.integral false n).
Proof.
  split; [apply (cardsFrom_index sources 0) | ].
  split; [apply cardsFrom_source | ]. split.
  - unfold SourceList. destruct sources; simpl; split; congruence.
  - intros c Hin Hc. rewrite (cardsFrom_percent _ _ _ Hin).
    apply percent_of_unit, ofQ_unit, Hc.
Qed.

End SourceListFacts.

Section FreshnessFacts.

Import Js UseSearch FreshnessMeter.







Variable daysAgo : nat -> jsstring -> Days.


End FreshnessFacts.

Section FreshnessNewestFacts.

Import Js UseSearch FreshnessMeter.

Lemma count_newest_nan (days : list Days) :
  forall b, snd (fold_left count days (b, Some None)) = Some None.
Proof.
  induction days as [ | d days IH]; intros b; [reflexivity | ].
  change (fold_left count (d :: days) (b, Some None))
    with (fold_left count days (count (b, Some None) d)).
  unfold count at 2. apply IH.
Qed.

Lemma count_newest_min (days : list Days) :
  (forall d, In d days -> d <> None) ->
  forall b n,
  exists m,
    snd (fold_left count days (b, Some (Some n))) = Some (Some m) /\
    (m <= n)%Z /\ (m = n \/ In (Some m) days) /\
    (forall z, In (Some z) days -> (m <= z)%Z).
Proof.
  induction days as [ | d days IH]; intros Hvalid b n.
  - exists n. split; [reflexivity | ]. split; [lia | ]. split; [left; reflexivity | ].
    intros z [].
  - change (fold_left count (d :: days) (b, Some (Some n)))
      with (fold_left count days (count (b, Some (Some n)) d)).
    destruct d as [z | ]; [ | exfalso; apply (Hvalid None); [left | ]; reflexivity].
    assert (Hv : forall d, In d days -> d <> None)
      by (intros d Hd; apply Hvalid; right; exact Hd).
    unfold count at 2. destruct (Z.ltb_spec z n) as [Hlt | Hge].
    + match goal with
      | |- context [fold_left count days (?b1, _)] =>
          destruct (IH Hv b1 z) as (m & E & Hm & Hin & Hmin)
      end.
      exists m. split; [exact E | ]. split; [lia | ]. split.
      * right. destruct Hin as [-> | Hin]; [left; reflexivity | right; exact Hin].
      * intros z' [E' | Hz']; [injection E' as <-; exact Hm | apply Hmin, Hz'].
    + match goal with
      | |- context [fold_left count days (?b1, _)] =>
          destruct (IH Hv b1 n) as (m & E & Hm & Hin & Hmin)
      end.
      exists m. split; [exact E | ]. split; [exact Hm | ]. split.
      * destruct Hin as [-> | Hin]; [left; reflexivity | right; right; exact Hin].
      * intros z' [E' | Hz']; [injection E' as <-; lia | apply Hmin, Hz'].
Qed.

Variable daysAgo : nat -> jsstring -> Days.

(** X24.  When the age of every dated source is a number, the "newest"
    age of the freshness meter is the least of them.  When the date of
    the first dated source cannot be read, its age is NaN and the meter
    shows NaN whatever the other sources. *)
Theorem freshness_newest_is_least (sources : list SourceResult) :
  filter hasDate sources <> [] ->
  ((forall d, In d (agesFrom daysAgo 0 (filter hasDate sources)) -> d <> None) ->
   exists m,
     newestDays (FreshnessMeter daysAgo sources) = Some (Some m) /\
     In (Some m) (agesFrom daysAgo 0 (filter hasDate sources)) /\
     forall z, In (Some z) (agesFrom daysAgo 0 (filter hasDate sources)) ->
               (m <= z)%Z) /\
  ((exists rest, agesFrom daysAgo 0 (filter hasDate sources) = None :: rest) ->
   newestDays (FreshnessMeter daysAgo sources) = Some None).
Proof.
  intros Hne.
  assert (En : newestDays (FreshnessMeter daysAgo sources)
               = snd (fold_left count (agesFrom daysAgo 0 (filter hasDate sources))
                        ({| fresh := 0; medium := 0; stale := 0 |}, None))).
  { unfold FreshnessMeter. cbv zeta.
    destruct (fold_left count (agesFrom daysAgo 0 (filter hasDate sources))
                ({| fresh := 0; medium := 0; stale := 0 |}, None)); reflexivity. }
  rewrite En. clear En.
  destruct (agesFrom daysAgo 0 (filter hasDate sources)) as [ | d days] eqn:Ea.
  - exfalso. destruct (filter hasDate sources); [contradiction | discriminate Ea].
  - change (fold_left count (d :: days) ({| fresh := 0; medium := 0; stale := 0 |}, None))
      with (fold_left count days
              (count ({| fresh := 0; medium := 0; stale := 0 |}, None) d)).
    split.
    + intros Hvalid. destruct d as [z | ];
        [ | exfalso; apply (Hvalid None); [left | ]; reflexivity].
      assert (Hv : forall d, In d days -> d <> None)
        by (intros d Hd; apply Hvalid; right; exact Hd).
      unfold count at 2.
      match goal with
      | |- context [fold_left count days (?b1, _)] =>
          destruct (count_newest_min days Hv b1 z) as (m & E & Hm & Hin & Hmin)
      end.
      exists m. split; [exact E | ]. split.
      * destruct Hin as [-> | Hin]; [left; reflexivity | right; exact Hin].
      * intros z' [E' | Hz']; [injection E' as <-; exact Hm | apply Hmin, Hz'].
    + intros (rest & E). injection E as -> _.
      unfold count at 2. apply count_newest_nan.
Qed.

End FreshnessNewestFacts.

(** X24 at three sources, two of them dated 32 and 3 days back. *)
Lemma freshness_newest_is_least_witness :
  exists m,
    FreshnessMeter.newestDays (FreshnessMeter.FreshnessMeter sampleDaysAgo sampleSources)
    = Some (Some m) /\
    (m <= 3)%Z.
Proof.
  assert (Hne : filter FreshnessMeter.hasDate sampleSources <> []) by discriminate.
  destruct (proj1 (freshness_newest_is_least sampleDaysAgo sampleSources Hne))
    as (m & E & _ & Hmin).
  - intros d [<- | [<- | [] ] ]; discriminate.
  - exists m. split; [exact E | ]. apply Hmin. right. left. reflexivity.
Defined.
